(** * The live interview session hook (hooks/useLiveInterview)

    A shallow embedding of the React hook that owns the real-time audio
    session: the playback scheduler of the inbound-message handler, the
    transcript accumulators, the connection state machine, [connect] and
    [disconnect].

    Modelling conventions.
    - A JavaScript [number] holding a time in seconds is the rational [Q] it
      denotes.  [Math.max] is [Qmax]; [+] is [number_add], the exact sum
      rounded to the nearest double.  Equality of times is [Qeq], written
      [==].
    - A JavaScript string is its list of UTF-16 code units.
    - A [useState] cell and a [useRef] cell are both fields of the record
      [Hook]; a functional update [setX(prev => f prev)] applies [f] to the
      field.  A callback made by [useCallback] reads a state variable as the
      constant of the render that created it: that constant is a parameter
      of the callback ([rendered]), not the cell.
    - Every browser object (audio context, media stream, timer, session,
      buffer source) is a handle drawn from an allocation counter; the calls
      made on those objects are appended, in program order, to the field
      [effects].
    - Handlers are computations in the monad [Eff]: they thread the [Hook]
      and either return or throw.  A state change made before a [throw]
      survives it, as in JavaScript.
    - A callback runs to completion before the next one starts.  [connect]
      is an async function: a call runs up to its first [await] and is
      suspended there; when the awaited promise settles the call continues to
      its next [await] or to its end.  Each of those stretches is one run of
      [connect_from]; anything may happen between two of them. *)

From Stdlib Require Import List String Ascii Bool ZArith NArith QArith Qminmax Lia Lqa.
From Stdlib Require Import Qround Qabs Qpower Qreduction.
Import ListNotations.

Local Open Scope Q_scope.

(** ** JavaScript numbers

    The doubles are the rationals [m * 2^e] with [|m| <= 2^53] and
    [-1074 <= e].  NaN and the infinities are not rationals: a sum beyond
    the largest double (about 1.8e308) is rounded to 53 bits like any other,
    where the language gives Infinity. *)

(** The integer nearest to [x], the even one of the two when [x] is halfway
    between them. *)
Definition round_half_even (x : Q) : Z :=
  let f := Qfloor x in
  match Qcompare (x - inject_Z f) (1 # 2) with
  | Lt => f
  | Gt => (f + 1)%Z
  | Eq => if Z.even f then f else (f + 1)%Z
  end.

(** [floor (log2 |q|)] for [q] other than 0. *)
Definition binade (q : Q) : Z :=
  let k := (Z.log2 (Z.abs (Qnum q)) - Z.log2 (Zpos (Qden q)))%Z in
  if Qle_bool (2 ^ k) (Qabs q) then k else (k - 1)%Z.

(** The spacing of the doubles around [q]: 53 significant bits, and
    [2^-1074] for the subnormal numbers. *)
Definition quantum_exponent (q : Q) : Z := Z.max (binade q - 52) (-1074).

Definition quantum (q : Q) : Q := 2 ^ quantum_exponent q.

(** The multiple of the quantum nearest to [q], ties to the even
    multiple. *)
Definition rounded (q : Q) : Q :=
  inject_Z (round_half_even (q / quantum q)) * quantum q.

(** The double nearest to [q] (round to nearest, ties to even), in lowest
    terms. *)
Definition to_double (q : Q) : Q := Qred (rounded q).

(** [x + y] on numbers. *)
Definition number_add (x y : Q) : Q := to_double (x + y).

Definition is_double (q : Q) : Prop := to_double q == q.

(** ** JavaScript strings *)

Definition jsstring := list N.

Definition js (s : string) : jsstring :=
  map N_of_ascii (list_ascii_of_string s).

(** Truthiness of a string: only the empty string is falsy. *)
Definition truthy (s : jsstring) : bool :=
  match s with
  | [] => false
  | _ :: _ => true
  end.

(** [a || b] on strings, where [a] may be missing ([undefined]). *)
Definition or_else (a : option jsstring) (b : jsstring) : jsstring :=
  match a with
  | Some s => if truthy s then s else b
  | None => b
  end.

(** String concatenation with a possibly missing right operand:
    [s += undefined] appends the text "undefined". *)
Definition to_text (t : option jsstring) : jsstring :=
  match t with
  | Some s => s
  | None => js "undefined"
  end.

(** WhiteSpace and LineTerminator code points of ECMAScript, the characters
    [String.prototype.trim] strips. *)
Definition is_white_space (c : N) : bool :=
  (((9 <=? c) && (c <=? 13)) || (c =? 32) || (c =? 160) || (c =? 5760)
   || ((8192 <=? c) && (c <=? 8202)) || (c =? 8232) || (c =? 8233)
   || (c =? 8239) || (c =? 8287) || (c =? 12288) || (c =? 65279))%N.

Fixpoint trimStart (s : jsstring) : jsstring :=
  match s with
  | [] => []
  | c :: r => if is_white_space c then trimStart r else s
  end.

Definition trimEnd (s : jsstring) : jsstring := rev (trimStart (rev s)).

Definition trim (s : jsstring) : jsstring := trimEnd (trimStart s).

(** ** types.ts *)

Inductive ConnectionState : Type :=
| DISCONNECTED
| CONNECTING
| CONNECTED
| ERROR.

Inductive Role : Type :=
| user
| ai.

Record TranscriptItem : Type := MkItem {
  role : Role;
  text : jsstring;
  timestamp : Z
}.

(** ** Browser objects and the calls made on them *)

Definition handle := nat.

(** An [AudioBufferSourceNode] on which [start(when)] has been called, with
    the duration of its buffer. *)
Record SourceNode : Type := MkSource {
  src_id : handle;
  src_when : Q;
  src_duration : Q
}.

Inductive Effect : Type :=
| NewAudioContext (h : handle) (sampleRate : Z)
| CloseAudioContext (h : handle)
| CreateAnalyser (h : handle)
| SetInterval (h : handle)
| ClearInterval (h : handle)
| GetUserMedia (h : handle)
| StopTracks (h : handle)
| LiveConnect (h : handle)
| SessionClose (h : handle)
| CreateMediaStreamSource (h : handle)
| CreateScriptProcessor (h : handle)
| DisconnectNode (h : handle)
| SourceStart (h : handle) (when : Q) (duration : Q)
| SourceStop (h : handle).

(** The session promise: its handle and whether it has resolved
    ([true]) or rejected ([false]). *)
Record SessionPromise : Type := MkPromise {
  promise_id : handle;
  promise_resolved : bool
}.

(** ** The hook's cells *)

Record Hook : Type := MkHook {
  (* useState *)
  connectionState : ConnectionState;
  error : option jsstring;
  volume : Q;
  aiVolume : Q;
  transcript : list TranscriptItem;
  (* useRef *)
  inputAudioContextRef : option handle;
  outputAudioContextRef : option handle;
  mediaStreamRef : option handle;
  inputSourceRef : option handle;
  processorRef : option handle;
  outputAnalyzerRef : option handle;
  nextStartTimeRef : Q;
  scheduledSourcesRef : list SourceNode;
  sessionPromiseRef : option SessionPromise;
  aiVolumeIntervalRef : option handle;
  currentInputRef : jsstring;
  currentOutputRef : jsstring;
  (* the browser side: allocation counter and calls made so far *)
  nextHandle : handle;
  effects : list Effect
}.

Definition initial : Hook :=
  MkHook DISCONNECTED None 0 0 []
         None None None None None None 0 [] None None [] []
         O [].

(** Assignment to one cell; the others keep their value. *)

Definition setConnectionState (v : ConnectionState) (s : Hook) : Hook :=
  match s with
  | MkHook cs er vo av tr ic oc ms isr pr oa ns ss sp ti ci co nh ef =>
    MkHook v er vo av tr ic oc ms isr pr oa ns ss sp ti ci co nh ef
  end.

Definition setError (v : option jsstring) (s : Hook) : Hook :=
  match s with
  | MkHook cs er vo av tr ic oc ms isr pr oa ns ss sp ti ci co nh ef =>
    MkHook cs v vo av tr ic oc ms isr pr oa ns ss sp ti ci co nh ef
  end.

Definition setVolume (v : Q) (s : Hook) : Hook :=
  match s with
  | MkHook cs er vo av tr ic oc ms isr pr oa ns ss sp ti ci co nh ef =>
    MkHook cs er v av tr ic oc ms isr pr oa ns ss sp ti ci co nh ef
  end.

Definition setAiVolume (v : Q) (s : Hook) : Hook :=
  match s with
  | MkHook cs er vo av tr ic oc ms isr pr oa ns ss sp ti ci co nh ef =>
    MkHook cs er vo v tr ic oc ms isr pr oa ns ss sp ti ci co nh ef
  end.

Definition setTranscript (v : list TranscriptItem) (s : Hook) : Hook :=
  match s with
  | MkHook cs er vo av tr ic oc ms isr pr oa ns ss sp ti ci co nh ef =>
    MkHook cs er vo av v ic oc ms isr pr oa ns ss sp ti ci co nh ef
  end.

Definition set_inputAudioContextRef (v : option handle) (s : Hook) : Hook :=
  match s with
  | MkHook cs er vo av tr ic oc ms isr pr oa ns ss sp ti ci co nh ef =>
    MkHook cs er vo av tr v oc ms isr pr oa ns ss sp ti ci co nh ef
  end.

Definition set_outputAudioContextRef (v : option handle) (s : Hook) : Hook :=
  match s with
  | MkHook cs er vo av tr ic oc ms isr pr oa ns ss sp ti ci co nh ef =>
    MkHook cs er vo av tr ic v ms isr pr oa ns ss sp ti ci co nh ef
  end.

Definition set_mediaStreamRef (v : option handle) (s : Hook) : Hook :=
  match s with
  | MkHook cs er vo av tr ic oc ms isr pr oa ns ss sp ti ci co nh ef =>
    MkHook cs er vo av tr ic oc v isr pr oa ns ss sp ti ci co nh ef
  end.

Definition set_inputSourceRef (v : option handle) (s : Hook) : Hook :=
  match s with
  | MkHook cs er vo av tr ic oc ms isr pr oa ns ss sp ti ci co nh ef =>
    MkHook cs er vo av tr ic oc ms v pr oa ns ss sp ti ci co nh ef
  end.

Definition set_processorRef (v : option handle) (s : Hook) : Hook :=
  match s with
  | MkHook cs er vo av tr ic oc ms isr pr oa ns ss sp ti ci co nh ef =>
    MkHook cs er vo av tr ic oc ms isr v oa ns ss sp ti ci co nh ef
  end.

Definition set_outputAnalyzerRef (v : option handle) (s : Hook) : Hook :=
  match s with
  | MkHook cs er vo av tr ic oc ms isr pr oa ns ss sp ti ci co nh ef =>
    MkHook cs er vo av tr ic oc ms isr pr v ns ss sp ti ci co nh ef
  end.

Definition set_nextStartTimeRef (v : Q) (s : Hook) : Hook :=
  match s with
  | MkHook cs er vo av tr ic oc ms isr pr oa ns ss sp ti ci co nh ef =>
    MkHook cs er vo av tr ic oc ms isr pr oa v ss sp ti ci co nh ef
  end.

Definition set_scheduledSourcesRef (v : list SourceNode) (s : Hook) : Hook :=
  match s with
  | MkHook cs er vo av tr ic oc ms isr pr oa ns ss sp ti ci co nh ef =>
    MkHook cs er vo av tr ic oc ms isr pr oa ns v sp ti ci co nh ef
  end.

Definition set_sessionPromiseRef (v : option SessionPromise) (s : Hook) : Hook :=
  match s with
  | MkHook cs er vo av tr ic oc ms isr pr oa ns ss sp ti ci co nh ef =>
    MkHook cs er vo av tr ic oc ms isr pr oa ns ss v ti ci co nh ef
  end.

Definition set_aiVolumeIntervalRef (v : option handle) (s : Hook) : Hook :=
  match s with
  | MkHook cs er vo av tr ic oc ms isr pr oa ns ss sp ti ci co nh ef =>
    MkHook cs er vo av tr ic oc ms isr pr oa ns ss sp v ci co nh ef
  end.

Definition set_currentInputRef (v : jsstring) (s : Hook) : Hook :=
  match s with
  | MkHook cs er vo av tr ic oc ms isr pr oa ns ss sp ti ci co nh ef =>
    MkHook cs er vo av tr ic oc ms isr pr oa ns ss sp ti v co nh ef
  end.

Definition set_currentOutputRef (v : jsstring) (s : Hook) : Hook :=
  match s with
  | MkHook cs er vo av tr ic oc ms isr pr oa ns ss sp ti ci co nh ef =>
    MkHook cs er vo av tr ic oc ms isr pr oa ns ss sp ti ci v nh ef
  end.

Definition set_nextHandle (v : handle) (s : Hook) : Hook :=
  match s with
  | MkHook cs er vo av tr ic oc ms isr pr oa ns ss sp ti ci co nh ef =>
    MkHook cs er vo av tr ic oc ms isr pr oa ns ss sp ti ci co v ef
  end.

Definition set_effects (v : list Effect) (s : Hook) : Hook :=
  match s with
  | MkHook cs er vo av tr ic oc ms isr pr oa ns ss sp ti ci co nh ef =>
    MkHook cs er vo av tr ic oc ms isr pr oa ns ss sp ti ci co nh v
  end.

(** ** The monad of handlers *)

Inductive outcome (A : Type) : Type :=
| Returned (a : A)
| Thrown (message : jsstring).

Arguments Returned {A} a.
Arguments Thrown {A} message.

Definition Eff (A : Type) : Type := Hook -> outcome A * Hook.

Definition ret {A} (a : A) : Eff A := fun s => (Returned a, s).

Definition bind {A B} (c : Eff A) (k : A -> Eff B) : Eff B :=
  fun s =>
    match c s with
    | (Returned a, s') => k a s'
    | (Thrown e, s') => (Thrown e, s')
    end.

Definition throw {A} (e : jsstring) : Eff A := fun s => (Thrown e, s).

(** [try { body } catch (err) { handler err }] *)
Definition try_catch {A} (body : Eff A) (handler : jsstring -> Eff A) : Eff A :=
  fun s =>
    match body s with
    | (Returned a, s') => (Returned a, s')
    | (Thrown e, s') => handler e s'
    end.

Definition gets {A} (f : Hook -> A) : Eff A := fun s => (Returned (f s), s).

Definition modify (f : Hook -> Hook) : Eff unit := fun s => (Returned tt, f s).

(** A call on a browser object. *)
Definition emit (e : Effect) : Eff unit :=
  modify (fun s => set_effects (effects s ++ [e]) s).

(** Creation of a browser object. *)
Definition fresh : Eff handle :=
  fun s => (Returned (nextHandle s), set_nextHandle (S (nextHandle s)) s).

Declare Scope eff_scope.
Delimit Scope eff_scope with eff.

Notation "x <- c ;; k" := (bind c (fun x => k))
  (at level 100, c at next level, right associativity) : eff_scope.
Notation "c ;; k" := (bind c (fun _ => k))
  (at level 100, right associativity) : eff_scope.

Local Open Scope eff_scope.

(** [if (b) { c }] *)
Definition when (b : bool) (c : Eff unit) : Eff unit :=
  if b then c else ret tt.

(** [if (ref.current) { k ref.current }] *)
Definition when_some {A} (o : option A) (k : A -> Eff unit) : Eff unit :=
  match o with
  | Some a => k a
  | None => ret tt
  end.

(** [collection.forEach(f)] *)
Fixpoint forEach {A} (l : list A) (f : A -> Eff unit) : Eff unit :=
  match l with
  | [] => ret tt
  | a :: r => f a ;; forEach r f
  end.

(** The final state and the outcome of a handler run. *)
Definition exec {A} (c : Eff A) (s : Hook) : Hook := snd (c s).
Definition result {A} (c : Eff A) (s : Hook) : outcome A := fst (c s).

(** ** Constants of the hook *)

Definition INPUT_SAMPLE_RATE : Z := 16000.
Definition OUTPUT_SAMPLE_RATE : Z := 24000.

(** ** The live-units set: a JavaScript [Set] of source nodes

    Insertion-ordered, keyed by object identity (the handle). *)

Definition set_has (h : handle) (l : list SourceNode) : bool :=
  existsb (fun y => Nat.eqb (src_id y) h) l.

Definition set_add (x : SourceNode) (l : list SourceNode) : list SourceNode :=
  if set_has (src_id x) l then l else l ++ [x].

Definition set_delete (h : handle) (l : list SourceNode) : list SourceNode :=
  filter (fun y => negb (Nat.eqb (src_id y) h)) l.

(** [source.stop()]: the Web Audio contract raises only for a node on which
    [start] was never called; every [SourceNode] has been started. *)
Definition source_stop (source : SourceNode) : Eff unit :=
  emit (SourceStop (src_id source)).

(** ** disconnect *)

Definition disconnect : Eff unit :=
  timer <- gets aiVolumeIntervalRef ;;
  when_some timer (fun h =>
    emit (ClearInterval h) ;;
    modify (set_aiVolumeIntervalRef None)) ;;
  processor <- gets processorRef ;;
  when_some processor (fun h =>
    emit (DisconnectNode h) ;;
    modify (set_processorRef None)) ;;
  inputSource <- gets inputSourceRef ;;
  when_some inputSource (fun h =>
    emit (DisconnectNode h) ;;
    modify (set_inputSourceRef None)) ;;
  inputCtx <- gets inputAudioContextRef ;;
  when_some inputCtx (fun h =>
    emit (CloseAudioContext h) ;;
    modify (set_inputAudioContextRef None)) ;;
  sources <- gets scheduledSourcesRef ;;
  forEach sources (fun source =>
    try_catch (source_stop source) (fun _ => ret tt)) ;;
  modify (set_scheduledSourcesRef []) ;;
  modify (set_nextStartTimeRef 0) ;;
  outputCtx <- gets outputAudioContextRef ;;
  when_some outputCtx (fun h =>
    emit (CloseAudioContext h) ;;
    modify (set_outputAudioContextRef None)) ;;
  stream <- gets mediaStreamRef ;;
  when_some stream (fun h =>
    emit (StopTracks h) ;;
    modify (set_mediaStreamRef None)) ;;
  promise <- gets sessionPromiseRef ;;
  when_some promise (fun p =>
    when (promise_resolved p) (emit (SessionClose (promise_id p))) ;;
    modify (set_sessionPromiseRef None)) ;;
  modify (setConnectionState DISCONNECTED) ;;
  modify (setVolume 0) ;;
  modify (setAiVolume 0).

(** ** connect *)

(** The [await]s of [connect]: where a call can be suspended. *)
Inductive Suspended : Type :=
| AwaitResumeInput
| AwaitResumeOutput
| AwaitGetUserMedia
| AwaitSession.

(** What one [connect] call reads from its environment: the credential,
    the [state] of the audio context in the input and in the output cell
    when it is tested, and how each awaited promise settles. *)
Record ConnectEnv : Type := MkConnectEnv {
  API_KEY : option jsstring;
  inputSuspended : bool;
  resumeInput : outcome unit;
  outputSuspended : bool;
  resumeOutput : outcome unit;
  getUserMedia : outcome unit;
  liveConnect : outcome unit
}.

Definition is_returned {A} (o : outcome A) : bool :=
  match o with
  | Returned _ => true
  | Thrown _ => false
  end.

(** [await p], once [p] has settled: returns when [p] resolved, throws its
    reason when rejected. *)
Definition await {A} (p : outcome A) : Eff A :=
  match p with
  | Returned a => ret a
  | Thrown e => throw e
  end.

(** The promise a call suspended at [point] waits for. *)
Definition awaited (point : Suspended) (env : ConnectEnv) : outcome unit :=
  match point with
  | AwaitResumeInput => resumeInput env
  | AwaitResumeOutput => resumeOutput env
  | AwaitGetUserMedia => getUserMedia env
  | AwaitSession => liveConnect env
  end.

(** The message of the TypeError raised by [ref.current.state] when the
    cell holds null (the wording is the engine's; this is V8's). *)
Definition null_state_error : jsstring :=
  js "Cannot read properties of null (reading 'state')".

(** [ref.current.state === 'suspended'] *)
Definition context_suspended (cell : Hook -> option handle) (suspended : bool)
  : Eff bool :=
  ctx <- gets cell ;;
  match ctx with
  | Some _ => ret suspended
  | None => throw null_state_error
  end.

(** From the [try] to the polling timer.  The system instruction built
    from the configuration is passed to the session and touches no cell; it
    is left out. *)
Definition connect_setup (env : ConnectEnv) : Eff unit :=
  modify (setConnectionState CONNECTING) ;;
  modify (setError None) ;;
  modify (setTranscript []) ;;
  modify (set_currentInputRef []) ;;
  modify (set_currentOutputRef []) ;;
  when (negb (truthy (or_else (API_KEY env) [])))
    (throw (js "API Key not found in environment.")) ;;
  inputCtx <- fresh ;;
  emit (NewAudioContext inputCtx INPUT_SAMPLE_RATE) ;;
  modify (set_inputAudioContextRef (Some inputCtx)) ;;
  outputCtx <- fresh ;;
  emit (NewAudioContext outputCtx OUTPUT_SAMPLE_RATE) ;;
  modify (set_outputAudioContextRef (Some outputCtx)) ;;
  analyzer <- fresh ;;
  emit (CreateAnalyser analyzer) ;;
  modify (set_outputAnalyzerRef (Some analyzer)) ;;
  timer <- fresh ;;
  emit (SetInterval timer) ;;
  modify (set_aiVolumeIntervalRef (Some timer)).

(** The test of the output context, and the [getUserMedia] request. *)
Definition resume_output_or_request_media (env : ConnectEnv) : Eff (option Suspended) :=
  suspended <- context_suspended outputAudioContextRef (outputSuspended env) ;;
  if suspended then ret (Some AwaitResumeOutput) else ret (Some AwaitGetUserMedia).

(** The test of the input context, and what follows it. *)
Definition resume_input_or_go_on (env : ConnectEnv) : Eff (option Suspended) :=
  suspended <- context_suspended inputAudioContextRef (inputSuspended env) ;;
  if suspended then ret (Some AwaitResumeInput) else resume_output_or_request_media env.

(** From the granted stream to the [await] of the session promise.  The
    stream object exists from here on, and so its acquisition is logged
    here. *)
Definition open_session (env : ConnectEnv) : Eff (option Suspended) :=
  stream <- fresh ;;
  emit (GetUserMedia stream) ;;
  modify (set_mediaStreamRef (Some stream)) ;;
  session <- fresh ;;
  emit (LiveConnect session) ;;
  modify (set_sessionPromiseRef
            (Some (MkPromise session (is_returned (liveConnect env))))) ;;
  ret (Some AwaitSession).

(** The [try] block of [connect], from the point [from] (the start of the
    block, or the [await] the call was suspended at) to the next [await]
    ([Some]) or to the end of the block ([None]). *)
Definition connect_try (from : option Suspended) (env : ConnectEnv)
  : Eff (option Suspended) :=
  match from with
  | None => connect_setup env ;; resume_input_or_go_on env
  | Some point =>
      await (awaited point env) ;;
      match point with
      | AwaitResumeInput => resume_output_or_request_media env
      | AwaitResumeOutput => ret (Some AwaitGetUserMedia)
      | AwaitGetUserMedia => open_session env
      | AwaitSession => ret None
      end
  end.

(** The [catch] block of [connect]. *)
Definition connect_catch (message : jsstring) : Eff unit :=
  modify (setError
            (Some (or_else (Some message) (js "Failed to connect to Gemini Live API")))) ;;
  modify (setConnectionState ERROR) ;;
  stream <- gets mediaStreamRef ;;
  when_some stream (fun h => emit (StopTracks h)).

(** One stretch of the body of [connect]. *)
Definition connect_from (from : option Suspended) (env : ConnectEnv)
  : Eff (option Suspended) :=
  try_catch (connect_try from env) (fun message => connect_catch message ;; ret None).

(** A call of [connect], up to its first [await].  [rendered] is the
    [connectionState] of the render that created the callback. *)
Definition connect (rendered : ConnectionState) (env : ConnectEnv)
  : Eff (option Suspended) :=
  match rendered with
  | CONNECTED | CONNECTING => ret None
  | DISCONNECTED | ERROR => connect_from None env
  end.

(** The continuation of a suspended call, once the promise it waits for has
    settled. *)
Definition connect_resume (point : Suspended) (env : ConnectEnv)
  : Eff (option Suspended) :=
  connect_from (Some point) env.

(** A call that nothing interleaves with: every promise it awaits has
    settled by the time the call reaches it.  There are four [await]s, so
    four continuations at most. *)
Definition resume_if (k : option Suspended) (env : ConnectEnv) : Eff (option Suspended) :=
  match k with
  | Some point => connect_resume point env
  | None => ret None
  end.

Definition connect_uninterrupted (rendered : ConnectionState) (env : ConnectEnv)
  : Eff (option Suspended) :=
  k <- connect rendered env ;;
  k <- resume_if k env ;;
  k <- resume_if k env ;;
  k <- resume_if k env ;;
  resume_if k env.

(** ** Session callbacks *)

Definition onopen : Eff unit :=
  modify (setConnectionState CONNECTED) ;;
  inputCtx <- gets inputAudioContextRef ;;
  stream <- gets mediaStreamRef ;;
  match inputCtx, stream with
  | Some _, Some _ =>
      source <- fresh ;;
      emit (CreateMediaStreamSource source) ;;
      modify (set_inputSourceRef (Some source)) ;;
      processor <- fresh ;;
      emit (CreateScriptProcessor processor) ;;
      modify (set_processorRef (Some processor))
  | _, _ => ret tt
  end.

(** [setConnectionState(prev => ...)] of [onclose]. *)
Definition close_update (prev : ConnectionState) : ConnectionState :=
  match prev with
  | CONNECTED | CONNECTING => DISCONNECTED
  | _ => prev
  end.

Definition onclose : Eff unit :=
  modify (fun s => setConnectionState (close_update (connectionState s)) s).

(** [err.message] may be missing. *)
Definition onerror (err_message : option jsstring) : Eff unit :=
  modify (setError (Some (or_else err_message (js "Connection error occurred")))) ;;
  modify (setConnectionState ERROR).

(** [source.onended], fired by the browser for the node [h]. *)
Definition onended (h : handle) : Eff unit :=
  modify (fun s => set_scheduledSourcesRef (set_delete h (scheduledSourcesRef s)) s).

(** ** onmessage *)

(** The fields of [message.serverContent] the handler reads;
    [inlineData] is [modelTurn?.parts?.[0]?.inlineData?.data]. *)
Record LiveServerMessage : Type := MkMessage {
  inlineData : option jsstring;
  interrupted : bool;
  inputTranscription : option (option jsstring);
  outputTranscription : option (option jsstring);
  turnComplete : bool
}.

(** The readings one run of the handler takes from its environment:
    [ctx.currentTime] and the two [Date.now()] call sites. *)
Record MessageEnv : Type := MkMessageEnv {
  currentTime : Q;
  dateNowUser : Z;
  dateNowAi : Z
}.

Section Session.

(** [decodeAudioData(decode(base64Audio), ctx, OUTPUT_SAMPLE_RATE, 1)] of
    utils/audio: the duration in seconds of the decoded buffer, or [None]
    when decoding throws. *)
Variable decodeAudioData : jsstring -> option Q.

(** The body of the [try] block of the audio part. *)
Definition schedule_chunk (base64Audio : jsstring) : Eff unit :=
  duration <- match decodeAudioData base64Audio with
              | Some d => ret d
              | None => throw (js "decode")
              end ;;
  source <- fresh ;;
  startAt <- gets nextStartTimeRef ;;
  emit (SourceStart source startAt duration) ;;
  modify (fun s =>
    set_scheduledSourcesRef
      (set_add (MkSource source startAt duration) (scheduledSourcesRef s)) s) ;;
  modify (fun s => set_nextStartTimeRef (number_add (nextStartTimeRef s) duration) s).

Definition handle_audio (env : MessageEnv) (message : LiveServerMessage) : Eff unit :=
  ctx <- gets outputAudioContextRef ;;
  match inlineData message, ctx with
  | Some base64Audio, Some _ =>
      when (truthy base64Audio)
        (modify (fun s =>
           set_nextStartTimeRef (Qmax (nextStartTimeRef s) (currentTime env)) s) ;;
         try_catch (schedule_chunk base64Audio) (fun _ => ret tt))
  | _, _ => ret tt
  end.

Definition handle_interruption (message : LiveServerMessage) : Eff unit :=
  when (interrupted message)
    (sources <- gets scheduledSourcesRef ;;
     forEach sources source_stop ;;
     modify (set_scheduledSourcesRef []) ;;
     modify (set_nextStartTimeRef 0)).

Definition handle_transcription (message : LiveServerMessage) : Eff unit :=
  when_some (inputTranscription message) (fun t =>
    modify (fun s => set_currentInputRef (currentInputRef s ++ to_text t) s)) ;;
  when_some (outputTranscription message) (fun t =>
    modify (fun s => set_currentOutputRef (currentOutputRef s ++ to_text t) s)).

(** The items one turn-complete appends to the log. *)
Definition committed_items (env : MessageEnv) (userText aiText : jsstring)
  : list TranscriptItem :=
  (if truthy userText then [MkItem user userText (dateNowUser env)] else [])
  ++ (if truthy aiText then [MkItem ai aiText (dateNowAi env)] else []).

Definition handle_turn_complete (env : MessageEnv) (message : LiveServerMessage)
  : Eff unit :=
  when (turnComplete message)
    (userText <- gets (fun s => trim (currentInputRef s)) ;;
     aiText <- gets (fun s => trim (currentOutputRef s)) ;;
     when (truthy userText || truthy aiText)
       (modify (fun s =>
          setTranscript (transcript s ++ committed_items env userText aiText) s)) ;;
     modify (set_currentInputRef []) ;;
     modify (set_currentOutputRef [])).

Definition onmessage (env : MessageEnv) (message : LiveServerMessage) : Eff unit :=
  handle_audio env message ;;
  handle_interruption message ;;
  handle_transcription message ;;
  handle_turn_complete env message.

(** A run of the handler over a sequence of inbound messages, each with the
    readings it takes. *)
Fixpoint onmessages (inbound : list (MessageEnv * LiveServerMessage)) : Eff unit :=
  match inbound with
  | [] => ret tt
  | (env, message) :: rest => onmessage env message ;; onmessages rest
  end.

End Session.

(** ** The earlier revision of the hook

    Its [onclose] reads the [connectionState] variable of the render in
    which [connect] was called, not the current cell. *)
Module Legacy.

Definition onclose (connectionState_of_render : ConnectionState) : Eff unit :=
  match connectionState_of_render with
  | CONNECTED => modify (setConnectionState DISCONNECTED)
  | _ => ret tt
  end.

(** The [onclose] callback a [connect] call hands to the session, when the
    call gets past its guard. *)
Definition installed_onclose (s : Hook) : option (Eff unit) :=
  match connectionState s with
  | CONNECTED | CONNECTING => None
  | DISCONNECTED | ERROR => Some (onclose (connectionState s))
  end.

End Legacy.

(** * Vocabulary of the properties *)

(** The [stop()] calls made on the nodes of a live-units set, in
    iteration order. *)
Definition stop_calls (l : list SourceNode) : list Effect :=
  map (fun source => SourceStop (src_id source)) l.

(** The calls [disconnect] makes from a state: every cell that holds a
    handle is released, every live unit is stopped. *)
Definition release (make : handle -> Effect) (cell : option handle) : list Effect :=
  match cell with
  | Some h => [make h]
  | None => []
  end.

Definition release_session (cell : option SessionPromise) : list Effect :=
  match cell with
  | Some p => if promise_resolved p then [SessionClose (promise_id p)] else []
  | None => []
  end.

Definition disconnect_calls (s : Hook) : list Effect :=
  release ClearInterval (aiVolumeIntervalRef s)
  ++ release DisconnectNode (processorRef s)
  ++ release DisconnectNode (inputSourceRef s)
  ++ release CloseAudioContext (inputAudioContextRef s)
  ++ stop_calls (scheduledSourcesRef s)
  ++ release CloseAudioContext (outputAudioContextRef s)
  ++ release StopTracks (mediaStreamRef s)
  ++ release_session (sessionPromiseRef s).

(** The calls a handler run adds to the log. *)
Definition calls_of {A} (c : Eff A) (s : Hook) : list Effect :=
  skipn (List.length (effects s)) (effects (exec c s)).

(** Whether the device handle acquired by the call [e] is released by some
    call of the log [es]: an audio context by [close()], a timer by
    [clearInterval], a media stream by stopping its tracks. *)
Definition released_by (es : list Effect) (e : Effect) : bool :=
  match e with
  | NewAudioContext h _ =>
      existsb (fun e' => match e' with CloseAudioContext h' => Nat.eqb h h' | _ => false end) es
  | SetInterval h =>
      existsb (fun e' => match e' with ClearInterval h' => Nat.eqb h h' | _ => false end) es
  | GetUserMedia h =>
      existsb (fun e' => match e' with StopTracks h' => Nat.eqb h h' | _ => false end) es
  | _ => true
  end.

(** Every device handle acquired in the log is released in it. *)
Definition all_released (es : list Effect) : bool := forallb (released_by es) es.

(** A [connect] environment in which the user denies camera and
    microphone access. *)
Definition permission_denied : ConnectEnv :=
  MkConnectEnv (Some (js "key")) false (Returned tt) false (Returned tt)
               (Thrown (js "Permission denied")) (Returned tt).

(** A [connect] environment in which everything succeeds, the audio
    contexts running from the start. *)
Definition all_granted : ConnectEnv :=
  MkConnectEnv (Some (js "key")) false (Returned tt) false (Returned tt)
               (Returned tt) (Returned tt).

(** A [connect] environment in which the session is refused after the
    devices were granted. *)
Definition session_refused : ConnectEnv :=
  MkConnectEnv (Some (js "key")) false (Returned tt) false (Returned tt)
               (Returned tt) (Thrown (js "refused")).

(** The text a message appends to an accumulator: nothing when the message
    carries no fragment for it. *)
Definition fragment (t : option (option jsstring)) : jsstring :=
  match t with
  | Some f => to_text f
  | None => []
  end.

(** A decoder for the examples: a payload starting with "A" decodes to a
    buffer of 1.0 s, one starting with "B" to a buffer of 0.5 s, any other
    payload is malformed. *)
Definition sample_decoder (payload : jsstring) : option Q :=
  match payload with
  | 65%N :: _ => Some 1
  | 66%N :: _ => Some (1 # 2)
  | _ => None
  end.

(** The duration of the audio chunk a message brings to the scheduler: the
    message carries a non-empty payload that decodes, and no interrupted
    flag. *)
Definition chunk_duration (decodeAudioData : jsstring -> option Q)
  (m : LiveServerMessage) : option Q :=
  match inlineData m with
  | Some payload =>
      if truthy payload && negb (interrupted m) then decodeAudioData payload else None
  | None => None
  end.

(** The [start] calls of a log, as (start time, duration) pairs in call
    order. *)
Definition started (es : list Effect) : list (Q * Q) :=
  flat_map (fun e => match e with
                     | SourceStart _ t d => [(t, d)]
                     | _ => []
                     end) es.

(** The [start] calls the handler makes for chunks arriving at the clock
    readings and with the durations [arrivals], from the cursor value
    [cursor] and the next free handle [h]. *)
Fixpoint chunk_calls (h : handle) (cursor : Q) (arrivals : list (Q * Q)) : list Effect :=
  match arrivals with
  | [] => []
  | (now, d) :: rest =>
      SourceStart h (Qmax cursor now) d
      :: chunk_calls (S h) (number_add (Qmax cursor now) d) rest
  end.

(** The message [m] without its audio chunk. *)
Definition without_audio (m : LiveServerMessage) : LiveServerMessage :=
  MkMessage None (interrupted m) (inputTranscription m) (outputTranscription m)
            (turnComplete m).

(** [inbound] is a sequence of messages that each bring a chunk, read at
    the clock values and with the durations [arrivals]. *)
Definition chunks_arriving (decodeAudioData : jsstring -> option Q)
  (inbound : list (MessageEnv * LiveServerMessage))
  (arrivals : list (Q * Q)) : Prop :=
  Forall2 (fun em a => currentTime (fst em) = fst a
                       /\ chunk_duration decodeAudioData (snd em) = Some (snd a))
          inbound arrivals.

(** States and messages for the examples. *)

(** The hook after a successful [connect] from the first render, the open
    callback firing before the session promise resolves. *)
Definition connected : Hook :=
  exec (connect_resume AwaitSession all_granted)
    (exec onopen
       (exec (connect_resume AwaitGetUserMedia all_granted)
          (exec (connect DISCONNECTED all_granted) initial))).

Definition at_clock (now : Q) : MessageEnv := MkMessageEnv now 1700000000000 1700000000001.

(** A message that carries only an audio payload. *)
Definition audio_message (payload : string) : LiveServerMessage :=
  MkMessage (Some (js payload)) false None None false.

(** A message that carries only the interrupted flag. *)
Definition interrupt_message : LiveServerMessage :=
  MkMessage None true None None false.

(** A message that carries an audio payload and the interrupted flag. *)
Definition audio_interrupt_message (payload : string) : LiveServerMessage :=
  MkMessage (Some (js payload)) true None None false.

(** A message that carries a remote transcription fragment and the
    turn-complete flag. *)
Definition final_fragment (fragment_text : string) : LiveServerMessage :=
  MkMessage None false None (Some (Some (js fragment_text))) true.

(** The hook with one unit of 1.0 s scheduled at clock 0.25. *)
Definition playing : Hook :=
  exec (onmessage sample_decoder (at_clock (1 # 4)) (audio_message "AAAA")) connected.

(** * The hook as a reactive system *)

(** The callbacks the session and the browser fire on the hook. *)
Inductive Callback : Type :=
| OnOpen
| OnClose
| OnError (err_message : option jsstring)
| OnMessage (env : MessageEnv) (message : LiveServerMessage)
| OnEnded (h : handle).

Definition fire (decodeAudioData : jsstring -> option Q) (c : Callback) : Eff unit :=
  match c with
  | OnOpen => onopen
  | OnClose => onclose
  | OnError err_message => onerror err_message
  | OnMessage env message => onmessage decodeAudioData env message
  | OnEnded h => onended h
  end.

(** What can happen to the hook: a call of [connect] through the callback
    of some render, the continuation of a suspended [connect] call, a call of
    [disconnect], or a callback.  Every run of the hook is a sequence of
    these; a sequence in which a continuation has no call before it is not a
    run, and is covered all the same by what holds of every sequence. *)
Inductive Operation : Type :=
| Connect (rendered : ConnectionState) (env : ConnectEnv)
| Resume (point : Suspended) (env : ConnectEnv)
| Disconnect
| Fire (c : Callback).

Definition perform (decodeAudioData : jsstring -> option Q) (o : Operation) : Eff unit :=
  match o with
  | Connect rendered env => connect rendered env ;; ret tt
  | Resume point env => connect_resume point env ;; ret tt
  | Disconnect => disconnect
  | Fire c => fire decodeAudioData c
  end.

Fixpoint perform_all (decodeAudioData : jsstring -> option Q) (ops : list Operation)
  : Eff unit :=
  match ops with
  | [] => ret tt
  | o :: rest => perform decodeAudioData o ;; perform_all decodeAudioData rest
  end.

(** A call that acquires a device handle. *)
Definition acquires (e : Effect) : bool :=
  match e with
  | NewAudioContext _ _ | SetInterval _ | GetUserMedia _ => true
  | _ => false
  end.

(** Two calls that are the same up to equality of rationals in a start
    time. *)
Definition same_call (e e' : Effect) : Prop :=
  match e, e' with
  | SourceStart h t d, SourceStart h' t' d' => h = h' /\ t == t' /\ d = d'
  | _, _ => e = e'
  end.

(** The nodes a log calls [stop] on, in call order. *)
Definition stopped (es : list Effect) : list handle :=
  flat_map (fun e => match e with
                     | SourceStop h => [h]
                     | _ => []
                     end) es.

(** A call on a buffer source node. *)
Definition playback_call (e : Effect) : bool :=
  match e with
  | SourceStart _ _ _ | SourceStop _ => true
  | _ => false
  end.

(** The bookkeeping of the live-units set [live] against the log [es] and
    the allocation counter [next]: the units are distinct nodes, each started
    (with the time and duration recorded for it) and not stopped; only
    started nodes were ever stopped, none of them twice; and every started
    node is an allocated one. *)
Definition live_ok (live : list SourceNode) (es : list Effect) (next : handle) : Prop :=
  NoDup (map src_id live)
  /\ (forall u, In u live ->
        In (SourceStart (src_id u) (src_when u) (src_duration u)) es
        /\ ~ In (SourceStop (src_id u)) es)
  /\ (forall h, In (SourceStop h) es -> exists t d, In (SourceStart h t d) es)
  /\ NoDup (stopped es)
  /\ (forall h t d, In (SourceStart h t d) es -> (h < next)%nat).

Definition hook_live_ok (s : Hook) : Prop :=
  live_ok (scheduledSourcesRef s) (effects s) (nextHandle s).

(** The input and output fragments a sequence of messages brings, joined in
    arrival order. *)
Definition input_fragments (inbound : list (MessageEnv * LiveServerMessage)) : jsstring :=
  List.concat (map (fun em => fragment (inputTranscription (snd em))) inbound).

Definition output_fragments (inbound : list (MessageEnv * LiveServerMessage)) : jsstring :=
  List.concat (map (fun em => fragment (outputTranscription (snd em))) inbound).

(** A message that carries only a user transcription fragment. *)
Definition user_fragment (fragment_text : string) : LiveServerMessage :=
  MkMessage None false (Some (Some (js fragment_text))) None false.

(** A message that carries only the turn-complete flag. *)
Definition turn_complete_message : LiveServerMessage :=
  MkMessage None false None None true.

(** The node [h] is out of the scheduler's hands: allocated, not in the
    live-units set, and never stopped. *)
Definition retired (h : handle) (s : Hook) : Prop :=
  (h < nextHandle s)%nat
  /\ ~ In (SourceStop h) (effects s)
  /\ (forall u, In u (scheduledSourcesRef s) -> src_id u <> h).

(** A call that releases the device handle [h]. *)
Definition releases (h : handle) (e : Effect) : Prop :=
  e = CloseAudioContext h \/ e = ClearInterval h \/ e = StopTracks h.

(** The device handle [h] is orphaned: allocated, held in no device cell,
    and not released by any call so far. *)
Definition orphaned (h : handle) (s : Hook) : Prop :=
  (h < nextHandle s)%nat
  /\ inputAudioContextRef s <> Some h
  /\ outputAudioContextRef s <> Some h
  /\ aiVolumeIntervalRef s <> Some h
  /\ mediaStreamRef s <> Some h
  /\ (forall e, In e (effects s) -> ~ releases h e).

(** The hook after a [connect] from the first render that failed on the
    device permission. *)
Definition denied : Hook :=
  exec (connect_resume AwaitGetUserMedia permission_denied)
    (exec (connect DISCONNECTED permission_denied) initial).

(** The hook while a [connect] call from the first render waits for a
    session that will be refused. *)
Definition awaiting_refusal : Hook :=
  exec (connect_resume AwaitGetUserMedia session_refused)
    (exec (connect DISCONNECTED session_refused) initial).

(** A [connect] environment without a credential. *)
Definition no_key : ConnectEnv :=
  MkConnectEnv None false (Returned tt) false (Returned tt) (Returned tt) (Returned tt).

(** The operations that bring the hook to a state with one unit playing. *)
Definition start_playing : list Operation :=
  [Connect DISCONNECTED all_granted; Resume AwaitGetUserMedia all_granted;
   Fire OnOpen; Resume AwaitSession all_granted;
   Fire (OnMessage (at_clock (1 # 4)) (audio_message "AAAA"))].



(** The device handle acquired by the call [e] is held in the cell that
    [disconnect] releases it from. *)
Definition held (s : Hook) (e : Effect) : Prop :=
  match e with
  | NewAudioContext h _ =>
      inputAudioContextRef s = Some h \/ outputAudioContextRef s = Some h
  | SetInterval h => aiVolumeIntervalRef s = Some h
  | GetUserMedia h => mediaStreamRef s = Some h
  | _ => False
  end.

(** Every device handle acquired so far is released or still held. *)
Definition accounted (s : Hook) : Prop :=
  forall e, In e (effects s) -> released_by (effects s) e = true \/ held s e.

(** The cell [cell] holds, after an operation, a handle the operation
    allocated. *)
Definition fresh_in (s s' : Hook) (cell : Hook -> option handle) : Prop :=
  exists h, cell s' = Some h /\ (nextHandle s <= h < nextHandle s')%nat.

(** What one stretch of [connect] does to the hook, from [s] to [s']: it
    leaves the scheduler alone; a device cell is as before, or holds a
    handle just allocated (the context and timer cells only when
    [new_contexts], the stream cell only when [new_stream]); it makes no
    call on a buffer source; what it acquires it holds; and it releases
    nothing but the stream in the stream cell. *)
Definition connect_step (new_contexts new_stream : Prop) (s s' : Hook) : Prop :=
  scheduledSourcesRef s' = scheduledSourcesRef s
  /\ nextStartTimeRef s' = nextStartTimeRef s
  /\ (nextHandle s <= nextHandle s')%nat
  /\ (inputAudioContextRef s' = inputAudioContextRef s
      \/ (new_contexts /\ fresh_in s s' inputAudioContextRef))
  /\ (outputAudioContextRef s' = outputAudioContextRef s
      \/ (new_contexts /\ fresh_in s s' outputAudioContextRef))
  /\ (aiVolumeIntervalRef s' = aiVolumeIntervalRef s
      \/ (new_contexts /\ fresh_in s s' aiVolumeIntervalRef))
  /\ (mediaStreamRef s' = mediaStreamRef s
      \/ (new_stream /\ fresh_in s s' mediaStreamRef))
  /\ exists calls,
      effects s' = effects s ++ calls
      /\ Forall (fun e => playback_call e = false) calls
      /\ (forall e, In e calls -> acquires e = true -> held s' e)
      /\ (forall h e, In e calls -> releases h e -> mediaStreamRef s' = Some h).

Definition is_none {A} (o : option A) : bool :=
  match o with
  | None => true
  | Some _ => false
  end.

(** An operation that overwrites no device cell that holds a handle: a
    [connect] call that gets to create its contexts and timer finds their
    cells empty, and a granted stream finds the stream cell empty. *)
Definition overwrites_nothing (o : Operation) (s : Hook) : bool :=
  match o with
  | Connect (DISCONNECTED | ERROR) env =>
      negb (truthy (or_else (API_KEY env) []))
      || (is_none (inputAudioContextRef s) && is_none (outputAudioContextRef s)
          && is_none (aiVolumeIntervalRef s))
  | Resume AwaitGetUserMedia env =>
      negb (is_returned (getUserMedia env)) || is_none (mediaStreamRef s)
  | _ => true
  end.

(** A run from [s] none of whose operations overwrites a held handle. *)
Fixpoint orderly (decodeAudioData : jsstring -> option Q) (ops : list Operation)
  (s : Hook) : bool :=
  match ops with
  | [] => true
  | o :: rest =>
      overwrites_nothing o s
      && orderly decodeAudioData rest (exec (perform decodeAudioData o) s)
  end.

(** A run in which [disconnect] is called while [connect] waits for the
    permission prompt: the stream is granted afterwards and the session
    opens. *)
Definition abandoned_prompt : list Operation :=
  [Connect DISCONNECTED all_granted; Disconnect;
   Resume AwaitGetUserMedia all_granted; Fire OnOpen;
   Resume AwaitSession all_granted].

(** A [connect] environment in which both audio contexts start suspended
    and resume, and everything else succeeds. *)
Definition suspended_contexts : ConnectEnv :=
  MkConnectEnv (Some (js "key")) true (Returned tt) true (Returned tt)
               (Returned tt) (Returned tt).

(** The clock of the output context after 256 sample frames at 24 kHz. *)
Definition clock_256_frames : Q := to_double (256 # 24000).

(** * sendVideoFrame

    The realtime-input messages one call hands to the session: the session
    handle, the mime type and the data.  [rendered] is the [connectionState]
    of the render that created the callback; the session cell is read when
    the call is made.  The [then] callback runs only for a session promise
    that resolved. *)
Definition sendVideoFrame (rendered : ConnectionState) (base64Image : jsstring) (s : Hook)
  : list (handle * jsstring * jsstring) :=
  match rendered, sessionPromiseRef s with
  | CONNECTED, Some promise =>
      if promise_resolved promise
      then [(promise_id promise, js "image/jpeg", base64Image)]
      else []
  | _, _ => []
  end.

(** * components/InterviewSession: formatDuration *)

(** [n.toString()] for a non-negative integer: its decimal digits. *)
Fixpoint digit_units (d : Decimal.uint) : jsstring :=
  match d with
  | Decimal.Nil => []
  | Decimal.D0 r => 48%N :: digit_units r
  | Decimal.D1 r => 49%N :: digit_units r
  | Decimal.D2 r => 50%N :: digit_units r
  | Decimal.D3 r => 51%N :: digit_units r
  | Decimal.D4 r => 52%N :: digit_units r
  | Decimal.D5 r => 53%N :: digit_units r
  | Decimal.D6 r => 54%N :: digit_units r
  | Decimal.D7 r => 55%N :: digit_units r
  | Decimal.D8 r => 56%N :: digit_units r
  | Decimal.D9 r => 57%N :: digit_units r
  end.

Definition toString (n : N) : jsstring := digit_units (N.to_uint n).

(** [s.padStart(targetLength, fill)] for a one-character [fill]. *)
Definition padStart (targetLength : nat) (fill : N) (s : jsstring) : jsstring :=
  repeat fill (targetLength - List.length s) ++ s.

Definition formatDuration (seconds : N) : jsstring :=
  let mins := (seconds / 60)%N in
  let secs := (seconds mod 60)%N in
  padStart 2 48%N (toString mins) ++ js ":" ++ padStart 2 48%N (toString secs).

(** The two decimal digits of a number below 100. *)
Definition two_digits (n : N) : jsstring := [(48 + n / 10)%N; (48 + n mod 10)%N].

(** * utils/feedback: generateFeedback *)

Record InterviewConfig : Type := MkConfig {
  targetRole : jsstring;
  experienceLevel : jsstring;
  companyType : jsstring
}.

Record FeedbackAnalysis : Type := MkFeedback {
  score : Z;
  summary : jsstring;
  strengths : list jsstring;
  improvements : list jsstring
}.

(** [role.toUpperCase()] *)
Definition role_upper (r : Role) : jsstring :=
  match r with
  | user => js "USER"
  | ai => js "AI"
  end.

(** [lines.join(separator)] *)
Definition join (separator : jsstring) (lines : list jsstring) : jsstring :=
  match lines with
  | [] => []
  | first :: rest => first ++ flat_map (fun line => separator ++ line) rest
  end.

Definition conversationText (transcript : list TranscriptItem) : jsstring :=
  join [10%N] (map (fun t => role_upper (role t) ++ js ": " ++ text t) transcript).

Definition feedback_prompt (config : InterviewConfig) (transcript : list TranscriptItem)
  : jsstring :=
  js "
    You are an expert technical interviewer and hiring manager.
    Evaluate the following interview for a candidate applying for:
    Role: " ++ targetRole config ++ js "
    Level: " ++ experienceLevel config ++ js "
    Company Type: " ++ companyType config ++ js "

    Transcript:
    " ++ conversationText transcript ++ js "

    Provide a structured evaluation in JSON format including:
    1. A score out of 100 based on technical accuracy, communication, and role fit.
    2. A brief summary (max 3 sentences).
    3. 3 key strengths.
    4. 3 specific areas for improvement.
  ".

(** The record returned when generation fails. *)
Definition fallback_feedback : FeedbackAnalysis :=
  MkFeedback 0 (js "Could not generate feedback due to an error. Please try again.") [] [].

(** The environment of one [generateFeedback] call: the credential, and the
    outcome of the model request for a prompt ([response.text], which may be
    missing). *)
Record FeedbackEnv : Type := MkFeedbackEnv {
  feedback_API_KEY : option jsstring;
  generateContent : jsstring -> outcome (option jsstring)
}.

(** [try { body } catch { handler }] outside the hook. *)
Definition catching {A} (body : outcome A) (handler : outcome A) : outcome A :=
  match body with
  | Returned a => Returned a
  | Thrown _ => handler
  end.

Section Feedback.

(** [JSON.parse(jsonText) as FeedbackAnalysis]: [None] when the text is not
    JSON; a parsed value is taken to have the shape the response schema
    asks for. *)
Variable JSON_parse : jsstring -> option FeedbackAnalysis.

Definition generateFeedback (env : FeedbackEnv) (config : InterviewConfig)
  (transcript : list TranscriptItem) : outcome FeedbackAnalysis :=
  if negb (truthy (or_else (feedback_API_KEY env) []))
  then Thrown (js "API Key not found")
  else
    catching
      (match generateContent env (feedback_prompt config transcript) with
       | Thrown e => Thrown e
       | Returned jsonText =>
           if negb (truthy (or_else jsonText []))
           then Thrown (js "No response received from feedback model")
           else match JSON_parse (or_else jsonText []) with
                | Some analysis => Returned analysis
                | None => Thrown (js "SyntaxError")
                end
       end)
      (Returned fallback_feedback).

(** * App *)

Inductive ViewState : Type :=
| view_setup
| view_interview
| view_loading_feedback
| view_feedback.

Record App : Type := MkApp {
  view : ViewState;
  feedback : option FeedbackAnalysis;
  hook : Hook
}.

(** [handleStart] up to the first [await] of the [connect] call it makes;
    [rendered] is the [connectionState] of the render the handler and its
    [connect] belong to. *)
Definition handleStart (rendered : ConnectionState) (env : ConnectEnv) (app : App)
  : outcome (option Suspended) * App :=
  let app1 := MkApp view_interview (feedback app) (hook app) in
  let (r, h) := connect rendered env (hook app1) in
  (r, MkApp (view app1) (feedback app1) h).

Definition handleEnd (env : FeedbackEnv) (config : InterviewConfig) (app : App)
  : outcome unit * App :=
  let currentTranscript := transcript (hook app) in
  match disconnect (hook app) with
  | (Thrown e, h) => (Thrown e, MkApp (view app) (feedback app) h)
  | (Returned _, h) =>
      match currentTranscript with
      | _ :: _ =>
          match generateFeedback env config currentTranscript with
          | Thrown e => (Thrown e, MkApp view_loading_feedback (feedback app) h)
          | Returned analysis => (Returned tt, MkApp view_feedback (Some analysis) h)
          end
      | [] => (Returned tt, MkApp view_setup (feedback app) h)
      end
  end.

Definition handleRestart (app : App) : App :=
  MkApp view_setup None (hook app).

(** What [App] renders. *)
Inductive Screen : Type :=
| LoadingScreen
| FeedbackCard (analysis : FeedbackAnalysis) (shown : list TranscriptItem)
| SetupForm
| InterviewSession (state : ConnectionState) (error_banner : option jsstring).

Definition render (app : App) : Screen :=
  match view app, feedback app with
  | view_loading_feedback, _ => LoadingScreen
  | view_feedback, Some analysis => FeedbackCard analysis (transcript (hook app))
  | view_setup, _ => SetupForm
  | _, _ => InterviewSession (connectionState (hook app)) (error (hook app))
  end.

End Feedback.

(** A feedback environment for the examples: the model answers with a
    fixed text. *)
Definition answering (response : outcome (option jsstring)) : FeedbackEnv :=
  MkFeedbackEnv (Some (js "key")) (fun _ => response).

(** * Properties *)

(** ** Numbers: rounding to the nearest double *)

(* powers of two *)
Lemma pow2_pos (e : Z) : 0 < 2 ^ e.
Proof. apply Qpower_0_lt. reflexivity. Qed.

Lemma pow2_add (a b : Z) : 2 ^ (a + b) == 2 ^ a * 2 ^ b.
Proof. apply Qpower_plus. discriminate. Qed.

Lemma pow2_succ (a : Z) : 2 ^ (a + 1) == 2 * 2 ^ a.
Proof. rewrite pow2_add. change (2 ^ 1) with 2. ring. Qed.

Lemma pow2_le (a b : Z) : (a <= b)%Z -> 2 ^ a <= 2 ^ b.
Proof. intros H. apply Qpower_le_compat_l; [exact H | discriminate]. Qed.

Lemma pow2_lt (a b : Z) : (a < b)%Z -> 2 ^ a < 2 ^ b.
Proof. intros H. apply Qpower_lt_compat_l; [exact H | reflexivity]. Qed.

Lemma pow2_lt_inv (a b : Z) : 2 ^ a < 2 ^ b -> (a < b)%Z.
Proof. intros H. apply (Qpower_lt_compat_l_inv 2); [exact H | reflexivity]. Qed.

Lemma pow2_Z (a : Z) : (0 <= a)%Z -> 2 ^ a == inject_Z (2 ^ a).
Proof. intros H. symmetry. apply (Zpower_Qpower 2 a H). Qed.

(* rounding to an integer *)
Lemma round_half_even_bounds (x : Q) :
  (Qfloor x <= round_half_even x <= Qfloor x + 1)%Z.
Proof.
  unfold round_half_even.
  destruct (Qcompare (x - inject_Z (Qfloor x)) (1 # 2)); [destruct (Z.even (Qfloor x))| |]; lia.
Qed.

Lemma round_half_even_Z (n : Z) : round_half_even (inject_Z n) = n.
Proof.
  unfold round_half_even. rewrite Qfloor_Z.
  destruct (Qcompare_spec (inject_Z n - inject_Z n) (1 # 2)) as [H | H | H];
    [lra | reflexivity | lra].
Qed.

Lemma round_half_even_le (x y : Q) :
  x <= y -> (round_half_even x <= round_half_even y)%Z.
Proof.
  intros H. pose proof (Qfloor_resp_le x y H) as Hf.
  pose proof (round_half_even_bounds x) as Bx.
  pose proof (round_half_even_bounds y) as By.
  destruct (Z.eq_dec (Qfloor x) (Qfloor y)) as [E | E]; [|lia].
  unfold round_half_even. rewrite <- E.
  destruct (Qcompare_spec (x - inject_Z (Qfloor x)) (1 # 2)) as [Hx | Hx | Hx];
    destruct (Qcompare_spec (y - inject_Z (Qfloor x)) (1 # 2)) as [Hy | Hy | Hy];
    try destruct (Z.even (Qfloor x)); try lia; lra.
Qed.

Lemma round_half_even_eq (x y : Q) : x == y -> round_half_even x = round_half_even y.
Proof.
  intros H. apply Z.le_antisymm; apply round_half_even_le; rewrite H; apply Qle_refl.
Qed.

Lemma round_half_even_ge (n : Z) (x : Q) : inject_Z n <= x -> (n <= round_half_even x)%Z.
Proof. intros H. rewrite <- (round_half_even_Z n). apply round_half_even_le, H. Qed.

Lemma round_half_even_le_Z (n : Z) (x : Q) : x <= inject_Z n -> (round_half_even x <= n)%Z.
Proof. intros H. rewrite <- (round_half_even_Z n). apply round_half_even_le, H. Qed.

Lemma frac_lt (x d y p : Q) : 0 < d -> 0 < p -> x * p < y * d -> x / d < y / p.
Proof.
  intros Hd Hp H. apply Qlt_shift_div_r; [exact Hd|].
  setoid_replace (y / p * d) with (y * d / p) by (field; lra).
  apply Qlt_shift_div_l; [exact Hp | exact H].
Qed.

Lemma binade_spec (q : Q) :
  ~ q == 0 -> 2 ^ binade q <= Qabs q /\ Qabs q < 2 ^ (binade q + 1).
Proof.
  destruct q as [n d]. intros Hq.
  assert (Hn : (0 < Z.abs n)%Z).
  { destruct (Z.eq_dec n 0) as [-> | Hne]; [exfalso; apply Hq; reflexivity | lia]. }
  unfold binade. cbn [Qnum Qden Qabs].
  set (N := Z.abs n) in *. set (a := Z.log2 N). set (b := Z.log2 (Zpos d)).
  pose proof (Z.log2_spec N Hn) as [Ha1 Ha2]. fold a in Ha1, Ha2.
  pose proof (Z.log2_spec (Zpos d) (Pos2Z.is_pos d)) as [Hb1 Hb2]. fold b in Hb1, Hb2.
  pose proof (Z.log2_nonneg N) as Ha0. fold a in Ha0.
  pose proof (Z.log2_nonneg (Zpos d)) as Hb0. fold b in Hb0.
  assert (HX : N # d == inject_Z N / inject_Z (Zpos d)) by apply Qmake_Qdiv.
  set (X := inject_Z N) in *. set (D := inject_Z (Zpos d)) in *.
  assert (HA1 : 2 ^ a <= X).
  { rewrite pow2_Z by exact Ha0. unfold X. rewrite <- Zle_Qle. exact Ha1. }
  assert (HA2 : X < 2 * 2 ^ a).
  { rewrite <- pow2_succ, pow2_Z by lia. unfold X. rewrite <- Zlt_Qlt. exact Ha2. }
  assert (HB1 : 2 ^ b <= D).
  { rewrite pow2_Z by exact Hb0. unfold D. rewrite <- Zle_Qle. exact Hb1. }
  assert (HB2 : D < 2 * 2 ^ b).
  { rewrite <- pow2_succ, pow2_Z by lia. unfold D. rewrite <- Zlt_Qlt. exact Hb2. }
  pose proof (pow2_pos a) as Pa. pose proof (pow2_pos b) as Pb.
  assert (Hk : 2 ^ (a - b) == 2 ^ a / 2 ^ b) by (apply Qpower_minus; discriminate).
  assert (HD : 0 < D) by lra.
  assert (Hup : N # d < 2 ^ (a - b + 1)).
  { rewrite HX, pow2_succ, Hk.
    setoid_replace (2 * (2 ^ a / 2 ^ b)) with ((2 * 2 ^ a) / 2 ^ b) by (field; lra).
    apply frac_lt; [exact HD | exact Pb | nra]. }
  assert (Hlow : 2 ^ (a - b - 1) <= N # d).
  { apply Qlt_le_weak.
    assert (E : 2 ^ (a - b - 1) == (2 ^ a / 2) / 2 ^ b).
    { apply (Qmult_inj_l _ _ 2); [discriminate|].
      rewrite <- pow2_succ. replace (a - b - 1 + 1)%Z with (a - b)%Z by lia.
      rewrite Hk. field. lra. }
    rewrite E, HX.
    setoid_replace (2 ^ a / 2 / 2 ^ b) with (2 ^ a / (2 * 2 ^ b)) by (field; lra).
    apply frac_lt; [lra | exact HD | nra]. }
  destruct (Qle_bool (2 ^ (a - b)) (N # d)) eqn:E.
  - apply Qle_bool_iff in E. split; assumption.
  - split; [exact Hlow|]. replace (a - b - 1 + 1)%Z with (a - b)%Z by lia.
    apply Qnot_le_lt. intros H. apply Qle_bool_iff in H. congruence.
Qed.

Lemma binade_unique (q : Q) (k : Z) :
  2 ^ k <= Qabs q -> Qabs q < 2 ^ (k + 1) -> binade q = k.
Proof.
  intros H1 H2.
  assert (Hq : ~ q == 0).
  { intros E. rewrite E in H1. pose proof (pow2_pos k). cbn in H1. lra. }
  destruct (binade_spec q Hq) as [B1 B2].
  assert (L1 : (binade q < k + 1)%Z) by (apply pow2_lt_inv; lra).
  assert (L2 : (k < binade q + 1)%Z) by (apply pow2_lt_inv; lra).
  lia.
Qed.

Lemma binade_comp (x y : Q) : ~ x == 0 -> x == y -> binade x = binade y.
Proof.
  intros Hx E. destruct (binade_spec x Hx) as [B1 B2].
  symmetry. apply binade_unique; rewrite <- E; assumption.
Qed.

Lemma binade_le (x y : Q) : ~ x == 0 -> ~ y == 0 -> Qabs x <= Qabs y -> (binade x <= binade y)%Z.
Proof.
  intros Hx Hy H. destruct (binade_spec x Hx) as [B1 _].
  destruct (binade_spec y Hy) as [_ B2].
  assert (L : (binade x < binade y + 1)%Z) by (apply pow2_lt_inv; lra). lia.
Qed.

Lemma quantum_unfold (q : Q) : quantum q = 2 ^ quantum_exponent q.
Proof. reflexivity. Qed.

Lemma quantum_exponent_bounds (q : Q) :
  ~ q == 0 ->
  Qabs q < 2 ^ (quantum_exponent q + 53)
  /\ ((-1074 < quantum_exponent q)%Z -> 2 ^ (quantum_exponent q + 52) <= Qabs q).
Proof.
  intros Hq. destruct (binade_spec q Hq) as [B1 B2]. unfold quantum_exponent. split.
  - apply (Qlt_le_trans _ _ _ B2), pow2_le. lia.
  - intros H. replace (Z.max (binade q - 52) (-1074) + 52)%Z with (binade q) by lia.
    exact B1.
Qed.

Lemma quantum_exponent_le (x y : Q) :
  ~ x == 0 -> ~ y == 0 -> Qabs x <= Qabs y -> (quantum_exponent x <= quantum_exponent y)%Z.
Proof.
  intros Hx Hy H. pose proof (binade_le x y Hx Hy H). unfold quantum_exponent. lia.
Qed.

Lemma to_double_rounded (q : Q) : to_double q == rounded q.
Proof. apply Qred_correct. Qed.

Lemma scaled_le (q : Q) (e : Z) (n : Z) :
  q <= inject_Z n * 2 ^ e -> q / 2 ^ e <= inject_Z n.
Proof.
  intros H. pose proof (pow2_pos e) as P.
  apply Qle_shift_div_r; [exact P | exact H].
Qed.

Lemma scaled_ge (q : Q) (e : Z) (n : Z) :
  inject_Z n * 2 ^ e <= q -> inject_Z n <= q / 2 ^ e.
Proof.
  intros H. pose proof (pow2_pos e) as P.
  apply Qle_shift_div_l; [exact P | exact H].
Qed.

Lemma rounded_le_of (q : Q) (n : Z) :
  q <= inject_Z n * quantum q -> rounded q <= inject_Z n * quantum q.
Proof.
  intros H. unfold rounded. rewrite quantum_unfold in *.
  pose proof (pow2_pos (quantum_exponent q)) as P.
  apply Qmult_le_compat_r; [|lra].
  rewrite <- Zle_Qle. apply round_half_even_le_Z, scaled_le, H.
Qed.

Lemma rounded_ge_of (q : Q) (n : Z) :
  inject_Z n * quantum q <= q -> inject_Z n * quantum q <= rounded q.
Proof.
  intros H. unfold rounded. rewrite quantum_unfold in *.
  pose proof (pow2_pos (quantum_exponent q)) as P.
  apply Qmult_le_compat_r; [|lra].
  rewrite <- Zle_Qle. apply round_half_even_ge, scaled_ge, H.
Qed.

Lemma two_53 : inject_Z (2 ^ 53) == 2 ^ 53.
Proof. reflexivity. Qed.

Lemma pow2_53 (e : Z) : 2 ^ (e + 53) == inject_Z (2 ^ 53) * 2 ^ e.
Proof. rewrite pow2_add. change (2 ^ 53) with (inject_Z (2 ^ 53)). ring. Qed.

Lemma pow2_52 (e : Z) : 2 ^ (e + 52) == inject_Z (2 ^ 52) * 2 ^ e.
Proof. rewrite pow2_add. change (2 ^ 52) with (inject_Z (2 ^ 52)). ring. Qed.

(** The rounded value stays in the closed binade of the argument. *)
Lemma rounded_envelope (q : Q) :
  ~ q == 0 ->
  (0 < q ->
   0 <= rounded q <= 2 ^ (quantum_exponent q + 53)
   /\ ((-1074 < quantum_exponent q)%Z -> 2 ^ (quantum_exponent q + 52) <= rounded q))
  /\ (q < 0 ->
      - 2 ^ (quantum_exponent q + 53) <= rounded q <= 0
      /\ ((-1074 < quantum_exponent q)%Z -> rounded q <= - 2 ^ (quantum_exponent q + 52))).
Proof.
  intros Hq. destruct (quantum_exponent_bounds q Hq) as [U L].
  pose proof (pow2_pos (quantum_exponent q)) as P.
  split; intros Hs.
  - rewrite (Qabs_pos q) in U, L by lra. split; [split|].
    + setoid_replace 0 with (inject_Z 0 * quantum q) by ring.
      apply rounded_ge_of. rewrite quantum_unfold. change (inject_Z 0) with 0. lra.
    + rewrite pow2_53. apply rounded_le_of. rewrite quantum_unfold, <- pow2_53. lra.
    + intros H. rewrite pow2_52. apply rounded_ge_of.
      rewrite quantum_unfold, <- pow2_52. apply L, H.
  - rewrite (Qabs_neg q) in U, L by lra. split; [split|].
    + setoid_replace (- 2 ^ (quantum_exponent q + 53)) with (inject_Z (- 2 ^ 53) * quantum q)
        by (rewrite pow2_53, quantum_unfold, inject_Z_opp; ring).
      apply rounded_ge_of. rewrite quantum_unfold, inject_Z_opp.
      rewrite pow2_53 in U. lra.
    + setoid_replace 0 with (inject_Z 0 * quantum q) by ring.
      apply rounded_le_of. rewrite quantum_unfold. change (inject_Z 0) with 0. lra.
    + intros H.
      setoid_replace (- 2 ^ (quantum_exponent q + 52)) with (inject_Z (- 2 ^ 52) * quantum q)
        by (rewrite pow2_52, quantum_unfold, inject_Z_opp; ring).
      apply rounded_le_of. rewrite quantum_unfold, inject_Z_opp.
      specialize (L H). rewrite pow2_52 in L. lra.
Qed.

Lemma rounded_zero (q : Q) : q == 0 -> rounded q == 0.
Proof.
  intros E. unfold rounded. generalize (quantum q). intros u.
  assert (H : q / u == inject_Z 0) by (rewrite E; unfold Qdiv; ring).
  rewrite (round_half_even_eq _ _ H), round_half_even_Z. ring.
Qed.

Lemma rounded_le (x y : Q) : x <= y -> rounded x <= rounded y.
Proof.
  intros H.
  destruct (Qeq_dec x 0) as [Ex | Nx].
  { rewrite (rounded_zero x Ex). destruct (Qeq_dec y 0) as [Ey | Ny].
    - rewrite (rounded_zero y Ey). apply Qle_refl.
    - destruct (rounded_envelope y Ny) as [Hp _]. apply Hp. lra. }
  destruct (Qeq_dec y 0) as [Ey | Ny].
  { rewrite (rounded_zero y Ey). destruct (rounded_envelope x Nx) as [_ Hn].
    apply Hn. lra. }
  destruct (rounded_envelope x Nx) as [Xp Xn].
  destruct (rounded_envelope y Ny) as [Yp Yn].
  destruct (Qlt_le_dec x 0) as [Sx | Sx]; destruct (Qlt_le_dec y 0) as [Sy | Sy].
  - (* both negative *)
    assert (Habs : Qabs y <= Qabs x) by (rewrite !Qabs_neg by lra; lra).
    pose proof (quantum_exponent_le y x Ny Nx Habs) as He.
    destruct (Z.eq_dec (quantum_exponent y) (quantum_exponent x)) as [E | E].
    + unfold rounded. rewrite !quantum_unfold, E.
      pose proof (pow2_pos (quantum_exponent x)) as P.
      apply Qmult_le_compat_r; [|lra]. rewrite <- Zle_Qle.
      apply round_half_even_le. apply Qmult_le_compat_r; [exact H|].
      apply Qlt_le_weak, Qinv_lt_0_compat, P.
    + destruct (Xn Sx) as [_ X2]. destruct (Yn Sy) as [[Y1 _] _].
      assert (L : (-1074 < quantum_exponent x)%Z) by (unfold quantum_exponent in *; lia).
      specialize (X2 L).
      assert (P : 2 ^ (quantum_exponent y + 53) <= 2 ^ (quantum_exponent x + 52)) by (apply pow2_le; lia).
      lra.
  - apply (Qle_trans _ 0); [apply (Xn Sx) | apply Yp; lra].
  - lra.
  - (* both positive *)
    assert (Px : 0 < x) by lra. assert (Py : 0 < y) by lra.
    assert (Habs : Qabs x <= Qabs y) by (rewrite !Qabs_pos by lra; lra).
    pose proof (quantum_exponent_le x y Nx Ny Habs) as He.
    destruct (Z.eq_dec (quantum_exponent x) (quantum_exponent y)) as [E | E].
    + unfold rounded. rewrite !quantum_unfold, E.
      pose proof (pow2_pos (quantum_exponent y)) as P.
      apply Qmult_le_compat_r; [|lra]. rewrite <- Zle_Qle.
      apply round_half_even_le. apply Qmult_le_compat_r; [exact H|].
      apply Qlt_le_weak, Qinv_lt_0_compat, P.
    + destruct (Xp Px) as [[_ X1] _]. destruct (Yp Py) as [_ Y2].
      assert (L : (-1074 < quantum_exponent y)%Z) by (unfold quantum_exponent in *; lia).
      specialize (Y2 L).
      assert (P : 2 ^ (quantum_exponent x + 53) <= 2 ^ (quantum_exponent y + 52)) by (apply pow2_le; lia).
      lra.
Qed.

(** Rounding is monotone. *)
Lemma to_double_le (x y : Q) : x <= y -> to_double x <= to_double y.
Proof. intros H. rewrite !to_double_rounded. apply rounded_le, H. Qed.

Lemma to_double_eq (x y : Q) : x == y -> to_double x = to_double y.
Proof.
  intros E. unfold to_double. apply Qred_complete. fold (rounded x) (rounded y).
  apply Qle_antisym; apply rounded_le; rewrite E; apply Qle_refl.
Qed.


Lemma rounded_exact (q : Q) (n : Z) : q / quantum q == inject_Z n -> rounded q == q.
Proof.
  intros H. unfold rounded. rewrite (round_half_even_eq _ _ H), round_half_even_Z, <- H.
  field. rewrite quantum_unfold. pose proof (pow2_pos (quantum_exponent q)). lra.
Qed.

Lemma pow2_le_inv (a b : Z) : 2 ^ a <= 2 ^ b -> (a <= b)%Z.
Proof. intros H. apply (Qpower_le_compat_l_inv 2); [exact H | reflexivity]. Qed.

(** Every [m * 2^e] with a mantissa of at most 53 bits and an exponent in
    range is a double. *)
Lemma is_double_intro (m e : Z) :
  (-1074 <= e)%Z -> (Z.abs m <= 2 ^ 53)%Z -> is_double (inject_Z m * 2 ^ e).
Proof.
  intros He Hm. unfold is_double. rewrite to_double_rounded.
  set (r := inject_Z m * 2 ^ e).
  pose proof (pow2_pos e) as Pe.
  destruct (Z.eq_dec m 0) as [-> | Nm].
  { assert (E : r == 0) by (unfold r; ring). rewrite (rounded_zero r E), E. reflexivity. }
  assert (Habs : Qabs r == inject_Z (Z.abs m) * 2 ^ e).
  { unfold r. rewrite Qabs_Qmult, (Qabs_pos (2 ^ e)) by lra. reflexivity. }
  assert (Nr : ~ r == 0).
  { intros E. rewrite E in Habs. cbn in Habs.
    assert (0 < inject_Z (Z.abs m)) by (rewrite <- (Zlt_Qlt 0); lia).
    assert (0 < inject_Z (Z.abs m) * 2 ^ e) by (apply Qmult_lt_0_compat; assumption).
    change (Qabs 0) with 0 in Habs. lra. }
  destruct (quantum_exponent_bounds r Nr) as [_ L].
  pose proof (pow2_pos (quantum_exponent r)) as Pr.
  destruct (Z_le_gt_dec (quantum_exponent r) e) as [Hle | Hgt].
  - apply (rounded_exact r (m * 2 ^ (e - quantum_exponent r))).
    rewrite quantum_unfold, inject_Z_mult, <- pow2_Z by lia.
    assert (E : 2 ^ (e - quantum_exponent r) == 2 ^ e / 2 ^ quantum_exponent r) by (apply Qpower_minus; discriminate).
    rewrite E. subst r. field. lra.
  - assert (L' : 2 ^ (quantum_exponent r + 52) <= Qabs r) by (apply L; lia).
    assert (Hm' : inject_Z (Z.abs m) <= inject_Z (2 ^ 53)) by (rewrite <- Zle_Qle; exact Hm).
    assert (U : Qabs r <= 2 ^ (e + 53)).
    { rewrite Habs, pow2_53. apply Qmult_le_compat_r; [exact Hm' | lra]. }
    assert (E1 : quantum_exponent r = (e + 1)%Z).
    { assert ((quantum_exponent r + 52 <= e + 53)%Z) by (apply pow2_le_inv; lra). lia. }
    assert (E2 : Z.abs m = (2 ^ 53)%Z).
    { apply Z.le_antisymm; [exact Hm|].
      rewrite Zle_Qle. rewrite E1 in L'.
      replace (e + 1 + 52)%Z with (e + 53)%Z in L' by lia.
      rewrite pow2_53, Habs in L'.
      apply (Qmult_le_r _ _ (2 ^ e)); [exact Pe | exact L']. }
    apply (rounded_exact r (m / 2)).
    rewrite quantum_unfold, E1, pow2_succ. subst r.
    assert (Em : inject_Z m == 2 * inject_Z (m / 2)).
    { change 2 with (inject_Z 2). rewrite <- inject_Z_mult.
      assert (m = (2 * (m / 2))%Z).
      { change (2 ^ 53)%Z with 9007199254740992%Z in E2.
        pose proof (Z.div_mod m 2). pose proof (Z.mod_pos_bound m 2). lia. }
      congruence. }
    rewrite Em. field. lra.
Qed.

Lemma is_double_comp (x y : Q) : x == y -> is_double x -> is_double y.
Proof. unfold is_double. intros E H. rewrite <- (to_double_eq x y E), H. exact E. Qed.

Lemma round_half_even_53 (q : Q) :
  (Z.abs (round_half_even (q / quantum q)) <= 2 ^ 53)%Z.
Proof.
  destruct (Qeq_dec q 0) as [E | N].
  { assert (H : q / quantum q == inject_Z 0).
    { generalize (quantum q). intros u. rewrite E. unfold Qdiv. ring. }
    rewrite (round_half_even_eq _ _ H), round_half_even_Z. cbn. lia. }
  destruct (quantum_exponent_bounds q N) as [U _]. rewrite pow2_53 in U.
  rewrite quantum_unfold. pose proof (pow2_pos (quantum_exponent q)) as P.
  apply Qabs_Qlt_condition in U. destruct U as [U1 U2].
  apply Z.abs_le. split.
  - apply round_half_even_ge, scaled_ge. rewrite inject_Z_opp. lra.
  - apply round_half_even_le_Z, scaled_le. lra.
Qed.

(** The result of rounding is a double: rounding is idempotent. *)
Lemma to_double_is_double (q : Q) : is_double (to_double q).
Proof.
  apply (is_double_comp (rounded q)); [symmetry; apply to_double_rounded|].
  unfold rounded. rewrite quantum_unfold. apply is_double_intro.
  - unfold quantum_exponent. lia.
  - rewrite <- quantum_unfold. apply round_half_even_53.
Qed.

Lemma number_add_is_double (x y : Q) : is_double (number_add x y).
Proof. apply to_double_is_double. Qed.

(** Adding a non-negative number to a double does not give a smaller one. *)
Lemma number_add_increasing (t d : Q) : is_double t -> 0 <= d -> t <= number_add t d.
Proof.
  intros Ht Hd. unfold is_double in Ht. rewrite <- Ht at 1.
  apply to_double_le. lra.
Qed.

Lemma is_double_Qmax (x y : Q) : is_double x -> is_double y -> is_double (Qmax x y).
Proof.
  intros Hx Hy. destruct (Q.max_spec x y) as [[_ E] | [_ E]].
  - apply (is_double_comp y); [symmetry; exact E | exact Hy].
  - apply (is_double_comp x); [symmetry; exact E | exact Hx].
Qed.

Lemma is_double_Z (n : Z) : (Z.abs n <= 2 ^ 53)%Z -> is_double (inject_Z n).
Proof.
  intros H. apply (is_double_comp (inject_Z n * 2 ^ 0)).
  - change (2 ^ 0) with 1. ring.
  - apply is_double_intro; [lia | exact H].
Qed.

(** A sum that is a double is computed exactly. *)
Lemma number_add_exact (x y : Q) : is_double (x + y) -> number_add x y == x + y.
Proof. intros H. exact H. Qed.

(** ** Running the monad *)

Ltac run := cbv [bind gets modify emit fresh ret throw when when_some try_catch await].

Ltac destruct_hook s :=
  destruct s as [cs er vo av tr ic oc ms isr pr oa ns ss sp ti ci co nh ef].

Lemma set_effects_same (s : Hook) : set_effects (effects s) s = s.
Proof. destruct s; reflexivity. Qed.

(** Dropping the value a computation returns changes neither its final
    state nor whether it returns. *)
Lemma exec_discard {A} (c : Eff A) (s : Hook) : exec (c ;; ret tt) s = exec c s.
Proof. unfold exec, bind, ret. destruct (c s) as [[a|e] s']; reflexivity. Qed.

Lemma result_discard {A} (c : Eff A) (s : Hook) (a : A) :
  result c s = Returned a -> result (c ;; ret tt) s = Returned tt.
Proof.
  unfold result, bind, ret. destruct (c s) as [[a'|e] s']; cbn; [reflexivity | discriminate].
Qed.

Lemma forEach_source_stop (l : list SourceNode) : forall s,
  forEach l source_stop s
  = (Returned tt, set_effects (effects s ++ stop_calls l) s).
Proof.
  induction l as [|a r IH]; intros s; simpl.
  - unfold ret. rewrite app_nil_r, set_effects_same. reflexivity.
  - unfold bind at 1. unfold source_stop at 1, emit, modify. rewrite IH.
    destruct s; simpl. rewrite <- app_assoc. reflexivity.
Qed.

Lemma forEach_guarded_stop (l : list SourceNode) : forall s,
  forEach l (fun source => try_catch (source_stop source) (fun _ => ret tt)) s
  = (Returned tt, set_effects (effects s ++ stop_calls l) s).
Proof.
  induction l as [|a r IH]; intros s; simpl.
  - unfold ret. rewrite app_nil_r, set_effects_same. reflexivity.
  - unfold bind at 1. unfold try_catch, source_stop at 1, emit, modify. rewrite IH.
    destruct s; simpl. rewrite <- app_assoc. reflexivity.
Qed.

Lemma stop_calls_In (u : SourceNode) (l : list SourceNode) :
  In u l -> In (SourceStop (src_id u)) (stop_calls l).
Proof. intros H. unfold stop_calls. apply (in_map (fun x => SourceStop (src_id x))), H. Qed.

Lemma calls_of_app {A} (c : Eff A) (s : Hook) (l : list Effect) :
  effects (exec c s) = effects s ++ l -> calls_of c s = l.
Proof.
  intros H. unfold calls_of. rewrite H, skipn_app, skipn_all, Nat.sub_diag. reflexivity.
Qed.

(** ** disconnect *)

Lemma disconnect_run (s : Hook) :
  disconnect s
  = (Returned tt,
     MkHook DISCONNECTED (error s) 0 0 (transcript s)
       None None None None None (outputAnalyzerRef s) 0 [] None None
       (currentInputRef s) (currentOutputRef s)
       (nextHandle s) (effects s ++ disconnect_calls s)).
Proof.
  unfold disconnect, disconnect_calls. destruct_hook s.
  destruct ti, pr, isr, ic, oc, ms, sp as [[pid [|]]|]; run; cbn;
    rewrite forEach_guarded_stop; cbn;
    repeat (rewrite <- app_assoc; cbn); rewrite ?app_nil_r; reflexivity.
Qed.

(** C6.  From every state (the initial one and the state left by a previous
    [disconnect] included), [disconnect] returns without an error and leaves
    the connection state Disconnected, the live-units set empty, the
    next-start cursor at 0 and both volume readouts at 0; a second call
    returns without an error too and ends in the state the first one left. *)
Theorem disconnect_any_state_idempotent (s : Hook) :
  result disconnect s = Returned tt
  /\ connectionState (exec disconnect s) = DISCONNECTED
  /\ scheduledSourcesRef (exec disconnect s) = []
  /\ nextStartTimeRef (exec disconnect s) = 0
  /\ volume (exec disconnect s) = 0
  /\ aiVolume (exec disconnect s) = 0
  /\ result disconnect (exec disconnect s) = Returned tt
  /\ exec disconnect (exec disconnect s) = exec disconnect s.
Proof.
  unfold result, exec. rewrite !disconnect_run. cbn.
  repeat split. rewrite app_nil_r. reflexivity.
Qed.

(** Before any [connect], [disconnect] changes nothing at all. *)
Example disconnect_before_connect : disconnect initial = (Returned tt, initial).
Proof. reflexivity. Qed.

(** Every live unit is stopped by [disconnect]. *)
Lemma disconnect_stops_live_units (s : Hook) (u : SourceNode) :
  In u (scheduledSourcesRef s) ->
  In (SourceStop (src_id u)) (effects (exec disconnect s)).
Proof.
  intros H. unfold exec. rewrite disconnect_run. cbn.
  apply in_or_app. right. unfold disconnect_calls.
  do 4 (apply in_or_app; right). apply in_or_app. left.
  apply stop_calls_In, H.
Qed.

Lemma disconnect_calls_release (s : Hook) :
  (forall h, inputAudioContextRef s = Some h -> In (CloseAudioContext h) (disconnect_calls s))
  /\ (forall h, outputAudioContextRef s = Some h -> In (CloseAudioContext h) (disconnect_calls s))
  /\ (forall h, aiVolumeIntervalRef s = Some h -> In (ClearInterval h) (disconnect_calls s))
  /\ (forall h, mediaStreamRef s = Some h -> In (StopTracks h) (disconnect_calls s)).
Proof.
  unfold disconnect_calls. repeat split; intros h ->; rewrite !in_app_iff; cbn; tauto.
Qed.

Lemma calls_of_disconnect (s : Hook) : calls_of disconnect s = disconnect_calls s.
Proof. apply calls_of_app. unfold exec. rewrite disconnect_run. reflexivity. Qed.

(** ** connect *)

(** String literals stay folded during symbolic runs. *)
#[local] Arguments js : simpl never.

Ltac unfold_connect :=
  unfold connect_from, connect_try, connect_setup, resume_input_or_go_on,
    resume_output_or_request_media, open_session, context_suspended, connect_catch,
    awaited.

Ltac solve_membership :=
  cbn; intros;
  repeat match goal with
         | H : _ \/ _ |- _ => destruct H
         | H : False |- _ => contradiction
         | H : NewAudioContext _ _ = NewAudioContext _ _ |- _ => inversion H; subst; clear H
         | H : SetInterval _ = SetInterval _ |- _ => inversion H; subst; clear H
         | H : GetUserMedia _ = GetUserMedia _ |- _ => inversion H; subst; clear H
         | H : StopTracks _ = StopTracks _ |- _ => inversion H; subst; clear H
         | H : @eq Effect _ _ |- _ => discriminate H
         end; auto.

Ltac quiet_calls :=
  repeat first [ apply Forall_nil
               | apply Forall_cons; [reflexivity|]
               | apply Forall_app; split ].

Ltac frame_calls :=
  first [ exists []; split; [symmetry; apply app_nil_r|]
        | eexists; split; [rewrite <- ?app_assoc; reflexivity|] ].

(** A stretch of [connect] never throws: the [catch] block contains every
    failure. *)
Lemma connect_from_returns (from : option Suspended) (env : ConnectEnv) (s : Hook) :
  exists k, result (connect_from from env) s = Returned k.
Proof.
  unfold result. unfold_connect. destruct env as [k isus ri osus ro g l]. destruct_hook s.
  destruct from as [[| | |]|]; cbn [API_KEY inputSuspended resumeInput outputSuspended
                                      resumeOutput getUserMedia liveConnect].
  - destruct ri as [[]|e], oc, osus, ms; run; cbn; eexists; reflexivity.
  - destruct ro as [[]|e], ms; run; cbn; eexists; reflexivity.
  - destruct g as [[]|e], ms; run; cbn; eexists; reflexivity.
  - destruct l as [[]|e], ms; run; cbn; eexists; reflexivity.
  - destruct (truthy (or_else k [])) eqn:Hk, isus, osus, ms; run; cbn; rewrite ?Hk; cbn;
      eexists; reflexivity.
Qed.

Ltac fresh_cell :=
  first [ left; reflexivity
        | right; split; [auto; fail|]; eexists; split; [reflexivity | cbn; lia] ].

Ltac step_calls :=
  first [ exists []; split; [symmetry; apply app_nil_r|]
        | eexists; split; [rewrite <- ?app_assoc; reflexivity|] ];
  (split; [quiet_calls|]);
  (split; [ cbn; intros ex Hin Hacq;
            repeat match goal with
                   | H : _ \/ _ |- _ => destruct H
                   | H : False |- _ => contradiction
                   end; subst; cbn in *; try discriminate; auto
          | cbn; intros hx ex Hin Hrel; unfold releases in Hrel;
            repeat match goal with
                   | H : _ \/ _ |- _ => destruct H
                   | H : False |- _ => contradiction
                   end; subst; try discriminate;
            match goal with
            | H : StopTracks _ = StopTracks _ |- _ => inversion H; subst; reflexivity
            end ]).

Lemma connect_from_step (from : option Suspended) (env : ConnectEnv) (s : Hook) :
  connect_step (from = None /\ truthy (or_else (API_KEY env) []) = true)
               (from = Some AwaitGetUserMedia /\ getUserMedia env = Returned tt)
               s (exec (connect_from from env) s).
Proof.
  unfold connect_step, fresh_in, exec. unfold_connect.
  destruct env as [k isus ri osus ro g l]. destruct_hook s.
  destruct from as [[| | |]|]; cbn [API_KEY inputSuspended resumeInput outputSuspended
                                      resumeOutput getUserMedia liveConnect].
  - destruct ri as [[]|e], oc, osus, ms; run; cbn;
      (split; [reflexivity|]); (split; [reflexivity|]); (split; [lia|]);
      do 4 (split; [fresh_cell|]); step_calls.
  - destruct ro as [[]|e], ms; run; cbn;
      (split; [reflexivity|]); (split; [reflexivity|]); (split; [lia|]);
      do 4 (split; [fresh_cell|]); step_calls.
  - destruct g as [[]|e], ms; run; cbn;
      (split; [reflexivity|]); (split; [reflexivity|]); (split; [lia|]);
      do 4 (split; [fresh_cell|]); step_calls.
  - destruct l as [[]|e], ms; run; cbn;
      (split; [reflexivity|]); (split; [reflexivity|]); (split; [lia|]);
      do 4 (split; [fresh_cell|]); step_calls.
  - destruct (truthy (or_else k [])) eqn:Hk, isus, osus, ms; run; cbn; rewrite ?Hk; cbn;
      (split; [reflexivity|]); (split; [reflexivity|]); (split; [lia|]);
      do 4 (split; [fresh_cell|]); step_calls.
Qed.


Lemma connect_past_guard (rendered : ConnectionState) (env : ConnectEnv) :
  rendered = DISCONNECTED \/ rendered = ERROR ->
  connect rendered env = connect_from None env.
Proof. intros [-> | ->]; reflexivity. Qed.

Lemma connect_returns (rendered : ConnectionState) (env : ConnectEnv) (s : Hook) :
  exists k, result (connect rendered env) s = Returned k.
Proof.
  destruct rendered; try apply connect_from_returns; exists None; reflexivity.
Qed.

Lemma connect_resume_returns (point : Suspended) (env : ConnectEnv) (s : Hook) :
  exists k, result (connect_resume point env) s = Returned k.
Proof. apply connect_from_returns. Qed.

Lemma connect_step_refl (P R : Prop) (s : Hook) : connect_step P R s s.
Proof.
  unfold connect_step. repeat (split; [first [reflexivity | lia | left; reflexivity]|]).
  exists []. split; [symmetry; apply app_nil_r|]. split; [constructor|].
  split; intros; contradiction.
Qed.

Lemma connect_is_step (rendered : ConnectionState) (env : ConnectEnv) (s : Hook) :
  connect_step ((rendered = DISCONNECTED \/ rendered = ERROR)
                /\ truthy (or_else (API_KEY env) []) = true)
               False s (exec (connect rendered env) s).
Proof.
  destruct rendered; try apply connect_step_refl;
    pose proof (connect_from_step None env s) as H; unfold connect;
    unfold connect_step in *;
    destruct H as (H1 & H2 & H3 & H4 & H5 & H6 & H7 & H8);
    (split; [exact H1|]); (split; [exact H2|]); (split; [exact H3|]);
    (split; [destruct H4 as [H4 | [[_ Hk] H4]]; [left; exact H4 | right; auto]|]);
    (split; [destruct H5 as [H5 | [[_ Hk] H5]]; [left; exact H5 | right; auto]|]);
    (split; [destruct H6 as [H6 | [[_ Hk] H6]]; [left; exact H6 | right; auto]|]);
    (split; [destruct H7 as [H7 | [[Hf _] _]]; [left; exact H7 | discriminate Hf]|]);
    exact H8.
Qed.



(** ** onclose *)

(** C4.  The close callback returns without an error.  Arriving after a
    [disconnect], or in any state whose connection state is Disconnected, it
    leaves the connection state Disconnected; it changes the connection
    state only when the state at arrival is Connecting or Connected, and then
    to Disconnected.  The close callback of the earlier revision, as handed
    to the session by a [connect] call that got past its guard, changes
    nothing at all. *)
Theorem close_after_disconnect_stays_disconnected (s : Hook) :
  result onclose s = Returned tt
  /\ connectionState (exec onclose (exec disconnect s)) = DISCONNECTED
  /\ (connectionState s = DISCONNECTED ->
      connectionState (exec onclose s) = DISCONNECTED)
  /\ (connectionState (exec onclose s) <> connectionState s ->
      (connectionState s = CONNECTING \/ connectionState s = CONNECTED)
      /\ connectionState (exec onclose s) = DISCONNECTED)
  /\ (forall s0 legacy_onclose,
      Legacy.installed_onclose s0 = Some legacy_onclose ->
      legacy_onclose s = (Returned tt, s)).
Proof.
  split; [reflexivity|]. split.
  { unfold exec at 2. rewrite disconnect_run. reflexivity. }
  split.
  { destruct_hook s. cbn. intros ->. reflexivity. }
  split.
  { destruct_hook s. cbn. destruct cs; cbn; intros H; try congruence; auto. }
  intros s0 h. unfold Legacy.installed_onclose.
  destruct (connectionState s0); intros H; inversion H; reflexivity.
Qed.

(** The close callback touches the connection-state cell only. *)
Lemma onclose_run (s : Hook) :
  onclose s = (Returned tt, setConnectionState (close_update (connectionState s)) s).
Proof. reflexivity. Qed.

(** ** The error cell *)

(** Sums of numbers stay folded during symbolic runs. *)
#[local] Arguments number_add : simpl never.

Section ErrorCell.

Variable decodeAudioData : jsstring -> option Q.

Lemma onmessage_returns_error_kept (env : MessageEnv) (m : LiveServerMessage) (s : Hook) :
  result (onmessage decodeAudioData env m) s = Returned tt
  /\ error (exec (onmessage decodeAudioData env m) s) = error s
  /\ connectionState (exec (onmessage decodeAudioData env m) s) = connectionState s
  /\ sessionPromiseRef (exec (onmessage decodeAudioData env m) s) = sessionPromiseRef s.
Proof.
  unfold result, exec, onmessage, handle_audio, handle_interruption,
    handle_transcription, handle_turn_complete, schedule_chunk.
  destruct_hook s. destruct m as [[[|c b]|] [|] it ot tc]; destruct oc; run; cbn;
    try destruct (decodeAudioData (c :: b)); cbn;
    rewrite ?forEach_source_stop; cbn;
    destruct it, ot, tc; cbn;
    try match goal with |- context [if ?b then _ else _] => destruct b end; cbn;
    repeat split.
Qed.

(** A continuation of [connect] leaves the error cell as it was, or stores
    a message. *)
Lemma connect_resume_error (point : Suspended) (env : ConnectEnv) (s : Hook) :
  error (exec (connect_resume point env) s) = error s
  \/ error (exec (connect_resume point env) s) <> None.
Proof.
  unfold exec, connect_resume. unfold_connect.
  destruct env as [k isus ri osus ro g l]. destruct_hook s.
  destruct point; cbn [API_KEY inputSuspended resumeInput outputSuspended
                        resumeOutput getUserMedia liveConnect].
  - destruct ri as [[]|e], oc, osus, ms; run; cbn; first [left; reflexivity | right; discriminate].
  - destruct ro as [[]|e], ms; run; cbn; first [left; reflexivity | right; discriminate].
  - destruct g as [[]|e], ms; run; cbn; first [left; reflexivity | right; discriminate].
  - destruct l as [[]|e], ms; run; cbn; first [left; reflexivity | right; discriminate].
Qed.

(** The first stretch of a [connect] call that has the credential ends at an
    [await], in the Connecting state and with the error cell null. *)
Lemma connect_setup_outcome (env : ConnectEnv) (s : Hook) :
  truthy (or_else (API_KEY env) []) = true ->
  (exists point, result (connect_from None env) s = Returned (Some point))
  /\ connectionState (exec (connect_from None env) s) = CONNECTING
  /\ error (exec (connect_from None env) s) = None
  /\ inputAudioContextRef (exec (connect_from None env) s) = Some (nextHandle s)
  /\ outputAudioContextRef (exec (connect_from None env) s) = Some (S (nextHandle s))
  /\ mediaStreamRef (exec (connect_from None env) s) = mediaStreamRef s.
Proof.
  unfold result, exec. unfold_connect.
  destruct env as [k isus ri osus ro g l]. destruct_hook s.
  cbn [API_KEY inputSuspended resumeInput outputSuspended resumeOutput getUserMedia
       liveConnect]. intros Hk.
  destruct isus, osus; run; cbn; rewrite Hk; cbn;
    (split; [eexists; reflexivity|]); repeat split.
Qed.


Lemma connect_uninterrupted_error (rendered : ConnectionState) (env : ConnectEnv) (s : Hook) :
  rendered = DISCONNECTED \/ rendered = ERROR ->
  truthy (or_else (API_KEY env) []) = true ->
  (inputSuspended env = true -> resumeInput env = Returned tt) ->
  (outputSuspended env = true -> resumeOutput env = Returned tt) ->
  getUserMedia env = Returned tt ->
  liveConnect env = Returned tt ->
  result (connect_uninterrupted rendered env) s = Returned None
  /\ connectionState (exec (connect_uninterrupted rendered env) s) = CONNECTING
  /\ error (exec (connect_uninterrupted rendered env) s) = None.
Proof.
  intros Hr Hk Hi Ho Hg Hl. unfold result, exec, connect_uninterrupted, resume_if.
  rewrite (connect_past_guard rendered env Hr). unfold connect_resume. unfold_connect.
  destruct env as [k isus ri osus ro g l]. destruct_hook s.
  cbn [API_KEY inputSuspended resumeInput outputSuspended resumeOutput getUserMedia
       liveConnect] in *. subst g l.
  destruct isus, osus; try rewrite (Hi eq_refl); try rewrite (Ho eq_refl);
    run; cbn; rewrite Hk; cbn; repeat split.
Qed.

(** C10.  [disconnect] leaves the error cell as it was.  So do the open,
    close, ended and message callbacks, and the error callback stores a
    message.  A [connect] call that gets past its guard with the credential
    sets the error cell to null before its first [await], and the call ends
    with the cell null when nothing interleaves and every promise it awaits
    resolves.  No other operation resets the cell: when an operation ends
    with the error cell null, the cell was null before it or the operation is
    a call of [connect]. *)
Theorem disconnect_keeps_error_connect_resets (s : Hook) :
  error (exec disconnect s) = error s
  /\ (forall rendered env,
      rendered = DISCONNECTED \/ rendered = ERROR ->
      truthy (or_else (API_KEY env) []) = true ->
      error (exec (connect rendered env) s) = None)
  /\ (forall rendered env,
      rendered = DISCONNECTED \/ rendered = ERROR ->
      truthy (or_else (API_KEY env) []) = true ->
      (inputSuspended env = true -> resumeInput env = Returned tt) ->
      (outputSuspended env = true -> resumeOutput env = Returned tt) ->
      getUserMedia env = Returned tt ->
      liveConnect env = Returned tt ->
      error (exec (connect_uninterrupted rendered env) s) = None)
  /\ (forall env m, error (exec (onmessage decodeAudioData env m) s) = error s)
  /\ error (exec onopen s) = error s
  /\ error (exec onclose s) = error s
  /\ (forall h, error (exec (onended h) s) = error s)
  /\ (forall err_message, error (exec (onerror err_message) s) <> None)
  /\ (forall o,
      error (exec (perform decodeAudioData o) s) = None ->
      error s = None \/ exists rendered env, o = Connect rendered env).
Proof.
  assert (Hopen : error (exec onopen s) = error s).
  { destruct_hook s. unfold exec, onopen. run. cbn. destruct ic, ms; reflexivity. }
  split.
  { unfold exec. rewrite disconnect_run. reflexivity. }
  split.
  { intros rendered env Hr Hk. rewrite (connect_past_guard rendered env Hr).
    apply connect_setup_outcome, Hk. }
  split.
  { intros rendered env Hr Hk Hi Ho Hg Hl.
    apply (connect_uninterrupted_error rendered env s Hr Hk Hi Ho Hg Hl). }
  split.
  { intros env m. apply onmessage_returns_error_kept. }
  split; [exact Hopen|].
  split.
  { destruct_hook s. reflexivity. }
  split.
  { intros h. destruct_hook s. reflexivity. }
  split.
  { intros e. destruct_hook s. cbn. discriminate. }
  intros o Ho. destruct o as [rendered env|point env| |c]; cbn [perform] in Ho.
  - right. eauto.
  - rewrite exec_discard in Ho.
    destruct (connect_resume_error point env s) as [H | H]; [left; congruence | contradiction].
  - left. unfold exec in Ho. rewrite disconnect_run in Ho. exact Ho.
  - left. destruct c as [| |e|env m|h]; cbn [fire] in Ho.
    + congruence.
    + destruct_hook s. exact Ho.
    + destruct_hook s. discriminate Ho.
    + rewrite (proj1 (proj2 (onmessage_returns_error_kept env m s))) in Ho. exact Ho.
    + destruct_hook s. exact Ho.
Qed.

End ErrorCell.

(** ** Failure of connect *)

(** C8, the claim at a concrete input.  From the initial state, with access
    to the devices denied: [connect] surfaces the Error state and the
    message, and the two audio contexts and the polling timer it created are
    still held, with no release call made on them. *)
Lemma connect_denied_leaves_contexts_and_timer :
  getUserMedia permission_denied = Thrown (js "Permission denied")
  /\ denied = exec (connect_uninterrupted DISCONNECTED permission_denied) initial
  /\ connectionState denied = ERROR
  /\ error denied = Some (js "Permission denied")
  /\ effects denied
     = [NewAudioContext 0%nat 16000%Z; NewAudioContext 1%nat 24000%Z;
        CreateAnalyser 2%nat; SetInterval 3%nat]
  /\ inputAudioContextRef denied = Some 0%nat
  /\ outputAudioContextRef denied = Some 1%nat
  /\ aiVolumeIntervalRef denied = Some 3%nat
  /\ all_released (effects denied) = false.
Proof. repeat split. Qed.

Lemma released_by_intro (es : list Effect) (e : Effect) :
  match e with
  | NewAudioContext h _ => In (CloseAudioContext h) es
  | SetInterval h => In (ClearInterval h) es
  | GetUserMedia h => In (StopTracks h) es
  | _ => True
  end ->
  released_by es e = true.
Proof.
  destruct e; cbn; try reflexivity; intros H; apply existsb_exists;
    eexists; (split; [exact H | apply Nat.eqb_refl]).
Qed.

(** [disconnect] acquires nothing. *)
Lemma disconnect_calls_released (es : list Effect) (s : Hook) (e : Effect) :
  In e (disconnect_calls s) -> released_by es e = true.
Proof.
  unfold disconnect_calls, stop_calls. rewrite !in_app_iff, in_map_iff.
  destruct (aiVolumeIntervalRef s), (processorRef s), (inputSourceRef s),
    (inputAudioContextRef s), (outputAudioContextRef s), (mediaStreamRef s),
    (sessionPromiseRef s) as [[pid [|]]|]; cbn;
    intros H; decompose [or ex and] H; subst; try reflexivity; try contradiction.
Qed.

(** What the [catch] block makes of a state. *)
Lemma connect_catch_run (message : jsstring) (s : Hook) :
  connect_catch message s
  = (Returned tt,
     set_effects (effects s ++ release StopTracks (mediaStreamRef s))
       (setConnectionState ERROR
          (setError (Some (or_else (Some message)
                             (js "Failed to connect to Gemini Live API"))) s))).
Proof.
  unfold connect_catch. destruct_hook s. destruct ms; run; cbn; rewrite ?app_nil_r;
    reflexivity.
Qed.

(** A continuation whose awaited promise rejected runs the [catch] block
    and nothing else. *)
Lemma connect_resume_rejected (point : Suspended) (env : ConnectEnv) (s : Hook)
      (e : jsstring) :
  awaited point env = Thrown e ->
  connect_resume point env s
  = (Returned None,
     set_effects (effects s ++ release StopTracks (mediaStreamRef s))
       (setConnectionState ERROR
          (setError (Some (or_else (Some e)
                             (js "Failed to connect to Gemini Live API"))) s))).
Proof.
  intros H. unfold connect_resume, connect_from, connect_try. rewrite H.
  unfold try_catch, bind at 1 2. unfold await, throw. unfold bind.
  rewrite connect_catch_run. reflexivity.
Qed.

(** C8, as the code has it.  When the promise a [connect] call waits for
    rejects (the resuming of a context, the device acquisition or the
    session open), the continuation returns with the Error state and the
    message set, and its only call stops the tracks of the media stream held
    in the stream cell.  It changes no other cell and releases nothing else:
    the audio contexts and the timer stay in their cells, and a [disconnect]
    that finds them there releases them. *)
Theorem connect_failure_stops_tracks
        (point : Suspended) (env : ConnectEnv) (s : Hook) (e : jsstring) :
  awaited point env = Thrown e ->
  let s' := exec (connect_resume point env) s in
  result (connect_resume point env) s = Returned None
  /\ connectionState s' = ERROR
  /\ error s' = Some (or_else (Some e) (js "Failed to connect to Gemini Live API"))
  /\ calls_of (connect_resume point env) s = release StopTracks (mediaStreamRef s)
  /\ s' = set_effects (effects s')
            (setConnectionState ERROR (setError (error s') s))
  /\ inputAudioContextRef s' = inputAudioContextRef s
  /\ outputAudioContextRef s' = outputAudioContextRef s
  /\ aiVolumeIntervalRef s' = aiVolumeIntervalRef s
  /\ mediaStreamRef s' = mediaStreamRef s
  /\ (forall h,
      inputAudioContextRef s = Some h \/ outputAudioContextRef s = Some h ->
      ~ In (CloseAudioContext h) (calls_of (connect_resume point env) s)
      /\ In (CloseAudioContext h) (calls_of disconnect s'))
  /\ (forall h,
      aiVolumeIntervalRef s = Some h ->
      ~ In (ClearInterval h) (calls_of (connect_resume point env) s)
      /\ In (ClearInterval h) (calls_of disconnect s')).
Proof.
  intros H s'.
  assert (Hs : s' = set_effects (effects s ++ release StopTracks (mediaStreamRef s))
                      (setConnectionState ERROR
                         (setError (Some (or_else (Some e)
                            (js "Failed to connect to Gemini Live API"))) s))).
  { unfold s', exec. rewrite (connect_resume_rejected point env s e H). reflexivity. }
  assert (Hc : calls_of (connect_resume point env) s = release StopTracks (mediaStreamRef s)).
  { apply calls_of_app. fold s'. rewrite Hs. destruct_hook s. reflexivity. }
  split.
  { unfold result. rewrite (connect_resume_rejected point env s e H). reflexivity. }
  split; [rewrite Hs; destruct_hook s; reflexivity|].
  split; [rewrite Hs; destruct_hook s; reflexivity|].
  split; [exact Hc|].
  split; [rewrite Hs; destruct_hook s; reflexivity|].
  split; [rewrite Hs; destruct_hook s; reflexivity|].
  split; [rewrite Hs; destruct_hook s; reflexivity|].
  split; [rewrite Hs; destruct_hook s; reflexivity|].
  split; [rewrite Hs; destruct_hook s; reflexivity|].
  rewrite Hc, calls_of_disconnect.
  destruct (disconnect_calls_release s') as (Hi & Ho & Ht & _).
  split.
  - intros h Hh. split.
    + destruct (mediaStreamRef s); cbn; intros Hin; [destruct Hin as [Hin | []]|];
        try discriminate Hin; contradiction.
    + rewrite Hs in Hi, Ho |- *. destruct_hook s. cbn in *.
      destruct Hh as [Hh | Hh]; [apply Hi | apply Ho]; exact Hh.
  - intros h Hh. split.
    + destruct (mediaStreamRef s); cbn; intros Hin; [destruct Hin as [Hin | []]|];
        try discriminate Hin; contradiction.
    + rewrite Hs in Ht |- *. destruct_hook s. cbn in *. apply Ht, Hh.
Qed.

Lemma connect_failure_stops_tracks_witness :
  awaited AwaitSession session_refused = Thrown (js "refused")
  /\ connectionState (exec (connect_resume AwaitSession session_refused) awaiting_refusal)
     = ERROR
  /\ calls_of (connect_resume AwaitSession session_refused) awaiting_refusal
     = [StopTracks 4%nat].
Proof.
  assert (H : awaited AwaitSession session_refused = Thrown (js "refused")) by reflexivity.
  split; [exact H|].
  destruct (connect_failure_stops_tracks AwaitSession session_refused awaiting_refusal
              (js "refused") H) as (_ & Hs & _ & Hc & _).
  split; [exact Hs | exact Hc].
Defined.

(** ** The inbound-message handler *)

Section Scheduler.

Variable decodeAudioData : jsstring -> option Q.

Ltac unfold_onmessage :=
  unfold onmessage, handle_audio, handle_interruption,
    handle_transcription, handle_turn_complete, schedule_chunk.

Lemma onmessage_turn_complete (env : MessageEnv) (m : LiveServerMessage) (s : Hook) :
  turnComplete m = true ->
  result (onmessage decodeAudioData env m) s = Returned tt
  /\ transcript (exec (onmessage decodeAudioData env m) s)
     = transcript s
       ++ committed_items env
            (trim (currentInputRef s ++ fragment (inputTranscription m)))
            (trim (currentOutputRef s ++ fragment (outputTranscription m)))
  /\ currentInputRef (exec (onmessage decodeAudioData env m) s) = []
  /\ currentOutputRef (exec (onmessage decodeAudioData env m) s) = [].
Proof.
  unfold result, exec. unfold_onmessage.
  destruct_hook s. destruct m as [[[|c b]|] [|] it ot tc]; cbn; intros ->;
    destruct oc; run; cbn;
    try destruct (decodeAudioData (c :: b)); cbn;
    rewrite ?forEach_source_stop; cbn;
    destruct it, ot; cbn; rewrite ?app_nil_r;
    match goal with
    | |- context [committed_items _ ?u ?a] => destruct u, a
    end; cbn; rewrite ?app_nil_r; repeat split.
Qed.

(** C3.  At a turn-complete, with the accumulators as the commit reads them:
    an empty trimmed user accumulator and a trimmed remote accumulator
    "Hello" append exactly the item (remote, "Hello"); two empty trimmed
    accumulators append nothing; two non-empty ones append the user item and
    then the remote item, each stamped with the clock reading taken for it;
    both accumulators are empty afterwards in every case. *)
Theorem turn_complete_commit (env : MessageEnv) (m : LiveServerMessage) (s : Hook) :
  turnComplete m = true ->
  let userText := trim (currentInputRef s ++ fragment (inputTranscription m)) in
  let aiText := trim (currentOutputRef s ++ fragment (outputTranscription m)) in
  let s' := exec (onmessage decodeAudioData env m) s in
  result (onmessage decodeAudioData env m) s = Returned tt
  /\ (userText = [] -> aiText = js "Hello" ->
      transcript s' = transcript s ++ [MkItem ai (js "Hello") (dateNowAi env)])
  /\ (userText = [] -> aiText = [] -> transcript s' = transcript s)
  /\ (userText <> [] -> aiText <> [] ->
      transcript s'
      = transcript s ++ [MkItem user userText (dateNowUser env);
                         MkItem ai aiText (dateNowAi env)])
  /\ currentInputRef s' = []
  /\ currentOutputRef s' = [].
Proof.
  intros Htc userText aiText s'.
  destruct (onmessage_turn_complete env m s Htc) as (Hr & Ht & Hi & Ho).
  fold userText aiText s' in Ht. fold s' in Hi, Ho.
  split; [exact Hr|]. split.
  { intros Hu Ha. rewrite Ht, Hu, Ha. reflexivity. }
  split.
  { intros Hu Ha. rewrite Ht, Hu, Ha. apply app_nil_r. }
  split.
  { intros Hu Ha. rewrite Ht. destruct userText, aiText; try congruence. reflexivity. }
  split; assumption.
Qed.

(** *** One decodable chunk *)

Lemma onmessage_chunk (env : MessageEnv) (m : LiveServerMessage) (s : Hook)
      (d : Q) (ctx : handle) :
  chunk_duration decodeAudioData m = Some d ->
  outputAudioContextRef s = Some ctx ->
  let startAt := Qmax (nextStartTimeRef s) (currentTime env) in
  let s' := exec (onmessage decodeAudioData env m) s in
  result (onmessage decodeAudioData env m) s = Returned tt
  /\ effects s' = effects s ++ [SourceStart (nextHandle s) startAt d]
  /\ nextStartTimeRef s' = number_add startAt d
  /\ nextHandle s' = S (nextHandle s)
  /\ scheduledSourcesRef s'
     = set_add (MkSource (nextHandle s) startAt d) (scheduledSourcesRef s)
  /\ outputAudioContextRef s' = Some ctx.
Proof.
  unfold chunk_duration, result, exec. unfold_onmessage.
  destruct_hook s. destruct m as [[[|c b]|] [|] it ot tc]; cbn;
    try discriminate; intros Hd ->; run; cbn; rewrite Hd; cbn;
    destruct it, ot, tc; cbn;
    try match goal with |- context [if ?b then _ else _] => destruct b end; cbn;
    repeat split.
Qed.

(** *** A sequence of decodable chunks *)

Lemma onmessages_chunks (inbound : list (MessageEnv * LiveServerMessage))
      (arrivals : list (Q * Q)) :
  chunks_arriving decodeAudioData inbound arrivals ->
  forall (s : Hook) (ctx : handle),
  outputAudioContextRef s = Some ctx ->
  result (onmessages decodeAudioData inbound) s = Returned tt
  /\ effects (exec (onmessages decodeAudioData inbound) s)
     = effects s ++ chunk_calls (nextHandle s) (nextStartTimeRef s) arrivals.
Proof.
  induction 1 as [|[env m] [now d] inbound arrivals [Hnow Hd] _ IH]; intros s ctx Hctx.
  - cbn. rewrite app_nil_r. split; reflexivity.
  - cbn in Hnow, Hd. subst now.
    destruct (onmessage_chunk env m s d ctx Hd Hctx) as (Hr & He & Hn & Hh & _ & Hc).
    unfold result, exec in *. cbn [onmessages]. unfold bind.
    destruct (onmessage decodeAudioData env m s) as [r s1]. cbn [fst snd] in *. subst r.
    destruct (IH s1 ctx Hc) as (Hr' & He').
    split; [exact Hr'|]. rewrite He', He, Hn, Hh, <- app_assoc. reflexivity.
Qed.

Lemma chunk_calls_adjacent (arrivals : list (Q * Q)) :
  forall (h : handle) (cursor : Q) (i : nat) (t d t' d' : Q),
  nth_error (started (chunk_calls h cursor arrivals)) i = Some (t, d) ->
  nth_error (started (chunk_calls h cursor arrivals)) (S i) = Some (t', d') ->
  number_add t d <= t'
  /\ (forall now', nth_error (map fst arrivals) (S i) = Some now' ->
                   now' <= number_add t d -> t' == number_add t d).
Proof.
  induction arrivals as [|[now0 d0] rest IH]; intros h cursor i t d t' d' Hi Hi'.
  - destruct i; discriminate Hi.
  - destruct i as [|i].
    + destruct rest as [|[now1 d1] rest]; [discriminate Hi'|].
      cbn in Hi, Hi'. inversion Hi; subst. inversion Hi'; subst. split.
      * apply Q.le_max_l.
      * intros now' Hnow Hle. cbn in Hnow. inversion Hnow; subst.
        apply Q.max_l, Hle.
    + cbn in Hi, Hi'. destruct (IH _ _ _ _ _ _ _ Hi Hi') as [H1 H2].
      split; [exact H1|]. intros now' Hnow. apply H2. exact Hnow.
Qed.

Lemma started_chunk_calls_durations (arrivals : list (Q * Q)) :
  forall (h : handle) (cursor : Q),
  map snd (started (chunk_calls h cursor arrivals)) = map snd arrivals.
Proof.
  induction arrivals as [|[now0 d0] rest IH]; intros h cursor; [reflexivity|].
  cbn. f_equal. apply IH.
Qed.

(** With a cursor and clock readings that are doubles, every start time is
    one. *)
Lemma chunk_calls_doubles (arrivals : list (Q * Q)) :
  forall (h : handle) (cursor : Q) (i : nat) (t d : Q),
  is_double cursor ->
  Forall (fun a => is_double (fst a)) arrivals ->
  nth_error (started (chunk_calls h cursor arrivals)) i = Some (t, d) ->
  is_double t.
Proof.
  induction arrivals as [|[now0 d0] rest IH]; intros h cursor i t d Hc Ha Hi.
  - destruct i; discriminate Hi.
  - inversion Ha as [|a l Hnow Hrest]; subst. cbn in Hnow. destruct i as [|i].
    + cbn in Hi. inversion Hi; subst. apply is_double_Qmax; assumption.
    + cbn in Hi. apply (IH _ _ _ _ _ (number_add_is_double _ _) Hrest Hi).
Qed.

(** C1, as the code has it.  A sequence of inbound messages that each bring
    a decodable chunk (and no interruption), handled while the output
    context is open: the handler returns for each and makes one [start] call
    per chunk, in arrival order and with the chunk's duration.  For
    consecutive units i and i+1, the start of unit i+1 is at least the sum,
    as the language computes it, of the start of unit i and its duration,
    and it is that sum when chunk i+1 arrives without a stall, the clock not
    past it; the sum is the exact one whenever the exact one is a double.
    When the cursor and the clock readings are doubles, every start time is
    a double, and the start times are non-decreasing for durations that are
    not negative. *)
Theorem chunks_scheduled_back_to_back
  (inbound : list (MessageEnv * LiveServerMessage)) (arrivals : list (Q * Q))
  (s : Hook) (ctx : handle) :
  chunks_arriving decodeAudioData inbound arrivals ->
  outputAudioContextRef s = Some ctx ->
  let units := started (calls_of (onmessages decodeAudioData inbound) s) in
  result (onmessages decodeAudioData inbound) s = Returned tt
  /\ map snd units = map snd arrivals
  /\ (forall i t d t' d',
      nth_error units i = Some (t, d) ->
      nth_error units (S i) = Some (t', d') ->
      number_add t d <= t'
      /\ (forall now', nth_error (map fst arrivals) (S i) = Some now' ->
                       now' <= number_add t d -> t' == number_add t d)
      /\ (is_double (t + d) -> number_add t d == t + d))
  /\ (is_double (nextStartTimeRef s) ->
      Forall (fun a => is_double (fst a)) arrivals ->
      (forall i t d, nth_error units i = Some (t, d) -> is_double t)
      /\ (forall i t d t' d',
          nth_error units i = Some (t, d) ->
          nth_error units (S i) = Some (t', d') ->
          0 <= d -> t <= t')).
Proof.
  intros Hin Hctx units.
  destruct (onmessages_chunks inbound arrivals Hin s ctx Hctx) as [Hr He].
  assert (Hu : units = started (chunk_calls (nextHandle s) (nextStartTimeRef s) arrivals)).
  { unfold units. rewrite (calls_of_app _ s _ He). reflexivity. }
  split; [exact Hr|]. split.
  { rewrite Hu. apply started_chunk_calls_durations. }
  split.
  { intros i t d t' d' Hi Hi'. rewrite Hu in Hi, Hi'.
    destruct (chunk_calls_adjacent arrivals _ _ _ _ _ _ _ Hi Hi') as [H1 H2].
    split; [exact H1|]. split; [exact H2|].
    intros Hd. apply number_add_exact, Hd. }
  intros Hc Ha.
  assert (Hdbl : forall i t d, nth_error units i = Some (t, d) -> is_double t).
  { intros i t d Hi. rewrite Hu in Hi.
    apply (chunk_calls_doubles arrivals _ _ _ _ _ Hc Ha Hi). }
  split; [exact Hdbl|].
  intros i t d t' d' Hi Hi' Hd.
  pose proof (Hdbl i t d Hi) as Ht. rewrite Hu in Hi, Hi'.
  destruct (chunk_calls_adjacent arrivals _ _ _ _ _ _ _ Hi Hi') as [H1 _].
  apply (Qle_trans _ (number_add t d)); [|exact H1].
  apply number_add_increasing; assumption.
Qed.

(** *** Interruption *)

Lemma set_add_keeps (x u : SourceNode) (l : list SourceNode) :
  In u l -> In u (set_add x l).
Proof.
  intros H. unfold set_add. destruct (set_has (src_id x) l); [exact H|].
  apply in_or_app. left. exact H.
Qed.

Lemma set_add_holds (x : SourceNode) (l : list SourceNode) :
  exists u, In u (set_add x l) /\ src_id u = src_id x.
Proof.
  unfold set_add. destruct (set_has (src_id x) l) eqn:E.
  - unfold set_has in E. apply existsb_exists in E. destruct E as (u & Hu & He).
    exists u. split; [exact Hu|]. apply Nat.eqb_eq, He.
  - exists x. split; [|reflexivity]. apply in_or_app. right. left. reflexivity.
Qed.

Lemma onmessage_interrupted (env : MessageEnv) (m : LiveServerMessage) (s : Hook) :
  interrupted m = true ->
  exists (starts : list Effect) (live : list SourceNode),
    result (onmessage decodeAudioData env m) s = Returned tt
    /\ effects (exec (onmessage decodeAudioData env m) s)
       = effects s ++ starts ++ stop_calls live
    /\ scheduledSourcesRef (exec (onmessage decodeAudioData env m) s) = []
    /\ nextStartTimeRef (exec (onmessage decodeAudioData env m) s) = 0
    /\ (forall u, In u (scheduledSourcesRef s) -> In u live)
    /\ (forall h t d, In (SourceStart h t d) starts ->
                      exists u, In u live /\ src_id u = h)
    /\ (forall b d ctx,
        inlineData m = Some b -> truthy b = true -> decodeAudioData b = Some d ->
        outputAudioContextRef s = Some ctx ->
        starts = [SourceStart (nextHandle s)
                    (Qmax (nextStartTimeRef s) (currentTime env)) d]).
Proof.
  unfold result, exec. unfold_onmessage.
  destruct_hook s. destruct m as [[[|c b]|] i it ot tc]; cbn; intros ->;
    destruct oc; run; cbn [inlineData interrupted outputAudioContextRef truthy];
    match goal with
    | |- context [decodeAudioData ?x] => destruct (decodeAudioData x) as [d0|] eqn:Hd
    | _ => idtac
    end;
    match goal with
    | Hd : decodeAudioData _ = Some ?d |- _ =>
        exists [SourceStart nh (Qmax ns (currentTime env)) d],
               (set_add (MkSource nh (Qmax ns (currentTime env)) d) ss)
    | _ => exists [], ss
    end;
    cbn; rewrite ?forEach_source_stop; cbn;
    destruct it, ot, tc; cbn;
    try match goal with |- context [if truthy ?u || ?v then _ else _] =>
          destruct (truthy u || v) end; cbn;
    (split; [reflexivity|]);
    (split; [rewrite <- ?app_assoc; reflexivity|]);
    (split; [reflexivity|]); (split; [reflexivity|]);
    (split; [intros u Hu; first [exact Hu | apply set_add_keeps, Hu]|]);
    try (split; [intros hx tx dx [H|[]]; inversion H; subst;
                 apply (set_add_holds (MkSource _ _ _)) | ]);
    try (split; [intros hx tx dx []|]);
    intros b' d' ctx' Hb Ht Hd' Hc; try discriminate;
    try (inversion Hb; subst; cbn in Ht; try discriminate; congruence).
Qed.

(** The handler leaves the device cells, the connection state, the error
    and the volume readouts as they were. *)
Lemma onmessage_keeps_device_cells (env : MessageEnv) (m : LiveServerMessage) (s : Hook) :
  let s' := exec (onmessage decodeAudioData env m) s in
  connectionState s' = connectionState s
  /\ error s' = error s
  /\ volume s' = volume s
  /\ aiVolume s' = aiVolume s
  /\ inputAudioContextRef s' = inputAudioContextRef s
  /\ outputAudioContextRef s' = outputAudioContextRef s
  /\ mediaStreamRef s' = mediaStreamRef s
  /\ inputSourceRef s' = inputSourceRef s
  /\ processorRef s' = processorRef s
  /\ outputAnalyzerRef s' = outputAnalyzerRef s
  /\ sessionPromiseRef s' = sessionPromiseRef s
  /\ aiVolumeIntervalRef s' = aiVolumeIntervalRef s.
Proof.
  unfold exec. unfold_onmessage.
  destruct_hook s. destruct m as [[[|c b]|] [|] it ot tc]; destruct oc; run; cbn;
    try destruct (decodeAudioData (c :: b)); cbn;
    rewrite ?forEach_source_stop; cbn;
    destruct it, ot, tc; cbn;
    try match goal with |- context [if ?b then _ else _] => destruct b end; cbn;
    repeat split.
Qed.

Lemma Qmax_zero_clock (now : Q) : 0 <= now -> Qmax 0 now == now.
Proof. intros H. apply Q.max_r, H. Qed.

Lemma Qmax_clamped (cursor now later : Q) :
  now <= later -> Qmax (Qmax cursor now) later == Qmax cursor later.
Proof.
  intros H.
  destruct (Q.max_spec cursor now) as [[H1 E1] | [H1 E1]];
    destruct (Q.max_spec (Qmax cursor now) later) as [[H2 E2] | [H2 E2]];
    destruct (Q.max_spec cursor later) as [[H3 E3] | [H3 E3]];
    rewrite E2, ?E3; rewrite ?E1 in *; try reflexivity; try lra.
Qed.

(** C2.  A message with the interrupted flag: the handler returns, every
    unit that was in the live-units set gets a [stop] call, the set is left
    empty and the cursor is 0; the next chunk, whatever the cursor was before
    the interruption, is started at the output clock reading taken for it. *)
Theorem interruption_flushes_and_resets (env : MessageEnv) (m : LiveServerMessage)
        (s : Hook) :
  interrupted m = true ->
  let s' := exec (onmessage decodeAudioData env m) s in
  result (onmessage decodeAudioData env m) s = Returned tt
  /\ (forall u, In u (scheduledSourcesRef s) ->
       In (SourceStop (src_id u)) (calls_of (onmessage decodeAudioData env m) s))
  /\ scheduledSourcesRef s' = []
  /\ nextStartTimeRef s' = 0
  /\ (forall env' m' d ctx,
      chunk_duration decodeAudioData m' = Some d ->
      outputAudioContextRef s = Some ctx ->
      0 <= currentTime env' ->
      exists t,
        calls_of (onmessage decodeAudioData env' m') s' = [SourceStart (nextHandle s') t d]
        /\ t == currentTime env').
Proof.
  intros Hi s'.
  destruct (onmessage_interrupted env m s Hi)
    as (starts & live & Hr & He & Hs & Hn & Hlive & _ & _).
  fold s' in He, Hs, Hn.
  split; [exact Hr|]. split.
  { intros u Hu. rewrite (calls_of_app _ s _ He).
    apply in_or_app. right. apply stop_calls_In, Hlive, Hu. }
  split; [exact Hs|]. split; [exact Hn|].
  intros env' m' d ctx Hd Hctx Hnow.
  assert (Hctx' : outputAudioContextRef s' = Some ctx).
  { destruct (onmessage_keeps_device_cells env m s) as (_ & _ & _ & _ & _ & H & _).
    unfold s'. rewrite H. exact Hctx. }
  destruct (onmessage_chunk env' m' s' d ctx Hd Hctx') as (_ & He' & _).
  exists (Qmax (nextStartTimeRef s') (currentTime env')). split.
  - apply calls_of_app. exact He'.
  - rewrite Hn. apply Qmax_zero_clock, Hnow.
Qed.

(** C9.  A message that carries an audio chunk together with the
    interrupted flag: the handler returns with the live-units set empty and
    the cursor at 0; when the chunk is scheduled, its [start] call comes
    first and the [stop] calls of the interruption follow, one of them on the
    unit just started. *)
Theorem chunk_with_interrupt_is_flushed (env : MessageEnv) (m : LiveServerMessage)
        (s : Hook) (b : jsstring) :
  inlineData m = Some b ->
  interrupted m = true ->
  let s' := exec (onmessage decodeAudioData env m) s in
  result (onmessage decodeAudioData env m) s = Returned tt
  /\ scheduledSourcesRef s' = []
  /\ nextStartTimeRef s' = 0
  /\ (forall d ctx,
      truthy b = true -> decodeAudioData b = Some d ->
      outputAudioContextRef s = Some ctx ->
      exists live,
        calls_of (onmessage decodeAudioData env m) s
        = SourceStart (nextHandle s) (Qmax (nextStartTimeRef s) (currentTime env)) d
          :: stop_calls live
        /\ In (SourceStop (nextHandle s)) (stop_calls live)).
Proof.
  intros Hb Hi s'.
  destruct (onmessage_interrupted env m s Hi)
    as (starts & live & Hr & He & Hs & Hn & _ & Hflush & Hstart).
  fold s' in He, Hs, Hn.
  split; [exact Hr|]. split; [exact Hs|]. split; [exact Hn|].
  intros d ctx Ht Hd Hctx. exists live.
  rewrite (Hstart b d ctx Hb Ht Hd Hctx) in He, Hflush.
  split.
  - apply calls_of_app. exact He.
  - destruct (Hflush _ _ _ (or_introl eq_refl)) as (u & Hu & Hid).
    rewrite <- Hid. apply stop_calls_In, Hu.
Qed.

(** C7.  A message whose audio chunk fails to decode: the handler returns,
    the connection state and the session cell are as before, and the final
    state is the one the same message without the chunk leads to, the cursor
    apart: same live-units set, same calls, so no [start] and no release for
    the failed chunk.  The cursor itself gives every later chunk, read at a
    clock value not before this one, the start time it would have had
    without the failed chunk. *)
Theorem undecodable_chunk_is_dropped (env : MessageEnv) (m : LiveServerMessage)
        (s : Hook) (b : jsstring) (ctx : handle) :
  inlineData m = Some b ->
  truthy b = true ->
  decodeAudioData b = None ->
  outputAudioContextRef s = Some ctx ->
  let s' := exec (onmessage decodeAudioData env m) s in
  let s0 := exec (onmessage decodeAudioData env (without_audio m)) s in
  result (onmessage decodeAudioData env m) s = Returned tt
  /\ connectionState s' = connectionState s
  /\ sessionPromiseRef s' = sessionPromiseRef s
  /\ scheduledSourcesRef s' = scheduledSourcesRef s0
  /\ effects s' = effects s0
  /\ s' = set_nextStartTimeRef (nextStartTimeRef s') s0
  /\ (interrupted m = false ->
      scheduledSourcesRef s' = scheduledSourcesRef s /\ effects s' = effects s)
  /\ (forall later, currentTime env <= later ->
      Qmax (nextStartTimeRef s') later == Qmax (nextStartTimeRef s0) later).
Proof.
  unfold result, exec, without_audio. unfold_onmessage.
  destruct_hook s. destruct m as [[b'|] i it ot tc]; cbn; try discriminate.
  intros Hb Ht Hd ->. inversion Hb; subst b'. destruct b as [|c b]; [discriminate Ht|].
  run; cbn. rewrite Hd. cbn.
  destruct i; cbn; rewrite ?forEach_source_stop; cbn;
    destruct it, ot, tc; cbn;
    try match goal with |- context [if truthy ?u || ?v then _ else _] =>
          destruct (truthy u || v) end; cbn;
    repeat (split; [reflexivity|]);
    (split; [intros Hf; first [discriminate Hf | split; reflexivity]|]);
    intros later Hl; first [reflexivity | apply Qmax_clamped, Hl].
Qed.

End Scheduler.

(** C1, the claim at a concrete input.  Two chunks of 1.0 s and 0.5 s
    arrive back to back when the output clock stands at 256 frames: the
    second unit is started before the first one ends, by the rounding of the
    sum, and so not exactly 1.0 s after the start of the first. *)
Lemma second_chunk_starts_before_first_ends :
  chunks_arriving sample_decoder
    [(at_clock clock_256_frames, audio_message "AAAA");
     (at_clock clock_256_frames, audio_message "BBBB")]
    [(clock_256_frames, 1); (clock_256_frames, 1 # 2)]
  /\ clock_256_frames = 6148914691236517 # 576460752303423488
  /\ started (calls_of (onmessages sample_decoder
                [(at_clock clock_256_frames, audio_message "AAAA");
                 (at_clock clock_256_frames, audio_message "BBBB")]) connected)
     = [(clock_256_frames, 1); (4551638023395781 # 4503599627370496, 1 # 2)]
  /\ (4551638023395781 # 4503599627370496) < clock_256_frames + 1
  /\ ~ (4551638023395781 # 4503599627370496) == clock_256_frames + 1.
Proof.
  split; [repeat constructor|].
  split; [vm_compute; reflexivity|].
  split; [vm_compute; reflexivity|].
  split; [vm_compute; reflexivity|].
  vm_compute. discriminate.
Qed.


(** ** The properties at concrete inputs *)


Lemma turn_complete_commit_witness :
  turnComplete (final_fragment " Hello ") = true
  /\ transcript (exec (onmessage sample_decoder (at_clock 1) (final_fragment " Hello "))
                      connected)
     = [MkItem ai (js "Hello") 1700000000001].
Proof.
  assert (H : turnComplete (final_fragment " Hello ") = true) by reflexivity.
  split; [exact H|].
  destruct (turn_complete_commit sample_decoder (at_clock 1) (final_fragment " Hello ")
              connected H) as (_ & Hremote & _).
  apply Hremote; reflexivity.
Defined.

Lemma chunks_scheduled_back_to_back_witness :
  chunks_arriving sample_decoder
    [(at_clock clock_256_frames, audio_message "AAAA");
     (at_clock clock_256_frames, audio_message "BBBB")]
    [(clock_256_frames, 1); (clock_256_frames, 1 # 2)]
  /\ outputAudioContextRef connected = Some 1%nat
  /\ (4551638023395781 # 4503599627370496) == number_add clock_256_frames 1
  /\ clock_256_frames <= (4551638023395781 # 4503599627370496).
Proof.
  assert (H1 : chunks_arriving sample_decoder
    [(at_clock clock_256_frames, audio_message "AAAA");
     (at_clock clock_256_frames, audio_message "BBBB")]
    [(clock_256_frames, 1); (clock_256_frames, 1 # 2)]).
  { repeat constructor. }
  assert (H2 : outputAudioContextRef connected = Some 1%nat) by reflexivity.
  assert (H3 : is_double (nextStartTimeRef connected)) by (vm_compute; reflexivity).
  assert (H4 : Forall (fun a : Q * Q => is_double (fst a))
                 [(clock_256_frames, 1); (clock_256_frames, 1 # 2)]).
  { repeat constructor; vm_compute; reflexivity. }
  split; [exact H1|]. split; [exact H2|].
  destruct (chunks_scheduled_back_to_back sample_decoder _ _ connected 1%nat H1 H2)
    as (_ & _ & Hadj & Hmono).
  assert (E1 : nth_error
                 (started (calls_of (onmessages sample_decoder
                    [(at_clock clock_256_frames, audio_message "AAAA");
                     (at_clock clock_256_frames, audio_message "BBBB")]) connected))
                 0%nat = Some (clock_256_frames, 1)) by (vm_compute; reflexivity).
  assert (E2 : nth_error
                 (started (calls_of (onmessages sample_decoder
                    [(at_clock clock_256_frames, audio_message "AAAA");
                     (at_clock clock_256_frames, audio_message "BBBB")]) connected))
                 1%nat = Some (4551638023395781 # 4503599627370496, 1 # 2))
    by (vm_compute; reflexivity).
  split.
  - destruct (Hadj 0%nat _ _ _ _ E1 E2) as (_ & Hgap & _).
    apply (Hgap clock_256_frames); [reflexivity | vm_compute; discriminate].
  - destruct (Hmono H3 H4) as [_ Hle].
    apply (Hle 0%nat _ _ _ _ E1 E2). discriminate.
Defined.

(** The scenario of two chunks of 1.0 s and 0.5 s arriving back to back
    when the output clock stands at 0.25 s: the sum is a double, and the
    second unit starts exactly 1.0 s after the first. *)
Example two_chunks_from_a_quarter_second :
  started (calls_of (onmessages sample_decoder
             [(at_clock (1 # 4), audio_message "AAAA");
              (at_clock (1 # 2), audio_message "BBBB")]) connected)
  = [(1 # 4, 1); (5 # 4, 1 # 2)].
Proof. reflexivity. Qed.

Lemma interruption_flushes_and_resets_witness :
  interrupted interrupt_message = true
  /\ scheduledSourcesRef playing <> []
  /\ scheduledSourcesRef
       (exec (onmessage sample_decoder (at_clock (1 # 2)) interrupt_message) playing) = []
  /\ nextStartTimeRef
       (exec (onmessage sample_decoder (at_clock (1 # 2)) interrupt_message) playing) = 0.
Proof.
  assert (H : interrupted interrupt_message = true) by reflexivity.
  split; [exact H|]. split; [discriminate|].
  destruct (interruption_flushes_and_resets sample_decoder (at_clock (1 # 2))
              interrupt_message playing H) as (_ & _ & Hs & Hn & _).
  split; [exact Hs | exact Hn].
Defined.

Lemma chunk_with_interrupt_is_flushed_witness :
  inlineData (audio_interrupt_message "BBBB") = Some (js "BBBB")
  /\ interrupted (audio_interrupt_message "BBBB") = true
  /\ scheduledSourcesRef
       (exec (onmessage sample_decoder (at_clock (1 # 2)) (audio_interrupt_message "BBBB"))
             playing) = [].
Proof.
  assert (H1 : inlineData (audio_interrupt_message "BBBB") = Some (js "BBBB"))
    by reflexivity.
  assert (H2 : interrupted (audio_interrupt_message "BBBB") = true) by reflexivity.
  split; [exact H1|]. split; [exact H2|].
  apply (chunk_with_interrupt_is_flushed sample_decoder (at_clock (1 # 2))
           (audio_interrupt_message "BBBB") playing (js "BBBB") H1 H2).
Defined.

Lemma undecodable_chunk_is_dropped_witness :
  inlineData (audio_message "????") = Some (js "????")
  /\ truthy (js "????") = true
  /\ sample_decoder (js "????") = None
  /\ outputAudioContextRef playing = Some 1%nat
  /\ scheduledSourcesRef
       (exec (onmessage sample_decoder (at_clock (1 # 2)) (audio_message "????")) playing)
     = scheduledSourcesRef playing.
Proof.
  assert (H1 : inlineData (audio_message "????") = Some (js "????")) by reflexivity.
  assert (H2 : truthy (js "????") = true) by reflexivity.
  assert (H3 : sample_decoder (js "????") = None) by reflexivity.
  assert (H4 : outputAudioContextRef playing = Some 1%nat) by reflexivity.
  split; [exact H1|]. split; [exact H2|]. split; [exact H3|]. split; [exact H4|].
  destruct (undecodable_chunk_is_dropped sample_decoder (at_clock (1 # 2))
              (audio_message "????") playing (js "????") 1%nat H1 H2 H3 H4)
    as (_ & _ & _ & _ & _ & _ & Hkeep & _).
  apply Hkeep. reflexivity.
Defined.


(** * Further properties of the hook *)

(** ** Callbacks *)

Section Callbacks.

Variable decodeAudioData : jsstring -> option Q.

Lemma stop_calls_acquire_nothing (l : list SourceNode) :
  Forall (fun e => acquires e = false) (stop_calls l).
Proof. induction l as [|a r IH]; constructor; [reflexivity | exact IH]. Qed.

Ltac acquire_nothing :=
  repeat first [ apply stop_calls_acquire_nothing
               | apply Forall_nil
               | apply Forall_cons; [reflexivity|]
               | apply Forall_app; split ].

(** What a callback never does: it never throws, it acquires no device, and
    it leaves the four device cells as they were. *)
Lemma fire_keeps_devices (c : Callback) (s : Hook) :
  result (fire decodeAudioData c) s = Returned tt
  /\ inputAudioContextRef (exec (fire decodeAudioData c) s) = inputAudioContextRef s
  /\ outputAudioContextRef (exec (fire decodeAudioData c) s) = outputAudioContextRef s
  /\ mediaStreamRef (exec (fire decodeAudioData c) s) = mediaStreamRef s
  /\ aiVolumeIntervalRef (exec (fire decodeAudioData c) s) = aiVolumeIntervalRef s
  /\ exists calls,
      effects (exec (fire decodeAudioData c) s) = effects s ++ calls
      /\ Forall (fun e => acquires e = false) calls.
Proof.
  unfold result, exec. destruct c as [| |e|env m|h]; cbn [fire].
  - unfold onopen. destruct_hook s. destruct ic, ms; run; cbn;
      repeat (split; [reflexivity|]); frame_calls; acquire_nothing.
  - destruct_hook s. cbn. repeat (split; [reflexivity|]). frame_calls; acquire_nothing.
  - destruct_hook s. cbn. repeat (split; [reflexivity|]). frame_calls; acquire_nothing.
  - unfold onmessage, handle_audio, handle_interruption,
      handle_transcription, handle_turn_complete, schedule_chunk.
    destruct_hook s. destruct m as [[[|c b]|] [|] it ot tc]; destruct oc; run; cbn;
      try destruct (decodeAudioData (c :: b)); cbn;
      rewrite ?forEach_source_stop; cbn;
      destruct it, ot, tc; cbn;
      try match goal with |- context [if truthy ?u || ?v then _ else _] =>
            destruct (truthy u || v) end; cbn;
      repeat (split; [reflexivity|]); frame_calls; acquire_nothing.
  - destruct_hook s. cbn. repeat (split; [reflexivity|]). frame_calls; acquire_nothing.
Qed.

End Callbacks.


(** ** Runs of operations *)

Section Runs.

Variable decodeAudioData : jsstring -> option Q.

Lemma perform_returns (o : Operation) (s : Hook) :
  result (perform decodeAudioData o) s = Returned tt.
Proof.
  destruct o as [rendered env|point env| |c]; cbn [perform].
  - destruct (connect_returns rendered env s) as [k H]. apply (result_discard _ _ _ H).
  - destruct (connect_resume_returns point env s) as [k H]. apply (result_discard _ _ _ H).
  - unfold result. rewrite disconnect_run. reflexivity.
  - apply fire_keeps_devices.
Qed.

Lemma perform_all_cons (o : Operation) (ops : list Operation) (s : Hook) :
  perform_all decodeAudioData (o :: ops) s
  = perform_all decodeAudioData ops (exec (perform decodeAudioData o) s).
Proof.
  cbn [perform_all]. unfold bind, exec.
  pose proof (perform_returns o s) as H. unfold result in H.
  destruct (perform decodeAudioData o s) as [r s1]. cbn in *. subst r. reflexivity.
Qed.

Lemma perform_all_app (ops1 ops2 : list Operation) : forall s,
  perform_all decodeAudioData (ops1 ++ ops2) s
  = perform_all decodeAudioData ops2 (exec (perform_all decodeAudioData ops1) s).
Proof.
  induction ops1 as [|o ops1 IH]; intros s; [reflexivity|].
  rewrite <- app_comm_cons, perform_all_cons, IH. f_equal.
  unfold exec. rewrite (perform_all_cons o ops1 s). reflexivity.
Qed.

(** No sequence of method calls, continuations and callbacks throws. *)
Lemma perform_all_returns (ops : list Operation) : forall s,
  result (perform_all decodeAudioData ops) s = Returned tt.
Proof.
  induction ops as [|o ops IH]; intros s; [reflexivity|].
  unfold result. rewrite perform_all_cons. apply IH.
Qed.

(** A call of [connect] and a continuation of one are stretches of
    [connect]. *)
Lemma perform_connect_step (rendered : ConnectionState) (env : ConnectEnv) (s : Hook) :
  connect_step ((rendered = DISCONNECTED \/ rendered = ERROR)
                /\ truthy (or_else (API_KEY env) []) = true)
               False s (exec (perform decodeAudioData (Connect rendered env)) s).
Proof. cbn [perform]. rewrite exec_discard. apply connect_is_step. Qed.

Lemma perform_resume_step (point : Suspended) (env : ConnectEnv) (s : Hook) :
  connect_step False (point = AwaitGetUserMedia /\ getUserMedia env = Returned tt)
               s (exec (perform decodeAudioData (Resume point env)) s).
Proof.
  cbn [perform]. rewrite exec_discard. unfold connect_resume.
  pose proof (connect_from_step (Some point) env s) as H. unfold connect_step in *.
  destruct H as (H1 & H2 & H3 & H4 & H5 & H6 & H7 & H8).
  (split; [exact H1|]); (split; [exact H2|]); (split; [exact H3|]).
  (split; [destruct H4 as [H4 | [[Hf _] _]]; [left; exact H4 | discriminate Hf]|]).
  (split; [destruct H5 as [H5 | [[Hf _] _]]; [left; exact H5 | discriminate Hf]|]).
  (split; [destruct H6 as [H6 | [[Hf _] _]]; [left; exact H6 | discriminate Hf]|]).
  split; [|exact H8].
  destruct H7 as [H7 | [[Hf Hg] H7]]; [left; exact H7 | right].
  inversion Hf; subst. split; [split; [reflexivity | exact Hg] | exact H7].
Qed.

Lemma connect_step_weaken (P P' R R' : Prop) (s s' : Hook) :
  (P -> P') -> (R -> R') -> connect_step P R s s' -> connect_step P' R' s s'.
Proof.
  intros HP HR (H1 & H2 & H3 & H4 & H5 & H6 & H7 & H8). unfold connect_step.
  repeat (split; [first [assumption | tauto]|]). exact H8.
Qed.

(** ** Runs that overwrite no held handle *)

Lemma released_by_more (es more : list Effect) (e : Effect) :
  released_by es e = true ->
  released_by (more ++ es) e = true /\ released_by (es ++ more) e = true.
Proof.
  destruct e; cbn; auto; intros H; rewrite !existsb_app, H;
    (split; [apply orb_true_r | reflexivity]).
Qed.

Lemma released_by_quiet (es : list Effect) (e : Effect) :
  acquires e = false -> released_by es e = true.
Proof. destruct e; cbn; intros H; try reflexivity; discriminate H. Qed.

Lemma held_acquires (s : Hook) (e : Effect) : held s e -> acquires e = true.
Proof. destruct e; cbn; intros H; try reflexivity; contradiction. Qed.

Lemma not_acquiring (calls : list Effect) (e : Effect) :
  Forall (fun e => acquires e = false) calls -> In e calls -> acquires e = false.
Proof. intros H Hin. rewrite Forall_forall in H. apply H, Hin. Qed.

(** A stretch of [connect] that overwrites no held handle keeps every
    device accounted for. *)
Lemma connect_step_accounted (P R : Prop) (s s' : Hook) :
  connect_step P R s s' ->
  (P -> inputAudioContextRef s = None /\ outputAudioContextRef s = None
        /\ aiVolumeIntervalRef s = None) ->
  (R -> mediaStreamRef s = None) ->
  accounted s -> accounted s'.
Proof.
  intros (_ & _ & _ & Hi & Ho & Ht & Hm & calls & He & _ & Hheld & _) HP HR Hacc e Hin.
  rewrite He in Hin |- *. apply in_app_or in Hin. destruct Hin as [Hin | Hin].
  - destruct (Hacc e Hin) as [Hrel | Hh].
    + left. apply (released_by_more _ calls e Hrel).
    + right. destruct e; cbn in Hh |- *; try contradiction.
      * destruct Hh as [Hh | Hh].
        -- left. destruct Hi as [E | [Hp _]]; [rewrite E; exact Hh|].
           destruct (HP Hp) as (E & _). congruence.
        -- right. destruct Ho as [E | [Hp _]]; [rewrite E; exact Hh|].
           destruct (HP Hp) as (_ & E & _). congruence.
      * destruct Ht as [E | [Hp _]]; [rewrite E; exact Hh|].
        destruct (HP Hp) as (_ & _ & E). congruence.
      * destruct Hm as [E | [Hr _]]; [rewrite E; exact Hh|].
        pose proof (HR Hr) as E. congruence.
  - destruct (acquires e) eqn:Ha.
    + right. apply (Hheld e Hin Ha).
    + left. apply released_by_quiet, Ha.
Qed.

Lemma disconnect_accounted (s : Hook) :
  accounted s ->
  accounted (exec disconnect s)
  /\ all_released (effects (exec disconnect s)) = true.
Proof.
  intros Hacc.
  assert (H : forall e, In e (effects s ++ disconnect_calls s) ->
                        released_by (effects s ++ disconnect_calls s) e = true).
  { intros e Hin. apply in_app_or in Hin. destruct Hin as [Hin | Hin].
    - destruct (Hacc e Hin) as [Hrel | Hh].
      + apply (released_by_more _ (disconnect_calls s) e Hrel).
      + destruct (disconnect_calls_release s) as (Hi & Ho & Ht & Hm).
        apply released_by_intro.
        destruct e; cbn in Hh; try contradiction; apply in_or_app; right.
        * destruct Hh as [Hh | Hh]; [apply Hi | apply Ho]; exact Hh.
        * apply Ht, Hh.
        * apply Hm, Hh.
    - apply (disconnect_calls_released _ s), Hin. }
  unfold exec. rewrite disconnect_run. cbn [snd]. split.
  - intros e Hin. left. cbn [effects] in *. apply H, Hin.
  - unfold all_released. cbn [effects]. apply forallb_forall. exact H.
Qed.

Lemma fire_accounted (c : Callback) (s : Hook) :
  accounted s -> accounted (exec (fire decodeAudioData c) s).
Proof.
  intros Hacc.
  destruct (fire_keeps_devices decodeAudioData c s)
    as (_ & H1 & H2 & H3 & H4 & calls & He & Hq).
  intros e Hin. rewrite He in Hin |- *. apply in_app_or in Hin.
  destruct Hin as [Hin | Hin].
  - destruct (Hacc e Hin) as [Hrel | Hh].
    + left. apply (released_by_more _ calls e Hrel).
    + right. destruct e; cbn in Hh |- *; try contradiction;
        rewrite ?H1, ?H2, ?H3, ?H4; exact Hh.
  - left. apply released_by_quiet, (not_acquiring _ _ Hq), Hin.
Qed.

Lemma is_none_true {A} (o : option A) : is_none o = true -> o = None.
Proof. destruct o; [discriminate | reflexivity]. Qed.

Lemma perform_accounted (o : Operation) (s : Hook) :
  overwrites_nothing o s = true ->
  accounted s -> accounted (exec (perform decodeAudioData o) s).
Proof.
  intros Hok Hacc. destruct o as [rendered env|point env| |c].
  - apply (connect_step_accounted _ _ s _ (perform_connect_step rendered env s));
      [|contradiction | exact Hacc].
    intros [Hr Hk]. cbn [overwrites_nothing] in Hok.
    assert (H : is_none (inputAudioContextRef s) && is_none (outputAudioContextRef s)
                && is_none (aiVolumeIntervalRef s) = true).
    { rewrite Hk in Hok. destruct Hr as [-> | ->]; exact Hok. }
    apply andb_prop in H. destruct H as [H H3]. apply andb_prop in H. destruct H as [H1 H2].
    repeat split; apply is_none_true; assumption.
  - apply (connect_step_accounted _ _ s _ (perform_resume_step point env s));
      [contradiction | | exact Hacc].
    intros [-> Hg]. cbn [overwrites_nothing] in Hok. rewrite Hg in Hok.
    apply is_none_true, Hok.
  - apply disconnect_accounted, Hacc.
  - apply fire_accounted, Hacc.
Qed.

Lemma orderly_accounted (ops : list Operation) : forall s,
  orderly decodeAudioData ops s = true ->
  accounted s -> accounted (exec (perform_all decodeAudioData ops) s).
Proof.
  induction ops as [|o ops IH]; intros s Hok Hacc; [exact Hacc|].
  cbn [orderly] in Hok. apply andb_prop in Hok. destruct Hok as [Ho Hrest].
  unfold exec. rewrite perform_all_cons. apply (IH _ Hrest), perform_accounted; assumption.
Qed.

(** Whatever the interleaving of [connect] calls, their continuations,
    [disconnect] calls and callbacks: as long as no operation overwrites a
    device cell that holds a handle (a [connect] call that creates its
    contexts and timer finds their cells empty, a granted stream finds the
    stream cell empty), a [disconnect] at the end leaves every audio
    context, timer and media stream acquired along the way released, also
    those acquired after an earlier [disconnect] that came while a call was
    suspended; and nothing throws. *)
Theorem orderly_runs_release_every_device (ops : list Operation) (s : Hook) :
  accounted s ->
  orderly decodeAudioData ops s = true ->
  result (perform_all decodeAudioData (ops ++ [Disconnect])) s = Returned tt
  /\ all_released (effects (exec (perform_all decodeAudioData (ops ++ [Disconnect])) s))
     = true.
Proof.
  intros Hacc Hok. split; [apply perform_all_returns|].
  unfold exec. rewrite perform_all_app, perform_all_cons. cbn [perform_all]. unfold ret.
  cbn [snd].
  apply disconnect_accounted, orderly_accounted; assumption.
Qed.

End Runs.

Lemma orderly_runs_release_every_device_witness :
  accounted initial
  /\ orderly sample_decoder abandoned_prompt initial = true
  /\ In (GetUserMedia 4%nat)
        (effects (exec (perform_all sample_decoder abandoned_prompt) initial))
  /\ all_released (effects (exec (perform_all sample_decoder abandoned_prompt) initial))
     = false
  /\ all_released
       (effects (exec (perform_all sample_decoder (abandoned_prompt ++ [Disconnect]))
                      initial)) = true.
Proof.
  assert (H1 : accounted initial) by (intros e []).
  assert (H2 : orderly sample_decoder abandoned_prompt initial = true) by reflexivity.
  split; [exact H1|]. split; [exact H2|].
  split; [vm_compute; tauto|]. split; [reflexivity|].
  apply (orderly_runs_release_every_device sample_decoder abandoned_prompt initial H1 H2).
Defined.

(** ** connect: edge cases *)

(** A [connect] call that gets past its guard without a credential (the
    variable is missing or empty): it returns without being suspended, with
    the Error state and the message "API Key not found in environment."; it
    creates no browser object and touches no device cell; the only call it
    makes is to stop the tracks of a stream still held from before. *)
Theorem connect_without_key (rendered : ConnectionState) (env : ConnectEnv) (s : Hook) :
  rendered = DISCONNECTED \/ rendered = ERROR ->
  truthy (or_else (API_KEY env) []) = false ->
  result (connect rendered env) s = Returned None
  /\ connectionState (exec (connect rendered env) s) = ERROR
  /\ error (exec (connect rendered env) s) = Some (js "API Key not found in environment.")
  /\ nextHandle (exec (connect rendered env) s) = nextHandle s
  /\ calls_of (connect rendered env) s = release StopTracks (mediaStreamRef s)
  /\ inputAudioContextRef (exec (connect rendered env) s) = inputAudioContextRef s
  /\ outputAudioContextRef (exec (connect rendered env) s) = outputAudioContextRef s
  /\ mediaStreamRef (exec (connect rendered env) s) = mediaStreamRef s
  /\ aiVolumeIntervalRef (exec (connect rendered env) s) = aiVolumeIntervalRef s
  /\ sessionPromiseRef (exec (connect rendered env) s) = sessionPromiseRef s.
Proof.
  intros Hs Hk. rewrite (connect_past_guard rendered env Hs).
  destruct env as [k isus ri osus ro g l]. cbn [API_KEY] in Hk.
  set (env := MkConnectEnv k isus ri osus ro g l).
  assert (H : exists s1,
    connect_from None env s = (Returned None, s1)
    /\ connectionState s1 = ERROR
    /\ error s1 = Some (js "API Key not found in environment.")
    /\ nextHandle s1 = nextHandle s
    /\ effects s1 = effects s ++ release StopTracks (mediaStreamRef s)
    /\ inputAudioContextRef s1 = inputAudioContextRef s
    /\ outputAudioContextRef s1 = outputAudioContextRef s
    /\ mediaStreamRef s1 = mediaStreamRef s
    /\ aiVolumeIntervalRef s1 = aiVolumeIntervalRef s
    /\ sessionPromiseRef s1 = sessionPromiseRef s).
  { unfold env. unfold_connect. destruct_hook s.
    destruct ms; run; cbn [API_KEY]; rewrite Hk; cbn;
      eexists; (split; [reflexivity|]); cbn; rewrite ?app_nil_r; repeat split. }
  destruct H as (s1 & Hc & H1 & H2 & H3 & H4 & H5).
  unfold result, exec, calls_of, exec. rewrite Hc. cbn [fst snd].
  rewrite H4, skipn_app, skipn_all, Nat.sub_diag. cbn [skipn app].
  repeat (split; [first [reflexivity | assumption]|]). apply H5.
Qed.


(** ** onopen *)

(** The open callback sets the Connected state whatever the state was.  It
    creates the two capture nodes only when both the input context and the
    media stream are held; when either is missing it changes nothing else
    and makes no call.  In particular an open callback that arrives after a
    [disconnect] leaves the hook Connected with every cell released. *)
Theorem open_callback (s : Hook) :
  result onopen s = Returned tt
  /\ connectionState (exec onopen s) = CONNECTED
  /\ (forall ctx stream,
      inputAudioContextRef s = Some ctx -> mediaStreamRef s = Some stream ->
      calls_of onopen s
      = [CreateMediaStreamSource (nextHandle s); CreateScriptProcessor (S (nextHandle s))]
      /\ inputSourceRef (exec onopen s) = Some (nextHandle s)
      /\ processorRef (exec onopen s) = Some (S (nextHandle s)))
  /\ (inputAudioContextRef s = None \/ mediaStreamRef s = None ->
      exec onopen s = setConnectionState CONNECTED s)
  /\ exec onopen (exec disconnect s) = setConnectionState CONNECTED (exec disconnect s).
Proof.
  split.
  { unfold result, onopen. destruct_hook s. destruct ic, ms; reflexivity. }
  split.
  { unfold exec, onopen. destruct_hook s. destruct ic, ms; reflexivity. }
  split.
  { intros ctx stream Hc Hm. destruct_hook s. cbn in Hc, Hm. subst ic ms.
    split; [|split; reflexivity].
    apply calls_of_app. unfold exec, onopen. run. cbn. rewrite <- app_assoc. reflexivity. }
  split.
  { intros H. destruct_hook s. cbn in H. unfold exec, onopen. run. cbn.
    destruct H as [-> | ->]; [reflexivity | destruct ic; reflexivity]. }
  assert (H : exec disconnect s = snd (disconnect s)) by reflexivity.
  rewrite H, disconnect_run. reflexivity.
Qed.

(** ** disconnect while connect is suspended *)

(** The continuation of [connect] for a granted stream, run on the state a
    [disconnect] leaves. *)
Lemma granted_after_disconnect (env : ConnectEnv) (s : Hook) :
  getUserMedia env = Returned tt ->
  connect_resume AwaitGetUserMedia env (exec disconnect s)
  = (Returned (Some AwaitSession),
     MkHook DISCONNECTED (error s) 0 0 (transcript s)
       None None (Some (nextHandle s)) None None (outputAnalyzerRef s) 0 []
       (Some (MkPromise (S (nextHandle s)) (is_returned (liveConnect env))))
       None (currentInputRef s) (currentOutputRef s)
       (S (S (nextHandle s)))
       (effects (exec disconnect s)
        ++ [GetUserMedia (nextHandle s); LiveConnect (S (nextHandle s))])).
Proof.
  intros Hg. unfold exec. rewrite disconnect_run. cbn [snd].
  unfold connect_resume. unfold_connect.
  destruct env as [k isus ri osus ro g l]. cbn [getUserMedia liveConnect] in *. subst g.
  run. cbn. rewrite <- app_assoc. reflexivity.
Qed.

(** [disconnect] does not cancel a [connect] call that waits for the
    permission prompt.  When the stream is granted afterwards, the
    continuation stores it and opens a session, in the Disconnected state and
    with no audio context; it then waits for the session.  The open callback
    that follows sets the Connected state and creates no capture node, and
    the call ends without a further change when the session promise
    resolves.  No call after the [disconnect] releases the stream or closes
    the session. *)
Theorem disconnect_does_not_cancel_connect (env : ConnectEnv) (s : Hook) :
  getUserMedia env = Returned tt ->
  let s1 := exec disconnect s in
  let s2 := exec (connect_resume AwaitGetUserMedia env) s1 in
  let s3 := exec onopen s2 in
  result (connect_resume AwaitGetUserMedia env) s1 = Returned (Some AwaitSession)
  /\ connectionState s2 = DISCONNECTED
  /\ calls_of (connect_resume AwaitGetUserMedia env) s1
     = [GetUserMedia (nextHandle s); LiveConnect (S (nextHandle s))]
  /\ mediaStreamRef s2 = Some (nextHandle s)
  /\ sessionPromiseRef s2
     = Some (MkPromise (S (nextHandle s)) (is_returned (liveConnect env)))
  /\ inputAudioContextRef s2 = None
  /\ outputAudioContextRef s2 = None
  /\ s3 = setConnectionState CONNECTED s2
  /\ (liveConnect env = Returned tt ->
      connect_resume AwaitSession env s3 = (Returned None, s3)).
Proof.
  intros Hg s1 s2 s3.
  pose proof (granted_after_disconnect env s Hg) as H2. fold s1 in H2.
  assert (E2 : s2 = snd (connect_resume AwaitGetUserMedia env s1)) by reflexivity.
  rewrite H2 in E2. cbn [snd] in E2.
  split; [unfold result; rewrite H2; reflexivity|].
  split; [rewrite E2; reflexivity|].
  split; [apply calls_of_app; fold s2; rewrite E2; reflexivity|].
  split; [rewrite E2; reflexivity|].
  split; [rewrite E2; reflexivity|].
  split; [rewrite E2; reflexivity|].
  split; [rewrite E2; reflexivity|].
  assert (E3 : s3 = setConnectionState CONNECTED s2).
  { unfold s3. rewrite E2. reflexivity. }
  split; [exact E3|].
  intros Hl. rewrite E3, E2. unfold connect_resume. unfold_connect.
  destruct env as [k isus ri osus ro g l]. cbn [getUserMedia liveConnect] in *. subst l.
  reflexivity.
Qed.

(** A [disconnect] that comes while [connect] waits for the input context
    to resume is followed by an error: the continuation tests the state of
    the output context, finds its cell empty, and the TypeError is caught
    like any failure.  The call ends in the Error state with the message of
    the TypeError, having made no call and changed no other cell.  The same
    holds of any state with an empty output-context cell. *)
Theorem disconnect_during_resume_ends_in_error (env : ConnectEnv) (s : Hook) :
  resumeInput env = Returned tt ->
  (outputAudioContextRef s = None ->
   connect_resume AwaitResumeInput env s
   = (Returned None,
      set_effects (effects s ++ release StopTracks (mediaStreamRef s))
        (setConnectionState ERROR (setError (Some null_state_error) s))))
  /\ result (connect_resume AwaitResumeInput env) (exec disconnect s) = Returned None
  /\ connectionState (exec (connect_resume AwaitResumeInput env) (exec disconnect s))
     = ERROR
  /\ error (exec (connect_resume AwaitResumeInput env) (exec disconnect s))
     = Some null_state_error
  /\ calls_of (connect_resume AwaitResumeInput env) (exec disconnect s) = [].
Proof.
  intros Hr.
  assert (H : forall s0, outputAudioContextRef s0 = None ->
    connect_resume AwaitResumeInput env s0
    = (Returned None,
       set_effects (effects s0 ++ release StopTracks (mediaStreamRef s0))
         (setConnectionState ERROR (setError (Some null_state_error) s0)))).
  { intros s0 Ho. unfold connect_resume. unfold_connect.
    destruct env as [k isus ri osus ro g l]. cbn [resumeInput] in Hr. subst ri.
    destruct_hook s0. cbn in Ho. subst oc. destruct ms; run; cbn; rewrite ?app_nil_r;
      reflexivity. }
  split; [apply H|].
  assert (Ho : outputAudioContextRef (exec disconnect s) = None).
  { unfold exec. rewrite disconnect_run. reflexivity. }
  assert (Hm : mediaStreamRef (exec disconnect s) = None).
  { unfold exec. rewrite disconnect_run. reflexivity. }
  pose proof (H _ Ho) as Hrun. rewrite Hm in Hrun. cbn [release] in Hrun.
  rewrite app_nil_r in Hrun.
  set (s1 := exec disconnect s) in *.
  assert (E : exec (connect_resume AwaitResumeInput env) s1
              = set_effects (effects s1)
                  (setConnectionState ERROR (setError (Some null_state_error) s1))).
  { unfold exec. rewrite Hrun. reflexivity. }
  split; [unfold result; rewrite Hrun; reflexivity|].
  rewrite E. split; [destruct s1; reflexivity|]. split; [destruct s1; reflexivity|].
  apply calls_of_app. rewrite E, app_nil_r. destruct s1; reflexivity.
Qed.

(** ** The scheduler *)

Section Playback.

Variable decodeAudioData : jsstring -> option Q.

Ltac unfold_handler :=
  unfold onmessage, handle_audio, handle_interruption,
    handle_transcription, handle_turn_complete, schedule_chunk.

(** The calls of one run of the message handler: at most one [start], for a
    payload that decoded while the output context was open, followed by the
    [stop] calls of an interruption. *)
Lemma onmessage_calls (env : MessageEnv) (m : LiveServerMessage) (s : Hook) :
  exists (starts : list Effect) (live : list SourceNode),
    calls_of (onmessage decodeAudioData env m) s = starts ++ stop_calls live
    /\ (interrupted m = false -> live = [])
    /\ (forall e, In e starts ->
        exists b d ctx,
          e = SourceStart (nextHandle s) (Qmax (nextStartTimeRef s) (currentTime env)) d
          /\ inlineData m = Some b /\ truthy b = true
          /\ decodeAudioData b = Some d /\ outputAudioContextRef s = Some ctx).
Proof.
  assert (H : exists (starts : list Effect) (live : list SourceNode),
    effects (exec (onmessage decodeAudioData env m) s)
    = effects s ++ starts ++ stop_calls live
    /\ (interrupted m = false -> live = [])
    /\ (forall e, In e starts ->
        exists b d ctx,
          e = SourceStart (nextHandle s) (Qmax (nextStartTimeRef s) (currentTime env)) d
          /\ inlineData m = Some b /\ truthy b = true
          /\ decodeAudioData b = Some d /\ outputAudioContextRef s = Some ctx)).
  { unfold exec. unfold_handler.
    destruct_hook s. destruct m as [[[|c b]|] i it ot tc];
      destruct oc as [octx|]; run; cbn [inlineData interrupted outputAudioContextRef truthy];
      match goal with
      | |- context [decodeAudioData ?x] => destruct (decodeAudioData x) as [d0|] eqn:Hd
      | _ => idtac
      end;
      match goal with
      | Hd : decodeAudioData _ = Some ?d |- _ =>
          exists [SourceStart nh (Qmax ns (currentTime env)) d]
      | _ => exists []
      end;
      destruct i;
      match goal with
      | Hd : decodeAudioData _ = Some ?d |- context [forEach] =>
          exists (set_add (MkSource nh (Qmax ns (currentTime env)) d) ss)
      | |- context [forEach] => exists ss
      | _ => exists []
      end;
      cbn; rewrite ?forEach_source_stop; cbn;
      destruct it, ot, tc; cbn;
      try match goal with |- context [if truthy ?u || ?v then _ else _] =>
            destruct (truthy u || v) end; cbn;
      (split; [rewrite <- ?app_assoc, ?app_nil_r; reflexivity|]);
      (split; [intros Hi; first [reflexivity | discriminate Hi]|]);
      intros e He; cbn in He; try contradiction;
      destruct He as [<- | []]; eauto 10. }
  destruct H as (starts & live & He & H1 & H2).
  exists starts, live. split; [apply calls_of_app, He | split; assumption].
Qed.

(** No unit is ever started in the past: every [start] call the handler
    makes is for the payload of the message, with its decoded duration, on a
    fresh node, at a time that is neither before the output clock reading nor
    before the cursor. *)
Theorem start_never_in_the_past (env : MessageEnv) (m : LiveServerMessage) (s : Hook)
        (h : handle) (t d : Q) :
  In (SourceStart h t d) (calls_of (onmessage decodeAudioData env m) s) ->
  currentTime env <= t
  /\ nextStartTimeRef s <= t
  /\ h = nextHandle s
  /\ exists b, inlineData m = Some b /\ decodeAudioData b = Some d.
Proof.
  intros Hin. destruct (onmessage_calls env m s) as (starts & live & Hc & _ & Hs).
  rewrite Hc in Hin. apply in_app_or in Hin. destruct Hin as [Hin | Hin].
  - destruct (Hs _ Hin) as (b & d' & ctx & He & Hb & _ & Hd & _).
    inversion He; subst. split; [apply Q.le_max_r|]. split; [apply Q.le_max_l|].
    split; [reflexivity|]. exists b. split; assumption.
  - unfold stop_calls in Hin. apply in_map_iff in Hin.
    destruct Hin as (u & Hu & _). discriminate Hu.
Qed.

(** Without an interruption, and with buffers of non-negative duration, the
    handler never moves the cursor backwards, the cursor and the clock
    reading being doubles; and it leaves a double in the cursor. *)
Theorem cursor_never_moves_back (env : MessageEnv) (m : LiveServerMessage) (s : Hook) :
  interrupted m = false ->
  (forall b d, decodeAudioData b = Some d -> 0 <= d) ->
  is_double (nextStartTimeRef s) ->
  is_double (currentTime env) ->
  nextStartTimeRef s <= nextStartTimeRef (exec (onmessage decodeAudioData env m) s)
  /\ is_double (nextStartTimeRef (exec (onmessage decodeAudioData env m) s)).
Proof.
  intros Hi Hd Hc Hn.
  pose proof (is_double_Qmax _ _ Hc Hn) as Hmax. revert Hc Hmax.
  unfold exec. unfold_handler.
  destruct_hook s. destruct m as [[[|c b]|] i it ot tc]; cbn in Hi; subst i;
    destruct oc as [octx|]; run; cbn [inlineData interrupted outputAudioContextRef truthy];
    match goal with
    | |- context [decodeAudioData ?x] =>
        pose proof (Hd x) as Hx; destruct (decodeAudioData x) as [d0|]
    | _ => idtac
    end;
    cbn; destruct it, ot, tc; cbn;
    try match goal with |- context [if truthy ?u || ?v then _ else _] =>
          destruct (truthy u || v) end; cbn;
    intros Hc Hmax;
    try (split; [apply Qle_refl | exact Hc]);
    try (split; [apply Q.le_max_l | exact Hmax]).
  all: specialize (Hx d0 eq_refl); split; [|apply number_add_is_double];
    apply (Qle_trans _ (Qmax ns (currentTime env))); [apply Q.le_max_l|];
    apply number_add_increasing; assumption.
Qed.

(** *** A dropped chunk does not shift the units that follow *)

Lemma number_add_comp (x y d : Q) : x == y -> number_add x d == number_add y d.
Proof.
  intros E. unfold number_add. rewrite (to_double_eq (x + d) (y + d)); [reflexivity|].
  rewrite E. reflexivity.
Qed.

Lemma chunk_calls_same_cursor (arrivals : list (Q * Q)) :
  forall (h : handle) (c c' : Q),
  c == c' ->
  Forall2 same_call (chunk_calls h c arrivals) (chunk_calls h c' arrivals).
Proof.
  induction arrivals as [|[now d] rest IH]; intros h c c' Hc; cbn; constructor.
  - cbn. split; [reflexivity|]. split; [|reflexivity].
    apply Q.max_compat; [exact Hc | reflexivity].
  - apply IH. apply number_add_comp.
    apply Q.max_compat; [exact Hc | reflexivity].
Qed.

Lemma Qmax_same_from (c c' lower now : Q) :
  Qmax c lower == Qmax c' lower -> lower <= now -> Qmax c now == Qmax c' now.
Proof.
  intros H Hl.
  rewrite <- (Qmax_clamped c lower now Hl), <- (Qmax_clamped c' lower now Hl).
  apply Q.max_compat; [exact H | reflexivity].
Qed.

Lemma chunk_calls_same_from (arrivals : list (Q * Q)) (h : handle) (c c' lower : Q) :
  Qmax c lower == Qmax c' lower ->
  Forall (fun a => lower <= fst a) arrivals ->
  Forall2 same_call (chunk_calls h c arrivals) (chunk_calls h c' arrivals).
Proof.
  intros Hc Hl. destruct arrivals as [|[now d] rest]; cbn; constructor.
  - inversion Hl; subst. cbn in *. split; [reflexivity|]. split; [|reflexivity].
    apply (Qmax_same_from c c' lower now); assumption.
  - inversion Hl; subst. cbn in *. apply chunk_calls_same_cursor.
    apply number_add_comp.
    apply (Qmax_same_from c c' lower now); assumption.
Qed.

Lemma dropped_chunk_state (env : MessageEnv) (m : LiveServerMessage) (s : Hook)
      (b : jsstring) (ctx : handle) :
  inlineData m = Some b -> truthy b = true -> decodeAudioData b = None ->
  outputAudioContextRef s = Some ctx ->
  let s' := exec (onmessage decodeAudioData env m) s in
  let s0 := exec (onmessage decodeAudioData env (without_audio m)) s in
  nextHandle s' = nextHandle s0
  /\ outputAudioContextRef s' = Some ctx
  /\ outputAudioContextRef s0 = Some ctx
  /\ Qmax (nextStartTimeRef s') (currentTime env)
     == Qmax (nextStartTimeRef s0) (currentTime env).
Proof.
  unfold exec, without_audio. unfold_handler.
  destruct_hook s. destruct m as [[b'|] i it ot tc]; cbn; try discriminate.
  intros Hb Ht Hd ->. inversion Hb; subst b'. destruct b as [|c b]; [discriminate Ht|].
  run; cbn. rewrite Hd. cbn.
  destruct i; cbn; rewrite ?forEach_source_stop; cbn;
    destruct it, ot, tc; cbn;
    try match goal with |- context [if truthy ?u || ?v then _ else _] =>
          destruct (truthy u || v) end; cbn;
    repeat (split; [reflexivity|]);
    first [ reflexivity | apply Qmax_clamped, Qle_refl ].
Qed.

(** After a message whose chunk failed to decode, any run of decodable
    chunks read at clock values not before that message's: the handler
    makes, call for call, the [start] calls it would have made had the failed
    chunk not been in the message, on the same nodes, with the same durations
    and at equal start times. *)
Theorem dropped_chunk_shifts_nothing (env : MessageEnv) (m : LiveServerMessage)
        (s : Hook) (b : jsstring) (ctx : handle)
        (inbound : list (MessageEnv * LiveServerMessage)) (arrivals : list (Q * Q)) :
  inlineData m = Some b -> truthy b = true -> decodeAudioData b = None ->
  outputAudioContextRef s = Some ctx ->
  chunks_arriving decodeAudioData inbound arrivals ->
  Forall (fun a => currentTime env <= fst a) arrivals ->
  Forall2 same_call
    (calls_of (onmessages decodeAudioData inbound)
              (exec (onmessage decodeAudioData env m) s))
    (calls_of (onmessages decodeAudioData inbound)
              (exec (onmessage decodeAudioData env (without_audio m)) s)).
Proof.
  intros Hb Ht Hd Hctx Hin Hlater.
  destruct (dropped_chunk_state env m s b ctx Hb Ht Hd Hctx) as (Hh & Hc' & Hc0 & Hq).
  destruct (onmessages_chunks decodeAudioData inbound arrivals Hin _ ctx Hc') as [_ He'].
  destruct (onmessages_chunks decodeAudioData inbound arrivals Hin _ ctx Hc0) as [_ He0].
  rewrite (calls_of_app _ _ _ He'), (calls_of_app _ _ _ He0), Hh.
  apply (chunk_calls_same_from arrivals _ _ _ (currentTime env)); assumption.
Qed.

End Playback.


(** ** Bookkeeping of the live-units set *)

Lemma stopped_app (es es' : list Effect) : stopped (es ++ es') = stopped es ++ stopped es'.
Proof. unfold stopped. apply flat_map_app. Qed.

Lemma stopped_In (es : list Effect) (h : handle) : In h (stopped es) <-> In (SourceStop h) es.
Proof.
  unfold stopped. rewrite in_flat_map. split.
  - intros (e & He & Hh). destruct e; cbn in Hh; try contradiction.
    destruct Hh as [<- | []]. exact He.
  - intros H. exists (SourceStop h). split; [exact H | left; reflexivity].
Qed.

Lemma stopped_stop_calls (l : list SourceNode) : stopped (stop_calls l) = map src_id l.
Proof. induction l as [|a r IH]; [reflexivity|]. cbn. f_equal. exact IH. Qed.

Lemma stopped_quiet (calls : list Effect) :
  Forall (fun e => playback_call e = false) calls -> stopped calls = [].
Proof.
  induction 1 as [|e calls He _ IH]; [reflexivity|].
  unfold stopped in *. cbn. rewrite IH. destruct e; try reflexivity; discriminate He.
Qed.

Lemma quiet_not_playback (calls : list Effect) (e : Effect) :
  Forall (fun e => playback_call e = false) calls -> In e calls -> playback_call e = false.
Proof. intros H Hin. rewrite Forall_forall in H. apply H, Hin. Qed.

(** Calls on other objects, and allocations, keep the bookkeeping. *)
Lemma live_ok_quiet (live : list SourceNode) (es calls : list Effect) (next next' : handle) :
  live_ok live es next ->
  Forall (fun e => playback_call e = false) calls ->
  (next <= next')%nat ->
  live_ok live (es ++ calls) next'.
Proof.
  intros (H1 & H2 & H3 & H4 & H5) Hq Hn. repeat split.
  - exact H1.
  - apply in_or_app. left. apply H2, H.
  - intros Hin. apply in_app_or in Hin. destruct Hin as [Hin | Hin].
    + apply (H2 u H), Hin.
    + apply (quiet_not_playback _ _ Hq) in Hin. discriminate Hin.
  - intros h Hin. apply in_app_or in Hin. destruct Hin as [Hin | Hin].
    + destruct (H3 h Hin) as (t & d & Hs). exists t, d. apply in_or_app. left. exact Hs.
    + apply (quiet_not_playback _ _ Hq) in Hin. discriminate Hin.
  - rewrite stopped_app, (stopped_quiet _ Hq), app_nil_r. exact H4.
  - intros h t d Hin. apply in_app_or in Hin. destruct Hin as [Hin | Hin].
    + apply Nat.lt_le_trans with next; [apply (H5 h t d Hin) | exact Hn].
    + apply (quiet_not_playback _ _ Hq) in Hin. discriminate Hin.
Qed.

Lemma live_ids_allocated (live : list SourceNode) (es : list Effect) (next : handle) :
  live_ok live es next -> forall u, In u live -> (src_id u < next)%nat.
Proof.
  intros (_ & H2 & _ & _ & H5) u Hu. destruct (H2 u Hu) as [Hs _]. apply (H5 _ _ _ Hs).
Qed.

Lemma set_has_false (live : list SourceNode) (h : handle) :
  (forall u, In u live -> src_id u <> h) -> set_has h live = false.
Proof.
  intros H. unfold set_has. apply not_true_is_false. intros E.
  apply existsb_exists in E. destruct E as (u & Hu & He).
  apply Nat.eqb_eq in He. apply (H u Hu He).
Qed.

(** Scheduling a chunk on a fresh node keeps the bookkeeping, and the node
    does enter the set. *)
Lemma live_ok_schedule (live : list SourceNode) (es : list Effect) (next : handle) (t d : Q) :
  live_ok live es next ->
  set_add (MkSource next t d) live = live ++ [MkSource next t d]
  /\ live_ok (live ++ [MkSource next t d]) (es ++ [SourceStart next t d]) (S next).
Proof.
  intros Hok. pose proof (live_ids_allocated _ _ _ Hok) as Hlt.
  destruct Hok as (H1 & H2 & H3 & H4 & H5).
  assert (Hfresh : ~ In (SourceStop next) es).
  { intros Hin. destruct (H3 _ Hin) as (t' & d' & Hs). apply H5 in Hs. lia. }
  split.
  { unfold set_add. cbn [src_id]. rewrite set_has_false; [reflexivity|].
    intros u Hu. specialize (Hlt u Hu). lia. }
  repeat split.
  - rewrite map_app. cbn. apply NoDup_app; [exact H1 | repeat constructor; auto |].
    intros h Hin [<- | []]. apply in_map_iff in Hin. destruct Hin as (u & Hid & Hu).
    specialize (Hlt u Hu). lia.
  - apply in_app_or in H. destruct H as [H | [<- | []]].
    + apply in_or_app. left. apply H2, H.
    + apply in_or_app. right. left. reflexivity.
  - intros Hin. apply in_app_or in Hin. apply in_app_or in H.
    destruct Hin as [Hin | [Hin | []]]; [|discriminate Hin].
    destruct H as [H | [<- | []]]; [apply (H2 u H), Hin | apply Hfresh, Hin].
  - intros h Hin. apply in_app_or in Hin. destruct Hin as [Hin | [Hin | []]];
      [|discriminate Hin].
    destruct (H3 h Hin) as (t' & d' & Hs). exists t', d'. apply in_or_app. left. exact Hs.
  - rewrite stopped_app. cbn. rewrite app_nil_r. exact H4.
  - intros h t' d' Hin. apply in_app_or in Hin. destruct Hin as [Hin | [Hin | []]].
    + apply H5 in Hin. lia.
    + inversion Hin; subst. lia.
Qed.

(** Stopping every live unit and emptying the set keeps the bookkeeping. *)
Lemma live_ok_flush (live : list SourceNode) (es : list Effect) (next : handle) :
  live_ok live es next -> live_ok [] (es ++ stop_calls live) next.
Proof.
  intros (H1 & H2 & H3 & H4 & H5). repeat split.
  - constructor.
  - contradiction.
  - contradiction.
  - intros h Hin. apply in_app_or in Hin. destruct Hin as [Hin | Hin].
    + destruct (H3 h Hin) as (t & d & Hs). exists t, d. apply in_or_app. left. exact Hs.
    + unfold stop_calls in Hin. apply in_map_iff in Hin. destruct Hin as (u & He & Hu).
      inversion He; subst. exists (src_when u), (src_duration u).
      apply in_or_app. left. apply H2, Hu.
  - rewrite stopped_app, stopped_stop_calls. apply NoDup_app; [exact H4 | exact H1 |].
    intros h Hs Hl. apply stopped_In in Hs. apply in_map_iff in Hl.
    destruct Hl as (u & <- & Hu). apply (H2 u Hu), Hs.
  - intros h t d Hin. apply in_app_or in Hin. destruct Hin as [Hin | Hin].
    + apply (H5 h t d Hin).
    + unfold stop_calls in Hin. apply in_map_iff in Hin.
      destruct Hin as (u & He & _). discriminate He.
Qed.

Lemma set_delete_distinct (h : handle) (live : list SourceNode) :
  NoDup (map src_id live) -> NoDup (map src_id (set_delete h live)).
Proof.
  unfold set_delete. intros Hdistinct.
  induction live as [|u live IH]; cbn; [constructor|].
  inversion Hdistinct as [|x xs Hfresh Hrest]; subst.
  destruct (negb (Nat.eqb (src_id u) h)); cbn; [|apply IH, Hrest].
  constructor; [|apply IH, Hrest].
  intros Hin. apply Hfresh. apply in_map_iff in Hin. destruct Hin as (v & Hid & Hv).
  apply filter_In in Hv. apply in_map_iff. exists v. split; [exact Hid | apply Hv].
Qed.

(** Removing a unit that ended keeps the bookkeeping. *)
Lemma live_ok_ended (live : list SourceNode) (es : list Effect) (next h : handle) :
  live_ok live es next -> live_ok (set_delete h live) es next.
Proof.
  intros (H1 & H2 & H3 & H4 & H5). unfold set_delete. repeat split; auto.
  - apply set_delete_distinct, H1.
  - apply filter_In in H. apply H2, H.
  - apply filter_In in H. apply H2, H.
Qed.

Section Bookkeeping.

Variable decodeAudioData : jsstring -> option Q.

(** What one run of the message handler does to the scheduler's cells: it
    schedules at most one chunk, then flushes when interrupted. *)
Lemma onmessage_scheduler (env : MessageEnv) (m : LiveServerMessage) (s : Hook) :
  exists sched : option Q,
    let t := Qmax (nextStartTimeRef s) (currentTime env) in
    let mid := match sched with
               | Some d => set_add (MkSource (nextHandle s) t d) (scheduledSourcesRef s)
               | None => scheduledSourcesRef s
               end in
    nextHandle (exec (onmessage decodeAudioData env m) s)
    = match sched with Some _ => S (nextHandle s) | None => nextHandle s end
    /\ scheduledSourcesRef (exec (onmessage decodeAudioData env m) s)
       = (if interrupted m then [] else mid)
    /\ effects (exec (onmessage decodeAudioData env m) s)
       = (effects s ++ match sched with
                       | Some d => [SourceStart (nextHandle s) t d]
                       | None => []
                       end)
         ++ (if interrupted m then stop_calls mid else []).
Proof.
  unfold exec, onmessage, handle_audio, handle_interruption,
    handle_transcription, handle_turn_complete, schedule_chunk.
  destruct_hook s. destruct m as [[[|c b]|] i it ot tc];
    destruct oc as [octx|]; run; cbn [inlineData interrupted outputAudioContextRef truthy];
    match goal with
    | |- context [decodeAudioData ?x] => destruct (decodeAudioData x) as [d0|] eqn:Hd
    | _ => idtac
    end;
    match goal with
    | Hd : decodeAudioData _ = Some ?d |- _ => exists (Some d)
    | _ => exists None
    end;
    destruct i; cbn; rewrite ?forEach_source_stop; cbn;
    destruct it, ot, tc; cbn;
    try match goal with |- context [if truthy ?u || ?v then _ else _] =>
          destruct (truthy u || v) end; cbn;
    rewrite ?app_nil_r; repeat split.
Qed.

Lemma perform_keeps_live_ok (o : Operation) (s : Hook) :
  hook_live_ok s -> hook_live_ok (exec (perform decodeAudioData o) s).
Proof.
  unfold hook_live_ok. intros Hok.
  destruct o as [rendered env|point env| |[| |e|env m|h]]; cbn [perform fire].
  - pose proof (perform_connect_step decodeAudioData rendered env s) as H.
    cbn [perform] in H. destruct H as (Hs & _ & Hn & _ & _ & _ & _ & calls & He & Hq & _).
    rewrite Hs, He. apply (live_ok_quiet _ _ _ (nextHandle s)); assumption.
  - pose proof (perform_resume_step decodeAudioData point env s) as H.
    cbn [perform] in H. destruct H as (Hs & _ & Hn & _ & _ & _ & _ & calls & He & Hq & _).
    rewrite Hs, He. apply (live_ok_quiet _ _ _ (nextHandle s)); assumption.
  - unfold exec. rewrite disconnect_run. cbn.
    assert (E : effects s ++ disconnect_calls s
                = ((effects s
                    ++ (release ClearInterval (aiVolumeIntervalRef s)
                        ++ release DisconnectNode (processorRef s)
                        ++ release DisconnectNode (inputSourceRef s)
                        ++ release CloseAudioContext (inputAudioContextRef s)))
                   ++ stop_calls (scheduledSourcesRef s))
                  ++ (release CloseAudioContext (outputAudioContextRef s)
                      ++ release StopTracks (mediaStreamRef s)
                      ++ release_session (sessionPromiseRef s))).
    { unfold disconnect_calls. rewrite <- !app_assoc. reflexivity. }
    rewrite E.
    apply (live_ok_quiet _ _ _ (nextHandle s));
      [| destruct (outputAudioContextRef s), (mediaStreamRef s),
                  (sessionPromiseRef s) as [[pid [|]]|]; quiet_calls | lia].
    apply live_ok_flush.
    apply (live_ok_quiet _ _ _ (nextHandle s)); [exact Hok | | lia].
    destruct (aiVolumeIntervalRef s), (processorRef s), (inputSourceRef s),
      (inputAudioContextRef s); quiet_calls.
  - destruct_hook s. unfold exec, onopen. destruct ic, ms; run; cbn in *;
      try exact Hok; rewrite <- app_assoc;
      (apply (live_ok_quiet _ _ _ nh); [exact Hok | quiet_calls | lia]).
  - destruct_hook s. exact Hok.
  - destruct_hook s. exact Hok.
  - destruct (onmessage_scheduler env m s) as (sched & Hn & Hs & He).
    cbn zeta in Hn, Hs, He. rewrite Hn, Hs, He.
    destruct sched as [d|].
    + destruct (live_ok_schedule _ _ _ (Qmax (nextStartTimeRef s) (currentTime env)) d Hok)
        as [Hadd Hok'].
      rewrite Hadd. destruct (interrupted m).
      * apply live_ok_flush, Hok'.
      * rewrite app_nil_r. exact Hok'.
    + rewrite app_nil_r. destruct (interrupted m).
      * apply live_ok_flush, Hok.
      * rewrite app_nil_r. exact Hok.
  - destruct_hook s. cbn in *. apply live_ok_ended, Hok.
Qed.

Lemma perform_all_keeps_live_ok (ops : list Operation) : forall s,
  hook_live_ok s -> hook_live_ok (exec (perform_all decodeAudioData ops) s).
Proof.
  induction ops as [|o ops IH]; intros s Hok; [exact Hok|].
  unfold exec. rewrite perform_all_cons. apply IH, perform_keeps_live_ok, Hok.
Qed.

(** From the initial state, after any sequence of [connect] calls, their
    continuations, [disconnect] calls and callbacks: the hook has called
    [stop] only on nodes it started, and on none of them twice; the
    live-units set holds distinct nodes, each of them started and not
    stopped. *)
Theorem stop_discipline (ops : list Operation) :
  let s := exec (perform_all decodeAudioData ops) initial in
  NoDup (stopped (effects s))
  /\ (forall h, In (SourceStop h) (effects s) ->
        exists t d, In (SourceStart h t d) (effects s))
  /\ NoDup (map src_id (scheduledSourcesRef s))
  /\ (forall u, In u (scheduledSourcesRef s) ->
        In (SourceStart (src_id u) (src_when u) (src_duration u)) (effects s)
        /\ ~ In (SourceStop (src_id u)) (effects s)).
Proof.
  intros s.
  assert (H0 : hook_live_ok initial).
  { unfold hook_live_ok, live_ok. cbn. repeat split; try constructor; contradiction. }
  destruct (perform_all_keeps_live_ok ops initial H0) as (H1 & H2 & H3 & H4 & _).
  fold s in H1, H2, H3, H4. repeat split; try assumption; apply H2, H.
Qed.

End Bookkeeping.


(** ** trim *)

Lemma trimStart_head (s : jsstring) (c : N) (r : jsstring) :
  trimStart s = c :: r -> is_white_space c = false.
Proof.
  induction s as [|a s IH]; cbn; [discriminate|].
  destruct (is_white_space a) eqn:E; [exact IH|].
  intros H. inversion H; subst. exact E.
Qed.

Lemma trimStart_suffix (s : jsstring) :
  exists pre, s = pre ++ trimStart s /\ forallb is_white_space pre = true.
Proof.
  induction s as [|a s IH]; [exists []; split; reflexivity|].
  cbn. destruct (is_white_space a) eqn:E.
  - destruct IH as (pre & Hs & Hp). exists (a :: pre). split.
    + cbn. f_equal. exact Hs.
    + cbn. rewrite E. exact Hp.
  - exists []. split; reflexivity.
Qed.

Lemma trimStart_fixed (s : jsstring) :
  (forall c r, s = c :: r -> is_white_space c = false) -> trimStart s = s.
Proof.
  destruct s as [|a s]; [reflexivity|]. intros H. cbn.
  rewrite (H a s eq_refl). reflexivity.
Qed.

Lemma trimEnd_prefix (s : jsstring) :
  exists post, s = trimEnd s ++ post /\ forallb is_white_space post = true.
Proof.
  unfold trimEnd. destruct (trimStart_suffix (rev s)) as (pre & Hs & Hp).
  exists (rev pre). split.
  - rewrite <- rev_app_distr, <- Hs, rev_involutive. reflexivity.
  - rewrite forallb_forall in *. intros x Hx. apply Hp. apply in_rev. exact Hx.
Qed.

Lemma trimEnd_last (s : jsstring) (c : N) (r : jsstring) :
  trimEnd s = r ++ [c] -> is_white_space c = false.
Proof.
  unfold trimEnd. intros H. apply (f_equal (@rev N)) in H.
  rewrite rev_involutive, rev_app_distr in H. cbn in H.
  apply (trimStart_head _ _ _ H).
Qed.

(** The trimmed text neither starts nor ends with white space. *)
Lemma trim_ends (s : jsstring) :
  (forall c r, trim s = c :: r -> is_white_space c = false)
  /\ (forall c r, trim s = r ++ [c] -> is_white_space c = false).
Proof.
  unfold trim. split.
  - intros c r H. destruct (trimEnd_prefix (trimStart s)) as (post & Hs & _).
    rewrite H in Hs. cbn in Hs. apply (trimStart_head s c (r ++ post)). exact Hs.
  - intros c r H. apply (trimEnd_last _ _ _ H).
Qed.

Lemma trimEnd_fixed (s : jsstring) :
  (forall c r, s = r ++ [c] -> is_white_space c = false) -> trimEnd s = s.
Proof.
  intros H. unfold trimEnd. rewrite trimStart_fixed; [apply rev_involutive|].
  intros c r Hr. apply (H c (rev r)).
  apply (f_equal (@rev N)) in Hr. rewrite rev_involutive in Hr. exact Hr.
Qed.

Lemma trim_idempotent (s : jsstring) : trim (trim s) = trim s.
Proof.
  destruct (trim_ends s) as [Hh Hl].
  unfold trim at 1. rewrite (trimStart_fixed (trim s) Hh). apply trimEnd_fixed, Hl.
Qed.

(** ** The transcript *)

Section Transcript.

Variable decodeAudioData : jsstring -> option Q.

(** A message without the turn-complete flag appends its fragments to the
    accumulators and leaves the transcript alone. *)
Lemma onmessage_accumulates (env : MessageEnv) (m : LiveServerMessage) (s : Hook) :
  turnComplete m = false ->
  currentInputRef (exec (onmessage decodeAudioData env m) s)
  = currentInputRef s ++ fragment (inputTranscription m)
  /\ currentOutputRef (exec (onmessage decodeAudioData env m) s)
     = currentOutputRef s ++ fragment (outputTranscription m)
  /\ transcript (exec (onmessage decodeAudioData env m) s) = transcript s.
Proof.
  unfold exec, onmessage, handle_audio, handle_interruption,
    handle_transcription, handle_turn_complete, schedule_chunk.
  destruct_hook s. destruct m as [[[|c b]|] [|] it ot tc]; cbn; intros ->;
    destruct oc; run; cbn;
    try destruct (decodeAudioData (c :: b)); cbn;
    rewrite ?forEach_source_stop; cbn;
    destruct it, ot; cbn; rewrite ?app_nil_r; repeat split.
Qed.

(** Every item the handler appends has a non-empty text without leading or
    trailing white space; a message appends at most the user item followed
    by the remote item, and nothing without the turn-complete flag; the items
    already in the transcript stay as they are. *)
Theorem committed_items_are_trimmed (env : MessageEnv) (m : LiveServerMessage) (s : Hook) :
  exists items,
    transcript (exec (onmessage decodeAudioData env m) s) = transcript s ++ items
    /\ (turnComplete m = false -> items = [])
    /\ (map role items = [] \/ map role items = [user]
        \/ map role items = [ai] \/ map role items = [user; ai])
    /\ Forall (fun item => text item <> [] /\ trim (text item) = text item) items.
Proof.
  destruct (turnComplete m) eqn:Htc.
  - destruct (onmessage_turn_complete decodeAudioData env m s Htc) as (_ & Ht & _).
    eexists. split; [exact Ht|]. split; [discriminate|].
    unfold committed_items.
    set (u := currentInputRef s ++ fragment (inputTranscription m)).
    set (a := currentOutputRef s ++ fragment (outputTranscription m)).
    pose proof (trim_idempotent u) as Hu. pose proof (trim_idempotent a) as Ha.
    destruct (trim u) as [|cu ru], (trim a) as [|ca ra]; cbn;
      (split; [tauto|]); repeat constructor; cbn; try discriminate; assumption.
  - destruct (onmessage_accumulates env m s Htc) as (_ & _ & Ht).
    exists []. rewrite Ht, app_nil_r. repeat split; auto.
Qed.

Lemma onmessages_cons (env : MessageEnv) (m : LiveServerMessage)
      (rest : list (MessageEnv * LiveServerMessage)) (s : Hook) :
  onmessages decodeAudioData ((env, m) :: rest) s
  = onmessages decodeAudioData rest (exec (onmessage decodeAudioData env m) s).
Proof.
  cbn [onmessages]. unfold bind, exec.
  pose proof (onmessage_returns_error_kept decodeAudioData env m s) as (H & _).
  unfold result in H.
  destruct (onmessage decodeAudioData env m s) as [r s1]. cbn in *. subst r. reflexivity.
Qed.

Lemma onmessages_app (l1 l2 : list (MessageEnv * LiveServerMessage)) : forall s,
  onmessages decodeAudioData (l1 ++ l2) s
  = onmessages decodeAudioData l2 (exec (onmessages decodeAudioData l1) s).
Proof.
  induction l1 as [|[env m] l1 IH]; intros s; [reflexivity|].
  rewrite <- app_comm_cons, onmessages_cons, IH. f_equal.
  unfold exec. rewrite (onmessages_cons env m l1 s). reflexivity.
Qed.

Lemma onmessages_accumulate (inbound : list (MessageEnv * LiveServerMessage)) :
  Forall (fun em => turnComplete (snd em) = false) inbound ->
  forall s,
  currentInputRef (exec (onmessages decodeAudioData inbound) s)
  = currentInputRef s ++ input_fragments inbound
  /\ currentOutputRef (exec (onmessages decodeAudioData inbound) s)
     = currentOutputRef s ++ output_fragments inbound
  /\ transcript (exec (onmessages decodeAudioData inbound) s) = transcript s.
Proof.
  induction 1 as [|[env m] inbound Hm _ IH]; intros s.
  - cbn. rewrite !app_nil_r. repeat split.
  - unfold exec. rewrite onmessages_cons.
    destruct (IH (exec (onmessage decodeAudioData env m) s)) as (H1 & H2 & H3).
    destruct (onmessage_accumulates env m s Hm) as (G1 & G2 & G3).
    unfold exec in *. rewrite H1, H2, H3, G1, G2, G3.
    unfold input_fragments, output_fragments. cbn. rewrite <- !app_assoc. repeat split.
Qed.

(** Fragments spread over several messages are joined in arrival order, per
    speaker, and committed at the turn boundary: after the messages
    [inbound], none of them turn-complete, and a turn-complete message, the
    transcript has grown by the items for the trimmed user text and the
    trimmed remote text, each text being what the cell held before followed by
    every fragment in order; both accumulators are empty again. *)
Theorem fragments_join_in_arrival_order
  (inbound : list (MessageEnv * LiveServerMessage)) (env : MessageEnv)
  (m : LiveServerMessage) (s : Hook) :
  Forall (fun em => turnComplete (snd em) = false) inbound ->
  turnComplete m = true ->
  let s' := exec (onmessages decodeAudioData (inbound ++ [(env, m)])) s in
  transcript s'
  = transcript s
    ++ committed_items env
         (trim (currentInputRef s ++ input_fragments (inbound ++ [(env, m)])))
         (trim (currentOutputRef s ++ output_fragments (inbound ++ [(env, m)])))
  /\ currentInputRef s' = []
  /\ currentOutputRef s' = [].
Proof.
  intros Hin Hm s'. unfold s', exec. rewrite onmessages_app.
  destruct (onmessages_accumulate inbound Hin s) as (H1 & H2 & H3).
  set (s1 := exec (onmessages decodeAudioData inbound) s) in *.
  rewrite onmessages_cons. cbn [onmessages]. unfold ret. cbn [snd].
  destruct (onmessage_turn_complete decodeAudioData env m s1 Hm) as (_ & Ht & Hi & Ho).
  rewrite Ht, Hi, Ho, H1, H2, H3.
  unfold input_fragments, output_fragments. rewrite !map_app, !List.concat_app. cbn.
  rewrite !app_nil_r, <- !app_assoc. repeat split.
Qed.

End Transcript.

Lemma fragments_join_in_arrival_order_witness :
  Forall (fun em => turnComplete (snd em) = false)
         [(at_clock 1, user_fragment "I wor"); (at_clock 2, user_fragment "ked on X")]
  /\ turnComplete turn_complete_message = true
  /\ transcript
       (exec (onmessages sample_decoder
                [(at_clock 1, user_fragment "I wor"); (at_clock 2, user_fragment "ked on X");
                 (at_clock 3, turn_complete_message)]) connected)
     = [MkItem user (js "I worked on X") 1700000000000].
Proof.
  assert (H1 : Forall (fun em => turnComplete (snd em) = false)
         [(at_clock 1, user_fragment "I wor"); (at_clock 2, user_fragment "ked on X")])
    by (repeat constructor).
  assert (H2 : turnComplete turn_complete_message = true) by reflexivity.
  split; [exact H1|]. split; [exact H2|].
  destruct (fragments_join_in_arrival_order sample_decoder _ (at_clock 3)
              turn_complete_message connected H1 H2) as (Ht & _).
  cbn [app] in Ht. rewrite Ht. reflexivity.
Defined.


(** ** Units that ended *)

Section Ended.

Variable decodeAudioData : jsstring -> option Q.

Lemma set_add_members (x u : SourceNode) (l : list SourceNode) :
  In u (set_add x l) -> In u l \/ u = x.
Proof.
  unfold set_add. destruct (set_has (src_id x) l); [auto|].
  intros H. apply in_app_or in H. destruct H as [H | [H | []]]; auto.
Qed.

Lemma stop_calls_members (l : list SourceNode) (h : handle) :
  In (SourceStop h) (stop_calls l) -> exists u, In u l /\ src_id u = h.
Proof.
  unfold stop_calls. intros H. apply in_map_iff in H. destruct H as (u & He & Hu).
  inversion He. exists u. split; [exact Hu | reflexivity].
Qed.

(** One operation allocates without reuse, lets into the set only the node
    it allocates, and stops only nodes that were in the set or that it
    allocated. *)
Lemma perform_step (o : Operation) (s : Hook) :
  (nextHandle s <= nextHandle (exec (perform decodeAudioData o) s))%nat
  /\ (forall u, In u (scheduledSourcesRef (exec (perform decodeAudioData o) s)) ->
        In u (scheduledSourcesRef s) \/ src_id u = nextHandle s)
  /\ (forall h, In (SourceStop h) (effects (exec (perform decodeAudioData o) s)) ->
        In (SourceStop h) (effects s)
        \/ (exists u, In u (scheduledSourcesRef s) /\ src_id u = h)
        \/ h = nextHandle s).
Proof.
  destruct o as [rendered env|point env| |[| |e|env m|h']]; cbn [perform fire].
  - pose proof (perform_connect_step decodeAudioData rendered env s) as H.
    cbn [perform] in H. destruct H as (Hs & _ & Hn & _ & _ & _ & _ & calls & He & Hq & _).
    rewrite Hs, He. split; [exact Hn|]. split; [auto|].
    intros h Hin. apply in_app_or in Hin. destruct Hin as [Hin | Hin]; [auto|].
    apply (quiet_not_playback _ _ Hq) in Hin. discriminate Hin.
  - pose proof (perform_resume_step decodeAudioData point env s) as H.
    cbn [perform] in H. destruct H as (Hs & _ & Hn & _ & _ & _ & _ & calls & He & Hq & _).
    rewrite Hs, He. split; [exact Hn|]. split; [auto|].
    intros h Hin. apply in_app_or in Hin. destruct Hin as [Hin | Hin]; [auto|].
    apply (quiet_not_playback _ _ Hq) in Hin. discriminate Hin.
  - unfold exec. rewrite disconnect_run. cbn. split; [lia|]. split; [contradiction|].
    intros h Hin. apply in_app_or in Hin. destruct Hin as [Hin | Hin]; [auto|].
    right. left. apply stop_calls_members.
    unfold disconnect_calls in Hin. rewrite !in_app_iff in Hin.
    destruct (aiVolumeIntervalRef s), (processorRef s), (inputSourceRef s),
      (inputAudioContextRef s), (outputAudioContextRef s), (mediaStreamRef s),
      (sessionPromiseRef s) as [[pid [|]]|]; cbn in Hin;
      decompose [or] Hin; try discriminate; try contradiction; assumption.
  - destruct_hook s. unfold exec, onopen. destruct ic, ms; run; cbn;
      (split; [lia|]); (split; [auto|]); intros hx Hin; auto;
      rewrite <- app_assoc in Hin; apply in_app_or in Hin;
      destruct Hin as [Hin | [Hin | [Hin | []]]]; auto; discriminate Hin.
  - destruct_hook s. cbn. split; [lia|]. split; auto.
  - destruct_hook s. cbn. split; [lia|]. split; auto.
  - destruct (onmessage_scheduler decodeAudioData env m s) as (sched & Hn & Hs & He).
    cbn zeta in Hn, Hs, He. rewrite Hn, Hs, He.
    split; [destruct sched; lia|].
    assert (Hmid : forall u,
      In u (match sched with
            | Some d => set_add (MkSource (nextHandle s)
                                   (Qmax (nextStartTimeRef s) (currentTime env)) d)
                                (scheduledSourcesRef s)
            | None => scheduledSourcesRef s
            end) ->
      In u (scheduledSourcesRef s) \/ src_id u = nextHandle s).
    { intros u Hu. destruct sched as [d|]; [|auto].
      apply set_add_members in Hu. destruct Hu as [Hu | ->]; auto. }
    split.
    + intros u Hu. destruct (interrupted m); [contradiction | apply Hmid, Hu].
    + intros h Hin. apply in_app_or in Hin. destruct Hin as [Hin | Hin].
      * apply in_app_or in Hin. destruct Hin as [Hin | Hin]; [auto|].
        destruct sched; [destruct Hin as [Hin | []]; discriminate Hin | contradiction].
      * destruct (interrupted m); [|contradiction].
        apply stop_calls_members in Hin. destruct Hin as (u & Hu & <-).
        destruct (Hmid u Hu) as [H | H]; [right; left; exists u; auto | auto].
  - destruct_hook s. cbn. split; [lia|]. split; [|auto].
    intros u Hu. left. unfold set_delete in Hu. apply filter_In in Hu. apply Hu.
Qed.

Lemma perform_keeps_retired (h : handle) (o : Operation) (s : Hook) :
  retired h s -> retired h (exec (perform decodeAudioData o) s).
Proof.
  intros (Hlt & Hns & Hout).
  destruct (perform_step o s) as (Hn & Hset & Hstop).
  split; [lia|]. split.
  - intros Hin. destruct (Hstop h Hin) as [H | [(u & Hu & Hid) | H]].
    + apply Hns, H.
    + apply (Hout u Hu Hid).
    + lia.
  - intros u Hu Hid. destruct (Hset u Hu) as [H | H].
    + apply (Hout u H Hid).
    + lia.
Qed.

Lemma perform_all_keeps_retired (h : handle) (ops : list Operation) : forall s,
  retired h s -> retired h (exec (perform_all decodeAudioData ops) s).
Proof.
  induction ops as [|o ops IH]; intros s Hr; [exact Hr|].
  unfold exec. rewrite perform_all_cons. apply IH, perform_keeps_retired, Hr.
Qed.

(** A unit that ended and was taken out of the set by its ended callback is
    never stopped afterwards, whatever follows (interruptions and
    disconnects included): in any run from the initial state, if [u] is in the
    live-units set when its ended callback fires, no later state has a
    [stop] call on its node. *)
Theorem ended_unit_is_never_stopped (before after : list Operation) (u : SourceNode) :
  In u (scheduledSourcesRef (exec (perform_all decodeAudioData before) initial)) ->
  ~ In (SourceStop (src_id u))
       (effects (exec (perform_all decodeAudioData
                         (before ++ Fire (OnEnded (src_id u)) :: after)) initial)).
Proof.
  intros Hu. unfold exec. rewrite perform_all_app, perform_all_cons.
  set (s := exec (perform_all decodeAudioData before) initial) in *.
  assert (H0 : hook_live_ok initial).
  { unfold hook_live_ok, live_ok. cbn. repeat split; try constructor; contradiction. }
  pose proof (perform_all_keeps_live_ok decodeAudioData before initial H0) as Hok.
  fold s in Hok.
  assert (Hr : retired (src_id u) (exec (perform decodeAudioData (Fire (OnEnded (src_id u)))) s)).
  { pose proof (live_ids_allocated _ _ _ Hok u Hu) as Hlt.
    destruct Hok as (H1 & H2 & _).
    destruct_hook s. cbn in *. split; [exact Hlt|]. split; [apply (H2 u Hu)|].
    intros v Hv. unfold set_delete in Hv. apply filter_In in Hv.
    destruct Hv as [_ Hv]. apply negb_true_iff, Nat.eqb_neq in Hv. exact Hv. }
  apply (perform_all_keeps_retired _ after _ Hr).
Qed.

End Ended.


(** ** Handles that connect overwrites *)

Section Orphans.

Variable decodeAudioData : jsstring -> option Q.

(** A stretch of [connect] releases nothing but the stream in the stream
    cell, and puts into the device cells only handles it allocates. *)
Lemma connect_step_orphaned (P R : Prop) (h : handle) (s s' : Hook) :
  connect_step P R s s' -> orphaned h s -> orphaned h s'.
Proof.
  intros (_ & _ & Hn & Hi & Ho & Ht & Hm & calls & He & _ & _ & Hrel')
         (Hlt & Hic & Hoc & Hti & Hms & Hrel).
  assert (Hcell : forall cell : Hook -> option handle,
            cell s <> Some h ->
            cell s' = cell s \/ (exists h', cell s' = Some h'
                                           /\ (nextHandle s <= h' < nextHandle s')%nat) ->
            cell s' <> Some h).
  { intros cell Hc [E | (h' & E & Hr)]; rewrite E; [exact Hc|].
    intros E'. inversion E'; subst. lia. }
  assert (Hms' : mediaStreamRef s' <> Some h).
  { apply (Hcell mediaStreamRef Hms). destruct Hm as [E | [_ F]]; [left; exact E | right; exact F]. }
  unfold orphaned. split; [lia|].
  split; [apply (Hcell inputAudioContextRef Hic);
          destruct Hi as [E | [_ F]]; [left; exact E | right; exact F]|].
  split; [apply (Hcell outputAudioContextRef Hoc);
          destruct Ho as [E | [_ F]]; [left; exact E | right; exact F]|].
  split; [apply (Hcell aiVolumeIntervalRef Hti);
          destruct Ht as [E | [_ F]]; [left; exact E | right; exact F]|].
  split; [exact Hms'|].
  intros e Hin Hr. rewrite He in Hin. apply in_app_or in Hin.
  destruct Hin as [Hin | Hin]; [apply (Hrel e Hin Hr)|].
  apply Hms', (Hrel' h e Hin Hr).
Qed.

(** An operation releases a handle only when a device cell held it, and
    puts into the device cells only handles it allocates. *)
Lemma perform_keeps_orphaned (h : handle) (o : Operation) (s : Hook) :
  orphaned h s -> orphaned h (exec (perform decodeAudioData o) s).
Proof.
  intros (Hlt & Hic & Hoc & Hti & Hms & Hrel).
  destruct o as [rendered env|point env| |c].
  - apply (connect_step_orphaned _ _ h s _ (perform_connect_step decodeAudioData rendered env s)).
    repeat split; assumption.
  - apply (connect_step_orphaned _ _ h s _ (perform_resume_step decodeAudioData point env s)).
    repeat split; assumption.
  - cbn [perform]. unfold orphaned, exec. rewrite disconnect_run. cbn.
    split; [exact Hlt|]. repeat (split; [discriminate|]).
    intros e Hin. apply in_app_or in Hin. destruct Hin as [Hin | Hin]; [apply Hrel, Hin|].
    unfold disconnect_calls, stop_calls in Hin. rewrite !in_app_iff, in_map_iff in Hin.
    intros Hr. unfold releases in Hr.
    destruct (aiVolumeIntervalRef s), (processorRef s), (inputSourceRef s),
      (inputAudioContextRef s), (outputAudioContextRef s), (mediaStreamRef s),
      (sessionPromiseRef s) as [[pid [|]]|]; cbn in Hin;
      decompose [or ex and] Hin; subst; decompose [or] Hr;
      try discriminate; try contradiction;
      match goal with
      | H : _ = _ |- _ => inversion H; subst; congruence
      end.
  - cbn [perform].
    destruct (fire_keeps_devices decodeAudioData c s)
      as (_ & H1 & H2 & H3 & H4 & calls & He & _).
    destruct (perform_step decodeAudioData (Fire c) s) as (Hn & _ & _).
    cbn [perform] in Hn. unfold orphaned.
    split; [lia|]. rewrite H1, H2, H3, H4. repeat (split; [assumption|]).
    intros e Hin Hr. rewrite He in Hin. apply in_app_or in Hin.
    destruct Hin as [Hin | Hin]; [apply (Hrel e Hin Hr)|].
    clear - Hin Hr He. revert Hin.
    destruct c as [| |em|env m|h']; cbn [fire] in *.
    + destruct_hook s. unfold exec, onopen in He. destruct ic, ms; cbn in He;
        try (apply (f_equal (skipn (List.length ef))) in He;
             rewrite <- ?app_assoc, !skipn_app, !skipn_all, Nat.sub_diag in He;
             cbn in He; subst calls; cbn; unfold releases in Hr;
             intros Hin; decompose [or] Hin; subst; decompose [or] Hr;
             try discriminate; contradiction);
        apply (f_equal (skipn (List.length ef))) in He;
        rewrite !skipn_app, !skipn_all, Nat.sub_diag in He; cbn in He;
        subst calls; contradiction.
    + destruct_hook s. cbn in He.
      apply (f_equal (skipn (List.length ef))) in He.
      rewrite !skipn_app, !skipn_all, Nat.sub_diag in He. cbn in He. subst calls.
      contradiction.
    + destruct_hook s. cbn in He.
      apply (f_equal (skipn (List.length ef))) in He.
      rewrite !skipn_app, !skipn_all, Nat.sub_diag in He. cbn in He. subst calls.
      contradiction.
    + destruct (onmessage_calls decodeAudioData env m s) as (starts & live & Hc & _ & Hs).
      rewrite (calls_of_app _ _ _ He) in Hc. subst calls. intros Hin.
      apply in_app_or in Hin. unfold releases in Hr. destruct Hin as [Hin | Hin].
      * destruct (Hs _ Hin) as (b & d & ctx & -> & _). decompose [or] Hr; discriminate.
      * unfold stop_calls in Hin. apply in_map_iff in Hin. destruct Hin as (u & <- & _).
        decompose [or] Hr; discriminate.
    + destruct_hook s. cbn in He.
      apply (f_equal (skipn (List.length ef))) in He.
      rewrite !skipn_app, !skipn_all, Nat.sub_diag in He. cbn in He. subst calls.
      contradiction.
Qed.

Lemma perform_all_keeps_orphaned (h : handle) (ops : list Operation) : forall s,
  orphaned h s -> orphaned h (exec (perform_all decodeAudioData ops) s).
Proof.
  induction ops as [|o ops IH]; intros s Hr; [exact Hr|].
  unfold exec. rewrite perform_all_cons. apply IH, perform_keeps_orphaned, Hr.
Qed.

(** [connect] does not release what the device cells hold when it
    overwrites them.  If a [connect] call with a credential gets past its
    guard while the input-context, output-context or timer cell still holds
    a handle [h] that has not been released (the state a failed [connect]
    leaves), then no later call releases [h], whatever follows,
    [disconnect] included. *)
Theorem overwritten_handle_is_never_released
        (rendered : ConnectionState) (env : ConnectEnv) (s : Hook) (h : handle)
        (ops : list Operation) :
  rendered = DISCONNECTED \/ rendered = ERROR ->
  truthy (or_else (API_KEY env) []) = true ->
  inputAudioContextRef s = Some h \/ outputAudioContextRef s = Some h
  \/ aiVolumeIntervalRef s = Some h ->
  mediaStreamRef s <> Some h ->
  (h < nextHandle s)%nat ->
  (forall e, In e (effects s) -> ~ releases h e) ->
  forall e,
    In e (effects (exec (perform_all decodeAudioData (Connect rendered env :: ops)) s)) ->
    ~ releases h e.
Proof.
  intros Hs Hk Hheld Hms Hlt Hrel.
  assert (Ho : orphaned h (exec (perform decodeAudioData (Connect rendered env)) s)).
  { cbn [perform]. rewrite exec_discard, (connect_past_guard rendered env Hs).
    unfold orphaned, exec. unfold_connect.
    destruct env as [k isus ri osus ro g l]. destruct_hook s. cbn in *.
    destruct isus, osus; run; cbn [API_KEY]; rewrite ?Hk; cbn;
      (split; [lia|]);
      repeat (split; [first [assumption | intros E; inversion E; lia]|]);
      intros e0 Hin; rewrite <- ?app_assoc in Hin; apply in_app_or in Hin;
      (destruct Hin as [Hin | Hin]; [apply Hrel, Hin|]);
      cbn in Hin; intros Hr; unfold releases in Hr;
      decompose [or] Hin; subst; decompose [or] Hr;
      try discriminate; try contradiction. }
  unfold exec. rewrite perform_all_cons.
  apply (perform_all_keeps_orphaned h ops _ Ho).
Qed.

End Orphans.


Lemma overwritten_handle_is_never_released_witness :
  (connectionState denied = DISCONNECTED \/ connectionState denied = ERROR)
  /\ inputAudioContextRef denied = Some 0%nat
  /\ ~ In (CloseAudioContext 0%nat)
         (effects (exec (perform_all sample_decoder
                           [Connect (connectionState denied) all_granted;
                            Resume AwaitGetUserMedia all_granted; Fire OnOpen;
                            Resume AwaitSession all_granted; Disconnect]) denied)).
Proof.
  assert (H1 : connectionState denied = DISCONNECTED \/ connectionState denied = ERROR)
    by (right; reflexivity).
  assert (H2 : truthy (or_else (API_KEY all_granted) []) = true) by reflexivity.
  assert (H3 : inputAudioContextRef denied = Some 0%nat
               \/ outputAudioContextRef denied = Some 0%nat
               \/ aiVolumeIntervalRef denied = Some 0%nat) by (left; reflexivity).
  assert (H4 : mediaStreamRef denied <> Some 0%nat) by discriminate.
  assert (H5 : (0 < nextHandle denied)%nat) by (vm_compute; lia).
  assert (H6 : forall e, In e (effects denied) -> ~ releases 0%nat e).
  { intros e Hin Hr. vm_compute in Hin. unfold releases in Hr.
    decompose [or] Hin; subst; decompose [or] Hr; try discriminate; contradiction. }
  split; [exact H1|]. split; [reflexivity|].
  intros Hin.
  apply (overwritten_handle_is_never_released sample_decoder (connectionState denied)
           all_granted denied 0%nat
           [Resume AwaitGetUserMedia all_granted; Fire OnOpen;
            Resume AwaitSession all_granted; Disconnect] H1 H2 H3 H4 H5 H6 _ Hin).
  left. reflexivity.
Defined.

(** ** The further properties at concrete inputs *)

Lemma connect_without_key_witness :
  (connectionState initial = DISCONNECTED \/ connectionState initial = ERROR)
  /\ truthy (or_else (API_KEY no_key) []) = false
  /\ calls_of (connect (connectionState initial) no_key) initial = []
  /\ connectionState (exec (connect (connectionState initial) no_key) initial) = ERROR.
Proof.
  assert (H1 : connectionState initial = DISCONNECTED \/ connectionState initial = ERROR)
    by (left; reflexivity).
  assert (H2 : truthy (or_else (API_KEY no_key) []) = false) by reflexivity.
  split; [exact H1|]. split; [exact H2|].
  destruct (connect_without_key (connectionState initial) no_key initial H1 H2)
    as (_ & Hs & _ & _ & Hc & _).
  split; [exact Hc | exact Hs].
Defined.


Lemma disconnect_during_resume_ends_in_error_witness :
  resumeInput suspended_contexts = Returned tt
  /\ result (connect DISCONNECTED suspended_contexts) initial
     = Returned (Some AwaitResumeInput)
  /\ connectionState
       (exec (connect_resume AwaitResumeInput suspended_contexts)
          (exec disconnect (exec (connect DISCONNECTED suspended_contexts) initial)))
     = ERROR.
Proof.
  assert (H : resumeInput suspended_contexts = Returned tt) by reflexivity.
  split; [exact H|]. split; [reflexivity|].
  apply (disconnect_during_resume_ends_in_error suspended_contexts
           (exec (connect DISCONNECTED suspended_contexts) initial) H).
Defined.

Lemma disconnect_does_not_cancel_connect_witness :
  getUserMedia all_granted = Returned tt
  /\ calls_of (connect_resume AwaitGetUserMedia all_granted)
       (exec disconnect (exec (connect DISCONNECTED all_granted) initial))
     = [GetUserMedia 4%nat; LiveConnect 5%nat]
  /\ connectionState
       (exec (connect_resume AwaitGetUserMedia all_granted)
          (exec disconnect (exec (connect DISCONNECTED all_granted) initial)))
     = DISCONNECTED.
Proof.
  assert (H : getUserMedia all_granted = Returned tt) by reflexivity.
  split; [exact H|].
  destruct (disconnect_does_not_cancel_connect all_granted
              (exec (connect DISCONNECTED all_granted) initial) H)
    as (_ & Hs & Hc & _).
  split; [exact Hc | exact Hs].
Defined.

Lemma start_never_in_the_past_witness :
  In (SourceStart 8%nat (1 # 4) 1)
     (calls_of (onmessage sample_decoder (at_clock (1 # 4)) (audio_message "AAAA"))
               connected)
  /\ currentTime (at_clock (1 # 4)) <= 1 # 4.
Proof.
  assert (H : In (SourceStart 8%nat (1 # 4) 1)
     (calls_of (onmessage sample_decoder (at_clock (1 # 4)) (audio_message "AAAA"))
               connected)) by (left; reflexivity).
  split; [exact H|].
  apply (start_never_in_the_past sample_decoder _ _ _ _ _ _ H).
Defined.

Lemma sample_decoder_durations (b : jsstring) (d : Q) :
  sample_decoder b = Some d -> 0 <= d.
Proof.
  unfold sample_decoder. destruct b as [|c b]; [discriminate|].
  destruct c as [|p]; [discriminate|].
  do 7 (destruct p as [p|p|]; try discriminate);
    intros H; inversion H; subst; discriminate.
Qed.

Lemma cursor_never_moves_back_witness :
  interrupted (audio_message "BBBB") = false
  /\ is_double (nextStartTimeRef playing)
  /\ is_double (currentTime (at_clock clock_256_frames))
  /\ nextStartTimeRef playing
     <= nextStartTimeRef
          (exec (onmessage sample_decoder (at_clock clock_256_frames)
                   (audio_message "BBBB")) playing).
Proof.
  assert (H1 : interrupted (audio_message "BBBB") = false) by reflexivity.
  assert (H2 : is_double (nextStartTimeRef playing)) by (vm_compute; reflexivity).
  assert (H3 : is_double (currentTime (at_clock clock_256_frames)))
    by (vm_compute; reflexivity).
  split; [exact H1|]. split; [exact H2|]. split; [exact H3|].
  apply (cursor_never_moves_back sample_decoder _ _ _ H1 sample_decoder_durations H2 H3).
Defined.

Lemma dropped_chunk_shifts_nothing_witness :
  inlineData (audio_message "????") = Some (js "????")
  /\ sample_decoder (js "????") = None
  /\ Forall2 same_call
       (calls_of (onmessages sample_decoder [(at_clock 2, audio_message "BBBB")])
          (exec (onmessage sample_decoder (at_clock 1) (audio_message "????")) playing))
       (calls_of (onmessages sample_decoder [(at_clock 2, audio_message "BBBB")])
          (exec (onmessage sample_decoder (at_clock 1) (without_audio (audio_message "????")))
                playing)).
Proof.
  assert (H1 : inlineData (audio_message "????") = Some (js "????")) by reflexivity.
  assert (H2 : truthy (js "????") = true) by reflexivity.
  assert (H3 : sample_decoder (js "????") = None) by reflexivity.
  assert (H4 : outputAudioContextRef playing = Some 1%nat) by reflexivity.
  assert (H5 : chunks_arriving sample_decoder [(at_clock 2, audio_message "BBBB")]
                 [(2, 1 # 2)]) by (repeat constructor).
  assert (H6 : Forall (fun a => currentTime (at_clock 1) <= fst a) [(2, 1 # 2)]).
  { repeat constructor. cbn. discriminate. }
  split; [exact H1|]. split; [exact H3|].
  apply (dropped_chunk_shifts_nothing sample_decoder (at_clock 1) (audio_message "????")
           playing (js "????") 1%nat _ _ H1 H2 H3 H4 H5 H6).
Defined.

Lemma ended_unit_is_never_stopped_witness :
  In (MkSource 8%nat (1 # 4) 1)
     (scheduledSourcesRef (exec (perform_all sample_decoder start_playing) initial))
  /\ ~ In (SourceStop 8%nat)
         (effects (exec (perform_all sample_decoder
                           (start_playing
                            ++ Fire (OnEnded 8%nat)
                               :: [Fire (OnMessage (at_clock 2) interrupt_message);
                                   Disconnect])) initial)).
Proof.
  assert (H : In (MkSource 8%nat (1 # 4) 1)
     (scheduledSourcesRef (exec (perform_all sample_decoder start_playing) initial)))
    by (vm_compute; left; reflexivity).
  split; [exact H|].
  apply (ended_unit_is_never_stopped sample_decoder start_playing
           [Fire (OnMessage (at_clock 2) interrupt_message); Disconnect]
           (MkSource 8%nat (1 # 4) 1) H).
Defined.


(** * The components around the hook *)

(** ** formatDuration *)

Lemma two_digits_below_100 :
  forallb (fun k => if list_eq_dec N.eq_dec
                          (padStart 2 48%N (toString (N.of_nat k)))
                          (two_digits (N.of_nat k))
                    then true else false)
          (seq 0 100) = true.
Proof. vm_compute. reflexivity. Qed.

Lemma padStart_two_digits (n : N) :
  (n < 100)%N -> padStart 2 48%N (toString n) = two_digits n.
Proof.
  intros H. pose proof two_digits_below_100 as Hall. rewrite forallb_forall in Hall.
  specialize (Hall (N.to_nat n)). rewrite N2Nat.id in Hall.
  destruct (list_eq_dec N.eq_dec (padStart 2 48%N (toString n)) (two_digits n)) as [E|E];
    [exact E|].
  assert (Hin : In (N.to_nat n) (seq 0 100)) by (apply in_seq; lia).
  specialize (Hall Hin). discriminate Hall.
Qed.

(** Below one hundred minutes the timer text is exactly "MM:SS": two digits
    of minutes, a colon, two digits of seconds below 60; and two different
    durations never show the same text. *)
Theorem formatDuration_mm_ss (seconds : N) :
  (seconds < 6000)%N ->
  formatDuration seconds
  = [(48 + seconds / 60 / 10)%N; (48 + (seconds / 60) mod 10)%N; 58%N;
     (48 + (seconds mod 60) / 10)%N; (48 + (seconds mod 60) mod 10)%N]
  /\ ((seconds mod 60) / 10 < 6)%N
  /\ (forall other, (other < 6000)%N ->
        formatDuration other = formatDuration seconds -> other = seconds).
Proof.
  assert (Hform : forall s, (s < 6000)%N ->
    formatDuration s
    = [(48 + s / 60 / 10)%N; (48 + (s / 60) mod 10)%N; 58%N;
       (48 + (s mod 60) / 10)%N; (48 + (s mod 60) mod 10)%N]).
  { intros s Hs. unfold formatDuration. cbv zeta.
    rewrite !padStart_two_digits.
    - reflexivity.
    - pose proof (N.mod_upper_bound s 60). lia.
    - apply N.Div0.div_lt_upper_bound. lia. }
  intros Hs. split; [apply Hform, Hs|]. split.
  { apply N.Div0.div_lt_upper_bound. pose proof (N.mod_upper_bound seconds 60). lia. }
  intros other Ho Heq. rewrite (Hform _ Ho), (Hform _ Hs) in Heq.
  pose proof (f_equal (fun l => nth 0 l 0%N) Heq) as E0.
  pose proof (f_equal (fun l => nth 1 l 0%N) Heq) as E1.
  pose proof (f_equal (fun l => nth 3 l 0%N) Heq) as E3.
  pose proof (f_equal (fun l => nth 4 l 0%N) Heq) as E4.
  cbn [nth] in E0, E1, E3, E4.
  pose proof (N.div_mod (other / 60) 10 ltac:(lia)) as D1.
  pose proof (N.div_mod (seconds / 60) 10 ltac:(lia)) as D2.
  pose proof (N.div_mod (other mod 60) 10 ltac:(lia)) as D3.
  pose proof (N.div_mod (seconds mod 60) 10 ltac:(lia)) as D4.
  pose proof (N.div_mod other 60 ltac:(lia)) as D5.
  pose proof (N.div_mod seconds 60 ltac:(lia)) as D6.
  assert (Hm : (other / 60 = seconds / 60)%N).
  { revert D1 D2 E0 E1.
    generalize (other / 60 / 10)%N ((other / 60) mod 10)%N
               (seconds / 60 / 10)%N ((seconds / 60) mod 10)%N.
    intros. lia. }
  assert (Hr : (other mod 60 = seconds mod 60)%N).
  { revert D3 D4 E3 E4.
    generalize ((other mod 60) / 10)%N ((other mod 60) mod 10)%N
               ((seconds mod 60) / 10)%N ((seconds mod 60) mod 10)%N.
    intros. lia. }
  rewrite Hm, Hr in D5. rewrite D5. symmetry. exact D6.
Qed.

Lemma formatDuration_mm_ss_witness :
  (754 < 6000)%N /\ formatDuration 754 = js "12:34".
Proof.
  assert (H : (754 < 6000)%N) by reflexivity.
  split; [exact H|].
  destruct (formatDuration_mm_ss 754 H) as (Hf & _). rewrite Hf. reflexivity.
Defined.


(** ** sendVideoFrame *)

Section Frames.

Variable decodeAudioData : jsstring -> option Q.

(** An image frame is handed to the session only through a callback whose
    render saw the Connected state, and only to the resolved session held in
    the session cell when the call is made: at most one message per call,
    carrying the image as "image/jpeg".  The callbacks of the session and
    of the browser do not change who gets the frames.  After a [disconnect]
    nothing is sent, whatever the render of the callback (not even when a
    late open callback has set the state back to Connected), until a
    continuation of [connect] stores a session promise; from then on the
    frames go to that session, also when the [disconnect] came while the
    [connect] call was waiting for the permission prompt. *)
Theorem frames_go_to_the_open_session
        (rendered : ConnectionState) (base64Image : jsstring) (s : Hook) :
  (forall frame, In frame (sendVideoFrame rendered base64Image s) ->
     rendered = CONNECTED
     /\ sessionPromiseRef s = Some (MkPromise (fst (fst frame)) true)
     /\ frame = (fst (fst frame), js "image/jpeg", base64Image))
  /\ (forall session,
      sessionPromiseRef s = Some (MkPromise session true) ->
      sendVideoFrame CONNECTED base64Image s = [(session, js "image/jpeg", base64Image)])
  /\ (List.length (sendVideoFrame rendered base64Image s) <= 1)%nat
  /\ (forall c,
      sendVideoFrame rendered base64Image (exec (fire decodeAudioData c) s)
      = sendVideoFrame rendered base64Image s)
  /\ sendVideoFrame rendered base64Image (exec disconnect s) = []
  /\ sendVideoFrame rendered base64Image (exec onopen (exec disconnect s)) = []
  /\ (forall env,
      getUserMedia env = Returned tt -> liveConnect env = Returned tt ->
      sendVideoFrame CONNECTED base64Image
        (exec (connect_resume AwaitGetUserMedia env) (exec disconnect s))
      = [(S (nextHandle s), js "image/jpeg", base64Image)]).
Proof.
  split.
  { intros frame. unfold sendVideoFrame. destruct_hook s. cbn.
    destruct rendered; try contradiction. destruct sp as [[pid [|]]|]; try contradiction.
    intros [<- | []]. repeat split. }
  split.
  { intros session Hs. unfold sendVideoFrame. rewrite Hs. reflexivity. }
  split.
  { unfold sendVideoFrame. destruct rendered; cbn; try lia.
    destruct (sessionPromiseRef s) as [[pid [|]]|]; cbn; lia. }
  split.
  { intros c. unfold sendVideoFrame.
    assert (H : sessionPromiseRef (exec (fire decodeAudioData c) s) = sessionPromiseRef s).
    { destruct c as [| |e|env m|h]; cbn [fire].
      - destruct_hook s. unfold exec, onopen. destruct ic, ms; reflexivity.
      - destruct_hook s. reflexivity.
      - destruct_hook s. reflexivity.
      - apply onmessage_returns_error_kept.
      - destruct_hook s. reflexivity. }
    rewrite H. reflexivity. }
  split.
  { assert (H : exec disconnect s = snd (disconnect s)) by reflexivity.
    rewrite H, disconnect_run. unfold sendVideoFrame. destruct rendered; reflexivity. }
  split.
  { assert (H : exec disconnect s = snd (disconnect s)) by reflexivity.
    rewrite H, disconnect_run. unfold sendVideoFrame. destruct rendered; reflexivity. }
  intros env Hg Hl. unfold sendVideoFrame, exec at 1.
  rewrite (granted_after_disconnect env s Hg), Hl. reflexivity.
Qed.

End Frames.

(** ** generateFeedback *)

Section FeedbackProperties.

Variable JSON_parse : jsstring -> option FeedbackAnalysis.

(** [generateFeedback] throws in one case only, a missing or empty
    credential, and then before any request.  With a credential it always
    returns: the parsed analysis when the model answered with a non-empty
    text that parses, and otherwise (request failed, empty answer, text that
    does not parse) the fallback record with score 0 and no strengths or
    improvements. *)
Theorem feedback_degrades_except_without_key
        (env : FeedbackEnv) (config : InterviewConfig) (log : list TranscriptItem) :
  (truthy (or_else (feedback_API_KEY env) []) = false ->
   generateFeedback JSON_parse env config log = Thrown (js "API Key not found"))
  /\ (truthy (or_else (feedback_API_KEY env) []) = true ->
      (forall text analysis,
         generateContent env (feedback_prompt config log) = Returned (Some text) ->
         truthy text = true -> JSON_parse text = Some analysis ->
         generateFeedback JSON_parse env config log = Returned analysis)
      /\ ((forall text,
             generateContent env (feedback_prompt config log) = Returned (Some text) ->
             truthy text = false \/ JSON_parse text = None) ->
          generateFeedback JSON_parse env config log = Returned fallback_feedback)
      /\ exists analysis,
           generateFeedback JSON_parse env config log = Returned analysis)
  /\ score fallback_feedback = 0%Z
  /\ strengths fallback_feedback = []
  /\ improvements fallback_feedback = [].
Proof.
  unfold generateFeedback. split.
  { intros ->. reflexivity. }
  split; [|repeat split].
  intros ->. cbn [negb].
  destruct (generateContent env (feedback_prompt config log)) as [[text|]|e].
  - split.
    { intros t a Ht Htr Hp. inversion Ht; subst t. cbn [or_else].
      rewrite ?Htr. cbn. rewrite ?Htr, ?Hp. cbn. rewrite ?Hp. reflexivity. }
    split.
    { intros H. destruct (H text eq_refl) as [Htr | Hp]; cbn [or_else].
      - rewrite ?Htr. cbn. rewrite ?Htr. reflexivity.
      - destruct (truthy text) eqn:E; cbn; rewrite ?E; cbn; rewrite ?Hp; reflexivity. }
    cbn [or_else]. destruct (truthy text) eqn:E; cbn; rewrite ?E; cbn;
      [|eexists; reflexivity].
    destruct (JSON_parse text); eexists; reflexivity.
  - split; [discriminate|]. split; [reflexivity | eexists; reflexivity].
  - split; [discriminate|]. split; [reflexivity | eexists; reflexivity].
Qed.

(** ** App: ending a session *)

Lemma generateFeedback_without_key
      (env : FeedbackEnv) (config : InterviewConfig) (log : list TranscriptItem) :
  truthy (or_else (feedback_API_KEY env) []) = false ->
  generateFeedback JSON_parse env config log = Thrown (js "API Key not found").
Proof. unfold generateFeedback. intros ->. reflexivity. Qed.

Lemma generateFeedback_with_key
      (env : FeedbackEnv) (config : InterviewConfig) (log : list TranscriptItem) :
  truthy (or_else (feedback_API_KEY env) []) = true ->
  exists analysis, generateFeedback JSON_parse env config log = Returned analysis.
Proof.
  unfold generateFeedback. intros ->. cbn [negb].
  destruct (generateContent env (feedback_prompt config log)) as [[text|]|e];
    cbn [or_else catching]; try (eexists; reflexivity).
  destruct (truthy text) eqn:E; cbn; rewrite ?E; cbn; [|eexists; reflexivity].
  destruct (JSON_parse text); eexists; reflexivity.
Qed.

(** [handleEnd] always disconnects the hook and leaves the transcript as it
    was.  With an empty transcript it returns to the setup form.  With a
    non-empty transcript and a credential it ends on the feedback card, for
    the analysis [generateFeedback] returned over that transcript, the
    fallback record included.  With a non-empty transcript and no credential
    it throws, and the loading screen stays. *)
Theorem ending_a_session (env : FeedbackEnv) (config : InterviewConfig) (app : App) :
  let app' := snd (handleEnd JSON_parse env config app) in
  connectionState (hook app') = DISCONNECTED
  /\ transcript (hook app') = transcript (hook app)
  /\ hook app' = exec disconnect (hook app)
  /\ (transcript (hook app) = [] ->
      fst (handleEnd JSON_parse env config app) = Returned tt
      /\ render app' = SetupForm /\ feedback app' = feedback app)
  /\ (transcript (hook app) <> [] ->
      truthy (or_else (feedback_API_KEY env) []) = true ->
      fst (handleEnd JSON_parse env config app) = Returned tt
      /\ exists analysis,
          generateFeedback JSON_parse env config (transcript (hook app)) = Returned analysis
          /\ render app' = FeedbackCard analysis (transcript (hook app)))
  /\ (transcript (hook app) <> [] ->
      truthy (or_else (feedback_API_KEY env) []) = false ->
      fst (handleEnd JSON_parse env config app) = Thrown (js "API Key not found")
      /\ render app' = LoadingScreen).
Proof.
  intros app'. unfold app', handleEnd. rewrite disconnect_run.
  set (h := MkHook DISCONNECTED _ _ _ _ _ _ _ _ _ _ _ _ _ _ _ _ _ _).
  assert (Hh : exec disconnect (hook app) = h).
  { unfold exec. rewrite disconnect_run. reflexivity. }
  destruct (transcript (hook app)) as [|item items] eqn:Ht.
  - cbn. repeat split; try congruence; intros H; contradiction H; reflexivity.
  - destruct (truthy (or_else (feedback_API_KEY env) [])) eqn:Hk.
    + destruct (generateFeedback_with_key env config (item :: items) Hk) as (analysis & Hg).
      rewrite Hg. cbn.
      repeat split; try congruence; try discriminate.
      exists analysis. split; reflexivity.
    + rewrite (generateFeedback_without_key env config (item :: items) Hk). cbn.
      repeat split; try congruence; discriminate.
Qed.

End FeedbackProperties.

(** ** No operation throws *)

(** Every failure is contained: whatever the credential, the outcomes of
    the awaited operations, the payloads and the order of events, no method
    call, no continuation of [connect] and no callback of the hook throws to
    its caller. *)
Theorem no_operation_throws (decodeAudioData : jsstring -> option Q)
        (ops : list Operation) (s : Hook) :
  result (perform_all decodeAudioData ops) s = Returned tt.
Proof. apply perform_all_returns. Qed.
